(** * Purpose layer of the Crafting environment

    A shallow embedding of [crafting/purpose.py]: the [Purpose] class
    ([add_task], [build], [reward], [is_terminal]) and the reward-shaping
    strategies ([_all_subtasks], [_required_subtasks], [_inputs_subtasks],
    [_build_reward_shaping_subtasks]), together with the properties of
    termination, terminal groups and subtask synthesis.

    Python objects are mutable and compared by identity.  A [Purpose] is a
    record held in the interpreter state; every method is a computation in a
    small state-and-exception monad [M] over that state.  Tasks are values that
    carry the identity of the object ([task_uid]); what a task object keeps in
    its own attributes lives in a store indexed by the task. *)

From stdpp Require Import gmap strings list fin_maps sets functions.

Set Default Proof Using "Type".
Open Scope string_scope.
Open Scope list_scope.
Open Scope nat_scope.

(** ** Elements: [Item], [Zone], [ItemStack] *)

Record Item := { item_name : string }.
Record Zone := { zone_name : string }.
Record ItemStack := { item : Item; quantity : positive }.

#[global] Instance Item_eq_dec : EqDecision Item.
Proof. solve_decision. Defined.
#[global] Instance Zone_eq_dec : EqDecision Zone.
Proof. solve_decision. Defined.
#[global] Instance ItemStack_eq_dec : EqDecision ItemStack.
Proof. solve_decision. Defined.

#[global] Instance Item_countable : Countable Item.
Proof. by apply (inj_countable' item_name Build_Item); intros []. Defined.
#[global] Instance Zone_countable : Countable Zone.
Proof. by apply (inj_countable' zone_name Build_Zone); intros []. Defined.
#[global] Instance ItemStack_countable : Countable ItemStack.
Proof.
  by apply (inj_countable' (λ s, (item s, quantity s))
              (λ p, Build_ItemStack p.1 p.2)); intros [].
Defined.

(** [_stack_item]: the task constructors accept an [Item] and wrap it in a
    stack of quantity one. *)
Definition stack_of_item (i : Item) : ItemStack :=
  {| item := i; quantity := 1%positive |}.

(** ** Reward shaping modes *)

Inductive RewardShaping :=
  | NONE
  | ALL_ACHIVEMENTS
  | REQUIRED_ACHIVEMENTS
  | INPUTS_ACHIVEMENT.

#[global] Instance RewardShaping_eq_dec : EqDecision RewardShaping.
Proof. solve_decision. Defined.

Definition RewardShaping_value (rs : RewardShaping) : string :=
  match rs with
  | NONE => "none"
  | ALL_ACHIVEMENTS => "all"
  | REQUIRED_ACHIVEMENTS => "required"
  | INPUTS_ACHIVEMENT => "inputs"
  end.

(** What callers pass where a [RewardShaping] is expected: a member of the
    enumeration or the string that is its value. *)
Inductive ShapingArg :=
  | ByMember (rs : RewardShaping)
  | ByValue (s : string).

(** [RewardShaping(x)]: the member itself, or the member whose value is [x];
    [None] stands for the [ValueError] of the enumeration. *)
Definition RewardShaping_call (a : ShapingArg) : option RewardShaping :=
  match a with
  | ByMember rs => Some rs
  | ByValue s =>
      find (λ rs, bool_decide (RewardShaping_value rs = s))
           [NONE; ALL_ACHIVEMENTS; REQUIRED_ACHIVEMENTS; INPUTS_ACHIVEMENT]
  end.

(** The [terminal_groups] argument of [add_task]:
    [Optional[Union[str, List[str]]]]. *)
Inductive TerminalGroupsArg :=
  | NoGroup
  | GroupName (s : string)
  | GroupNames (l : list string).

(** Python truth value of the argument: [None], the empty string and the
    empty list are false. *)
Definition truthy (a : TerminalGroupsArg) : bool :=
  match a with
  | NoGroup => false
  | GroupName s => negb (bool_decide (s = EmptyString))
  | GroupNames l => negb (bool_decide (l = []))
  end.

(** ** Tasks *)

(** The class of a task object with the attributes the shaping strategies
    read.  [OtherTask] is any further subclass of [Task]. *)
Inductive TaskKind :=
  | GetItemTask (item_stack : ItemStack)
  | GoToZoneTask (zone : Zone)
  | PlaceItemTask (item_stack : ItemStack) (zones : option (list Zone))
  | OtherTask (class_name : string).

#[global] Instance TaskKind_eq_dec : EqDecision TaskKind.
Proof. solve_decision. Defined.

#[global] Instance TaskKind_countable : Countable TaskKind.
Proof.
  apply (inj_countable'
    (λ k, match k with
          | GetItemTask s => inl (inl s)
          | GoToZoneTask z => inl (inr z)
          | PlaceItemTask s zs => inr (inl (s, zs))
          | OtherTask c => inr (inr c)
          end)
    (λ x, match x with
          | inl (inl s) => GetItemTask s
          | inl (inr z) => GoToZoneTask z
          | inr (inl (s, zs)) => PlaceItemTask s zs
          | inr (inr c) => OtherTask c
          end)).
  by intros [].
Defined.

Definition is_supported (k : TaskKind) : bool :=
  match k with
  | OtherTask _ => false
  | _ => true
  end.

(** Exceptions raised by the code of the purpose layer. *)
Inductive Exn :=
  | KeyError
  | ValueError
  | NotImplementedError
  | NetworkXError.

(** Result of running a method: a value, a raised exception, or an
    iteration budget that ran out (only the loop of [build] has one). *)
Inductive Outcome (A : Type) :=
  | Ok (a : A)
  | Raise (e : Exn)
  | OutOfFuel.
Arguments Ok {A} a.
Arguments Raise {A} e.
Arguments OutOfFuel {A}.

(** A task object: its identity (Python compares and hashes tasks by
    identity, the default of [object]) and its class with the goal it was
    constructed with.  Every other attribute of the object, the reward value
    included, is in the object store of the interpreter. *)
Record Task := { task_uid : positive; task_kind : TaskKind }.

#[global] Instance Task_eq_dec : EqDecision Task.
Proof. solve_decision. Defined.
#[global] Instance Task_countable : Countable Task.
Proof.
  by apply (inj_countable' (λ t, (task_uid t, task_kind t))
              (λ p, Build_Task p.1 p.2)); intros [].
Defined.

(** ** World, transformations and requirements graph, as [purpose.py] reads
    them through the environment *)

Record World := {
  items : list Item;
  zones : list Zone;
  zones_items : list Item;
}.

(** The attributes of a [Transformation] that the shaping strategies read.
    [destination] and [zones] may be [None]. *)
Record Transformation := {
  produced_items : list Item;
  consumed_items : list Item;
  produced_zones_items : list Item;
  consumed_zones_items : list Item;
  destination : option Zone;
  transfo_zones : option (list Zone);
}.

Inductive ReqNodesTypes := ITEM | ZONE | ZONE_ITEM.

(** A node of the requirements graph.  The constructor plays the part of
    [req_node_name obj type]: it is the key of the node, and the attributes
    ["obj"] and ["type"] stored at the node are read back from it. *)
Inductive ReqNode :=
  | ItemNode (obj : Item)
  | ZoneNode (obj : Zone)
  | ZoneItemNode (obj : Item).

#[global] Instance ReqNode_eq_dec : EqDecision ReqNode.
Proof. solve_decision. Defined.
#[global] Instance ReqNode_countable : Countable ReqNode.
Proof.
  apply (inj_countable'
    (λ n, match n with
          | ItemNode i => inl (inl i)
          | ZoneNode z => inl (inr z)
          | ZoneItemNode i => inr i
          end)
    (λ x, match x with
          | inl (inl i) => ItemNode i
          | inl (inr z) => ZoneNode z
          | inr i => ZoneItemNode i
          end)).
  by intros [].
Defined.

Definition node_type (n : ReqNode) : ReqNodesTypes :=
  match n with
  | ItemNode _ => ITEM
  | ZoneNode _ => ZONE
  | ZoneItemNode _ => ZONE_ITEM
  end.

(** A [networkx.DiGraph]: nodes and directed edges. *)
Record DiGraph := {
  nodes : gset ReqNode;
  edges : gset (ReqNode * ReqNode);
}.

Record CraftingEnv := {
  world : World;
  transformations : list Transformation;
  requirements_graph : DiGraph;
}.

(** *** [networkx.ancestors] *)

(** Direct predecessors of the nodes of [seen]. *)
Definition predecessors (G : DiGraph) (seen : gset ReqNode) : gset ReqNode :=
  set_map fst (filter (λ e, e.2 ∈ seen) (edges G)).

(** Backward breadth-first closure: [n] rounds of adding predecessors. *)
Fixpoint reach_back (G : DiGraph) (n : nat) (seen : gset ReqNode) : gset ReqNode :=
  match n with
  | O => seen
  | S n' => reach_back G n' (seen ∪ predecessors G seen)
  end.

(** [nx.ancestors(G, source)]: every node with a path to [source], [source]
    itself left out; [NetworkXError] when [source] is not a node of [G].
    No more rounds than there are edges are needed. *)
Definition ancestors (G : DiGraph) (source : ReqNode) : option (gset ReqNode) :=
  if decide (source ∈ nodes G)
  then Some (reach_back G (size (edges G)) {[source]} ∖ {[source]})
  else None.

(** ** The interface of tasks and the interpreter state *)

(** Types of the values the purpose layer handles without looking inside:
    rewards (Python floats, with their addition), the numpy arrays of a state,
    and the attributes a task object keeps for itself. *)
Class Runtime := {
  Reward : Type;
  float_add : Reward → Reward → Reward;
  ndarray : Type;
  TaskState : Type;
}.

(** The methods of the [Task] classes.  A method reads and writes the
    attributes of the object it is called on. *)
Class TaskMethods `{Runtime} := {
  task_init : TaskKind → Reward → TaskState;
  task_is_terminal : Task → ndarray → ndarray → ndarray → TaskState → bool * TaskState;
  task_reward : Task → ndarray → ndarray → ndarray → TaskState → Reward * TaskState;
  task_build : Task → World → TaskState → TaskState;
}.

Section Model.
Context `{RT : Runtime}.

Record Purpose := {
  tasks : list Task;
  timestep_reward : Reward;
  shaping_value : Reward;
  default_reward_shaping : ShapingArg;
  task_has_ended : gmap Task bool;
  reward_shaping : gmap Task RewardShaping;
  terminal_groups : list (string * list Task);
}.

(** The interpreter state: the purpose object the methods are called on,
    the attributes of every task object, and the identity the next
    constructed object gets. *)
Record Interp := {
  self : Purpose;
  objects : Task → TaskState;
  next_uid : positive;
}.

Definition M (A : Type) : Type := Interp → Outcome A * Interp.

#[global] Instance M_ret : MRet M := λ A a σ, (Ok a, σ).

#[global] Instance M_bind : MBind M := λ A B f m σ,
  match m σ with
  | (Ok a, σ') => f a σ'
  | (Raise e, σ') => (Raise e, σ')
  | (OutOfFuel, σ') => (OutOfFuel, σ')
  end.

Definition raise {A} (e : Exn) : M A := λ σ, (Raise e, σ).
Definition out_of_fuel {A} : M A := λ σ, (OutOfFuel, σ).
Definition get_self : M Purpose := λ σ, (Ok (self σ), σ).
Definition modify_self (f : Purpose → Purpose) : M unit := λ σ,
  (Ok (), {| self := f (self σ); objects := objects σ; next_uid := next_uid σ |}).

(** [d[k]] on a dictionary: [KeyError] when the key is missing. *)
Definition getitem `{Countable K} {V} (d : gmap K V) (k : K) : M V :=
  match d !! k with
  | Some v => mret v
  | None => raise KeyError
  end.

(** Field updates of the purpose object. *)
Definition set_task_has_ended (task : Task) (b : bool) (p : Purpose) : Purpose :=
  {| tasks := tasks p; timestep_reward := timestep_reward p;
     shaping_value := shaping_value p;
     default_reward_shaping := default_reward_shaping p;
     task_has_ended := <[task := b]> (task_has_ended p);
     reward_shaping := reward_shaping p;
     terminal_groups := terminal_groups p |}.

Definition set_reward_shaping (task : Task) (rs : RewardShaping) (p : Purpose) : Purpose :=
  {| tasks := tasks p; timestep_reward := timestep_reward p;
     shaping_value := shaping_value p;
     default_reward_shaping := default_reward_shaping p;
     task_has_ended := task_has_ended p;
     reward_shaping := <[task := rs]> (reward_shaping p);
     terminal_groups := terminal_groups p |}.

Definition set_terminal_groups (g : list (string * list Task)) (p : Purpose) : Purpose :=
  {| tasks := tasks p; timestep_reward := timestep_reward p;
     shaping_value := shaping_value p;
     default_reward_shaping := default_reward_shaping p;
     task_has_ended := task_has_ended p;
     reward_shaping := reward_shaping p;
     terminal_groups := g |}.

Definition append_task (task : Task) (p : Purpose) : Purpose :=
  {| tasks := tasks p ++ [task]; timestep_reward := timestep_reward p;
     shaping_value := shaping_value p;
     default_reward_shaping := default_reward_shaping p;
     task_has_ended := task_has_ended p;
     reward_shaping := reward_shaping p;
     terminal_groups := terminal_groups p |}.

(** *** The dictionary [terminal_groups]

    Python dictionaries keep their keys in insertion order and
    [is_terminal] walks the groups in that order, so the dictionary is an
    association list with distinct keys. *)
Definition group_mem (g : string) (d : list (string * list Task)) : bool :=
  bool_decide (g ∈ d.*1).

Fixpoint group_get (g : string) (d : list (string * list Task)) : option (list Task) :=
  match d with
  | [] => None
  | (k, ts) :: d' => if decide (k = g) then Some ts else group_get g d'
  end.

(** [d[g] = ts]: overwrite in place, or add the new key last. *)
Fixpoint group_set (g : string) (ts : list Task) (d : list (string * list Task))
  : list (string * list Task) :=
  match d with
  | [] => [(g, ts)]
  | (k, old) :: d' =>
      if decide (k = g) then (k, ts) :: d' else (k, old) :: group_set g ts d'
  end.
End Model.

(** ** The methods of [Purpose] *)

Section Methods.
Context {RT : Runtime} {TM : TaskMethods}.

(** [for x in xs: body(x)] over a list that the body does not change. *)
Fixpoint for_each {A} (xs : list A) (body : A → M ()) : M () :=
  match xs with
  | [] => mret ()
  | x :: xs' => body x;; for_each xs' body
  end.

(** [[f(x) for x in xs]]. *)
Fixpoint map_each {A B} (xs : list A) (f : A → M B) : M (list B) :=
  match xs with
  | [] => mret []
  | x :: xs' => y ← f x; ys ← map_each xs' f; mret (y :: ys)
  end.

(** Calls of the methods of a task object, on its own attributes. *)
Definition call_is_terminal (task : Task)
    (player_inventory position zones_inventory : ndarray) : M bool := λ σ,
  let '(b, s) := task_is_terminal task player_inventory position zones_inventory
                   (objects σ task) in
  (Ok b, {| self := self σ; objects := <[task := s]> (objects σ);
            next_uid := next_uid σ |}).

Definition call_reward (task : Task)
    (player_inventory position zones_inventory : ndarray) : M Reward := λ σ,
  let '(r, s) := task_reward task player_inventory position zones_inventory
                   (objects σ task) in
  (Ok r, {| self := self σ; objects := <[task := s]> (objects σ);
            next_uid := next_uid σ |}).

Definition call_build (task : Task) (w : World) : M () := λ σ,
  (Ok (), {| self := self σ;
             objects := <[task := task_build task w (objects σ task)]> (objects σ);
             next_uid := next_uid σ |}).

(** Construction of a task object, [GetItemTask(item, reward=r)] and the
    like: a new identity, attributes as the constructor leaves them. *)
Definition new_task (kind : TaskKind) (reward : Reward) : M Task := λ σ,
  let task := {| task_uid := next_uid σ; task_kind := kind |} in
  (Ok task, {| self := self σ;
               objects := <[task := task_init kind reward]> (objects σ);
               next_uid := Pos.succ (next_uid σ) |}).

(** *** [Purpose.add_task] *)

(** Body of [for terminal_group in terminal_groups]. *)
Definition add_to_group (task : Task) (terminal_group : string) : M () :=
  p ← get_self;
  (if group_mem terminal_group (terminal_groups p) then mret ()
   else modify_self (λ p, set_terminal_groups
                            (group_set terminal_group [] (terminal_groups p)) p));;
  p ← get_self;
  match group_get terminal_group (terminal_groups p) with
  | Some group_tasks =>
      modify_self (set_terminal_groups
        (group_set terminal_group (group_tasks ++ [task]) (terminal_groups p)))
  | None => raise KeyError
  end.

Definition add_task (task : Task) (reward_shaping : option ShapingArg)
    (terminal_groups : TerminalGroupsArg) : M () :=
  p ← get_self;
  let reward_shaping :=
    match reward_shaping with
    | None => default_reward_shaping p
    | Some a => a
    end in
  reward_shaping ←
    match RewardShaping_call reward_shaping with
    | Some rs => mret rs
    | None => raise ValueError
    end;
  modify_self (set_task_has_ended task false);;
  (if truthy terminal_groups then
     let terminal_groups :=
       match terminal_groups with
       | GroupName s => [s]
       | GroupNames l => l
       | NoGroup => []
       end in
     for_each terminal_groups (add_to_group task)
   else mret ());;
  modify_self (set_reward_shaping task reward_shaping);;
  modify_self (append_task task).

(** *** [Purpose.__init__] *)

Inductive TasksArg :=
  | NoTasks
  | OneTask (task : Task)
  | TaskList (l : list Task).

Definition Purpose_init (tasks : TasksArg) (timestep_reward : Reward)
    (default_reward_shaping : ShapingArg) (shaping_value : Reward) : M () :=
  modify_self (λ _,
    {| tasks := []; timestep_reward := timestep_reward;
       shaping_value := shaping_value;
       default_reward_shaping := default_reward_shaping;
       task_has_ended := ∅; reward_shaping := ∅; terminal_groups := [] |});;
  let tasks :=
    match tasks with
    | OneTask task => [task]
    | NoTasks => []
    | TaskList l => l
    end in
  for_each tasks (λ task,
    add_task task (Some default_reward_shaping) (GroupName "default")).

(** *** [Purpose.reward] *)

Fixpoint sum_rewards (ts : list Task) (pi pos zi : ndarray) (reward : Reward)
  : M Reward :=
  match ts with
  | [] => mret reward
  | task :: ts' =>
      r ← call_reward task pi pos zi;
      sum_rewards ts' pi pos zi (float_add reward r)
  end.

Definition reward (player_inventory position zones_inventory : ndarray) : M Reward :=
  p ← get_self;
  let reward := timestep_reward p in
  match tasks p with
  | [] => mret reward
  | _ => sum_rewards (tasks p) player_inventory position zones_inventory reward
  end.

(** *** [Purpose.is_terminal] *)

(** Body of the first loop: flag the task when it has not ended and its
    own [is_terminal] now holds.  [and] does not call the task once it is
    flagged. *)
Definition update_one (task : Task) (pi pos zi : ndarray) : M () :=
  p ← get_self;
  ended ← getitem (task_has_ended p) task;
  if ended : bool then mret ()
  else
    b ← call_is_terminal task pi pos zi;
    if b : bool then modify_self (set_task_has_ended task true) else mret ().

(** First loop of [is_terminal], over the tasks in order. *)
Fixpoint update_ended (ts : list Task) (pi pos zi : ndarray) : M () :=
  match ts with
  | [] => mret ()
  | task :: ts' => update_one task pi pos zi;; update_ended ts' pi pos zi
  end.

(** [all(self.task_has_ended[task] for task in group_tasks)]: stops at
    the first flag that is false. *)
Fixpoint all_ended (group_tasks : list Task) : M bool :=
  match group_tasks with
  | [] => mret true
  | task :: rest =>
      p ← get_self;
      ended ← getitem (task_has_ended p) task;
      if ended : bool then all_ended rest else mret false
  end.

(** Second loop: return at the first group whose tasks have all ended. *)
Fixpoint any_group_ended (groups : list (string * list Task)) : M bool :=
  match groups with
  | [] => mret false
  | (_terminal_group, group_tasks) :: rest =>
      group_has_ended ← all_ended group_tasks;
      if group_has_ended : bool then mret true else any_group_ended rest
  end.

Definition is_terminal (player_inventory position zones_inventory : ndarray) : M bool :=
  p ← get_self;
  match tasks p return M bool with
  | [] => mret false
  | _ =>
      update_ended (tasks p) player_inventory position zones_inventory;;
      p ← get_self;
      any_group_ended (terminal_groups p)
  end.

(** [Purpose.optional_tasks]: the tasks in no terminal group at all. *)
Definition optional_tasks (p : Purpose) : list Task :=
  let terminal_tasks := concat (terminal_groups p).*2 in
  filter (λ task, task ∉ terminal_tasks) (tasks p).
End Methods.

(** ** Reward shaping: what each strategy collects *)

(** The three sets [relevant_items], [relevant_zones], [relevant_zone_items]
    of [_required_subtasks] and [_inputs_subtasks]. *)
Record Relevant := {
  relevant_items : gset Item;
  relevant_zones : gset Zone;
  relevant_zone_items : gset Item;
}.

Definition lookup_item (n : ReqNode) : option Item :=
  match n with ItemNode i => Some i | _ => None end.
Definition lookup_zone (n : ReqNode) : option Zone :=
  match n with ZoneNode z => Some z | _ => None end.
Definition lookup_zone_item (n : ReqNode) : option Item :=
  match n with ZoneItemNode i => Some i | _ => None end.

(** Inner loop of [_required_subtasks]: every ancestor goes to the set of
    its node type. *)
Definition add_ancestors (anc : gset ReqNode) (r : Relevant) : Relevant :=
  {| relevant_items := relevant_items r ∪ set_omap lookup_item anc;
     relevant_zones := relevant_zones r ∪ set_omap lookup_zone anc;
     relevant_zone_items := relevant_zone_items r ∪ set_omap lookup_zone_item anc |}.

(** Outer loop of [_required_subtasks], over the goal nodes in order. *)
Fixpoint required_loop (G : DiGraph) (goal_requirement_nodes : list ReqNode)
    (r : Relevant) : Exn + Relevant :=
  match goal_requirement_nodes with
  | [] => inr r
  | requirement_node :: rest =>
      match ancestors G requirement_node with
      | None => inl NetworkXError
      | Some anc => required_loop G rest (add_ancestors anc r)
      end
  end.

(** [x if x else []] on an optional list. *)
Definition or_empty {A} (l : option (list A)) : list A :=
  match l with Some l => l | None => [] end.

Definition required_relevant (kind : TaskKind) (env : CraftingEnv) : Exn + Relevant :=
  let G := requirements_graph env in
  let none := {| relevant_items := ∅; relevant_zones := ∅; relevant_zone_items := ∅ |} in
  match kind with
  | GetItemTask item_stack =>
      let goal_item := item item_stack in
      required_loop G [ItemNode goal_item] none
  | PlaceItemTask item_stack zones =>
      let goal_item := item item_stack in
      let goal_zones := or_empty zones in
      required_loop G (ZoneItemNode goal_item :: (ZoneNode <$> goal_zones))
        {| relevant_items := ∅; relevant_zones := list_to_set goal_zones;
           relevant_zone_items := ∅ |}
  | GoToZoneTask zone => required_loop G [ZoneNode zone] none
  | OtherTask _ => inl NotImplementedError
  end.

(** The goal of a task as [_inputs_subtasks] reads it. *)
Record InputsGoal := {
  goal_item : option Item;
  goal_zone_item : option Item;
  goal_zones : list Zone;
}.

(** [x in l] where [x] may be [None] and [l] holds items: [None] is in no
    such list. *)
Definition opt_in (x : option Item) (l : list Item) : bool :=
  match x with
  | Some i => bool_decide (i ∈ l)
  | None => false
  end.

Definition transfo_giving_item (g : InputsGoal) (transfo : Transformation) : bool :=
  opt_in (goal_item g) (produced_items transfo)
  && negb (opt_in (goal_item g) (consumed_items transfo)).

Definition transfo_placing_zone_item (g : InputsGoal) (transfo : Transformation) : bool :=
  opt_in (goal_zone_item g) (produced_zones_items transfo)
  && negb (opt_in (goal_zone_item g) (consumed_zones_items transfo)).

Definition transfo_going_to_any_zones (g : InputsGoal) (transfo : Transformation) : bool :=
  match destination transfo with
  | Some d => bool_decide (d ∈ goal_zones g)
  | None => false
  end.

(** Body of the loop over [relevant_transformations]. *)
Definition add_inputs (r : Relevant) (transfo : Transformation) : Relevant :=
  {| relevant_items := relevant_items r ∪ list_to_set (consumed_items transfo);
     relevant_zones :=
       match transfo_zones transfo with
       | Some (z :: zs) => relevant_zones r ∪ list_to_set (z :: zs)
       | _ => relevant_zones r
       end;
     relevant_zone_items :=
       relevant_zone_items r ∪ list_to_set (consumed_zones_items transfo) |}.

Definition inputs_relevant (kind : TaskKind) (env : CraftingEnv) : Exn + Relevant :=
  let start goal relevant_zones :=
    let relevant_transformations :=
      filter (λ t, transfo_giving_item goal t) (transformations env)
      ++ filter (λ t, transfo_placing_zone_item goal t) (transformations env)
      ++ filter (λ t, transfo_going_to_any_zones goal t) (transformations env) in
    inr (foldl add_inputs
           {| relevant_items := ∅; relevant_zones := relevant_zones;
              relevant_zone_items := ∅ |}
           relevant_transformations) in
  match kind with
  | GetItemTask item_stack =>
      start {| goal_item := Some (item item_stack); goal_zone_item := None;
               goal_zones := [] |} ∅
  | GoToZoneTask zone =>
      start {| goal_item := None; goal_zone_item := None; goal_zones := [zone] |} ∅
  | PlaceItemTask item_stack (Some (z :: zs)) =>
      start {| goal_item := None; goal_zone_item := Some (item item_stack);
               goal_zones := z :: zs |} (list_to_set (z :: zs))
  | PlaceItemTask item_stack _ =>
      start {| goal_item := None; goal_zone_item := Some (item item_stack);
               goal_zones := [] |} ∅
  | OtherTask _ => inl NotImplementedError
  end.

(** The classes and goals of the tasks [_build_reward_shaping_subtasks]
    constructs, in the order it constructs them. *)
Definition shaping_kinds (items : list Item) (zones : list Zone)
    (zone_items : list Item) : list TaskKind :=
  ((GetItemTask ∘ stack_of_item) <$> items)
  ++ (GoToZoneTask <$> zones)
  ++ ((λ i, PlaceItemTask (stack_of_item i) None) <$> zone_items).

(** ** Subtask synthesis and [Purpose.build] *)

Section Shaping.
Context {RT : Runtime} {TM : TaskMethods}.

Definition lift_sum {A} (r : Exn + A) : M A :=
  match r with
  | inl e => raise e
  | inr a => mret a
  end.

(** An empty argument adds nothing, with or without the guards
    [if items:], [if zones:], [if zone_items:]. *)
Definition _build_reward_shaping_subtasks (items : list Item) (zones : list Zone)
    (zone_items : list Item) (shaping_reward : Reward) : M (list Task) :=
  map_each (shaping_kinds items zones zone_items)
    (λ kind, new_task kind shaping_reward).

Definition _all_subtasks (env : CraftingEnv) (shaping_reward : Reward) : M (list Task) :=
  _build_reward_shaping_subtasks
    (items (world env)) (zones (world env)) (zones_items (world env)) shaping_reward.

(** Python iterates a set in an order of its own; here it is the order of
    [elements]. *)
Definition subtasks_of_relevant (r : Relevant) (shaping_reward : Reward) : M (list Task) :=
  _build_reward_shaping_subtasks
    (elements (relevant_items r)) (elements (relevant_zones r))
    (elements (relevant_zone_items r)) shaping_reward.

Definition _required_subtasks (task : Task) (env : CraftingEnv)
    (shaping_reward : Reward) : M (list Task) :=
  r ← lift_sum (required_relevant (task_kind task) env);
  subtasks_of_relevant r shaping_reward.

Definition _inputs_subtasks (task : Task) (env : CraftingEnv)
    (shaping_reward : Reward) : M (list Task) :=
  r ← lift_sum (inputs_relevant (task_kind task) env);
  subtasks_of_relevant r shaping_reward.

Definition _add_reward_shaping_subtasks (task : Task) (env : CraftingEnv)
    (reward_shaping : RewardShaping) : M (list Task) :=
  p ← get_self;
  match reward_shaping with
  | NONE => mret []
  | ALL_ACHIVEMENTS => _all_subtasks env (shaping_value p)
  | INPUTS_ACHIVEMENT => _inputs_subtasks task env (shaping_value p)
  | REQUIRED_ACHIVEMENTS => _required_subtasks task env (shaping_value p)
  end.

(** First loop of [build].  [for task in self.tasks] walks the list by
    index while the body appends to it, so the tasks appended on the way
    are visited too; [fuel] bounds the number of iterations. *)
Fixpoint build_loop (fuel : nat) (env : CraftingEnv) (i : nat) : M () :=
  match fuel with
  | O => out_of_fuel
  | S fuel' =>
      p ← get_self;
      match tasks p !! i with
      | None => mret ()
      | Some task =>
          rs ← getitem (reward_shaping p) task;
          subtasks ← _add_reward_shaping_subtasks task env rs;
          for_each subtasks (λ subtask,
            add_task subtask (Some (ByMember NONE)) NoGroup);;
          build_loop fuel' env (S i)
      end
  end.

Definition build (fuel : nat) (env : CraftingEnv) : M () :=
  p ← get_self;
  match tasks p return M () with
  | [] => mret ()
  | _ =>
      build_loop fuel env 0;;
      p ← get_self;
      for_each (tasks p) (λ task, call_build task (world env))
  end.

(** Calls made during an episode, and a run of them. *)
Inductive Call :=
  | CallReward (player_inventory position zones_inventory : ndarray)
  | CallIsTerminal (player_inventory position zones_inventory : ndarray).

Inductive Answer :=
  | Rewarded (r : Reward)
  | Terminal (b : bool).

Definition call (c : Call) : M Answer :=
  match c with
  | CallReward pi pos zi => r ← reward pi pos zi; mret (Rewarded r)
  | CallIsTerminal pi pos zi => b ← is_terminal pi pos zi; mret (Terminal b)
  end.

Definition episode (cs : list Call) : M (list Answer) := map_each cs call.

(** [is_terminal] called on one state after the other. *)
Definition is_terminal_run (states : list (ndarray * ndarray * ndarray))
  : M (list bool) :=
  map_each states (λ s, is_terminal s.1.1 s.1.2 s.2).
End Shaping.

(** ** Well-formed states *)

Section Invariants.
Context `{RT : Runtime}.

(** The flag of a task in the purpose of a state. *)
Definition ended (σ : Interp) (task : Task) : Prop :=
  task_has_ended (self σ) !! task = Some true.

(** Some terminal group of the state has all its tasks flagged. *)
Definition some_group_ended (σ : Interp) : Prop :=
  ∃ g group_tasks, (g, group_tasks) ∈ terminal_groups (self σ)
                   ∧ ∀ task, task ∈ group_tasks → ended σ task.

(** What [add_task] maintains: both dictionaries have exactly the added
    tasks as keys, and a terminal group is a non-empty list of added
    tasks. *)
Record wf_purpose (p : Purpose) : Prop := {
  wf_ended_dom : ∀ t, is_Some (task_has_ended p !! t) ↔ t ∈ tasks p;
  wf_shaping_dom : ∀ t, is_Some (reward_shaping p !! t) ↔ t ∈ tasks p;
  wf_groups : ∀ g ts, (g, ts) ∈ terminal_groups p →
                      ts ≠ [] ∧ ∀ t, t ∈ ts → t ∈ tasks p;
}.

(** Every task of the purpose is an object constructed earlier, so an
    object constructed from now on is none of them. *)
Definition allocated (σ : Interp) : Prop :=
  ∀ t, t ∈ tasks (self σ) → (task_uid t < next_uid σ)%positive.

(** A task in no terminal group. *)
Definition optional (p : Purpose) (task : Task) : Prop :=
  ∀ g ts, (g, ts) ∈ terminal_groups p → task ∉ ts.

(** The task objects that [n] constructor calls in a row return, the
    first with identity [start]. *)
Fixpoint fresh_tasks (start : positive) (kinds : list TaskKind) : list Task :=
  match kinds with
  | [] => []
  | kind :: rest =>
      {| task_uid := start; task_kind := kind |} :: fresh_tasks (Pos.succ start) rest
  end.

(** The purpose after [add_task(subtask, RewardShaping.NONE, None)] for
    each of [subtasks] in turn. *)
Definition add_subtasks (subtasks : list Task) (p : Purpose) : Purpose :=
  foldl (λ p subtask,
           append_task subtask
             (set_reward_shaping subtask NONE
                (set_task_has_ended subtask false p)))
        p subtasks.

Definition kinds_of_relevant (r : Relevant) : list TaskKind :=
  shaping_kinds (elements (relevant_items r)) (elements (relevant_zones r))
    (elements (relevant_zone_items r)).

(** The subtasks a strategy asks for, before any object is constructed. *)
Definition shaping_plan (kind : TaskKind) (env : CraftingEnv) (rs : RewardShaping)
  : Exn + list TaskKind :=
  match rs with
  | NONE => inr []
  | ALL_ACHIVEMENTS =>
      inr (shaping_kinds (items (world env)) (zones (world env))
             (zones_items (world env)))
  | INPUTS_ACHIVEMENT =>
      match inputs_relevant kind env with
      | inl e => inl e
      | inr r => inr (kinds_of_relevant r)
      end
  | REQUIRED_ACHIVEMENTS =>
      match required_relevant kind env with
      | inl e => inl e
      | inr r => inr (kinds_of_relevant r)
      end
  end.

(** The plans of a list of tasks one after the other, up to the first
    that raises. *)
Fixpoint plans (shaping : gmap Task RewardShaping) (env : CraftingEnv)
    (ts : list Task) : Exn + list TaskKind :=
  match ts with
  | [] => inr []
  | t :: ts' =>
      match shaping !! t with
      | None => inl KeyError
      | Some rs =>
          match shaping_plan (task_kind t) env rs with
          | inl e => inl e
          | inr ks =>
              match plans shaping env ts' with
              | inl e => inl e
              | inr ks' => inr (ks ++ ks')
              end
          end
      end
  end.
End Invariants.

(** The task methods of [TM] with the predicate of [task] replaced by one
    that never holds. *)
Definition never_terminal `{RT : Runtime} (TM : TaskMethods) (task : Task)
  : TaskMethods :=
  {| task_init := task_init;
     task_is_terminal := λ t pi pos zi s,
       if decide (t = task) then (false, s) else task_is_terminal t pi pos zi s;
     task_reward := task_reward;
     task_build := task_build |}.

(** ** The requirements graph of a list of transformations *)

(** Modelled from the spec: [crafting/requirement_graph.py], which builds
    the requirements graph, is not among the sources.  Per the spec, every
    added player item is an ITEM node, every added zone item a ZONE_ITEM node
    and a destination a ZONE node; each gets an edge from every consumed
    element of the same transformation: its removed items and the zones of
    its precondition. *)
Definition produced_nodes (t : Transformation) : list ReqNode :=
  (ItemNode <$> produced_items t)
  ++ (ZoneItemNode <$> produced_zones_items t)
  ++ match destination t with Some z => [ZoneNode z] | None => [] end.

Definition consumed_nodes (t : Transformation) : list ReqNode :=
  (ItemNode <$> consumed_items t)
  ++ (ZoneItemNode <$> consumed_zones_items t)
  ++ (ZoneNode <$> or_empty (transfo_zones t)).

Definition transformation_edges (t : Transformation) : list (ReqNode * ReqNode) :=
  p ← produced_nodes t; c ← consumed_nodes t; [(c, p)].

Definition build_requirements_graph (ts : list Transformation) : DiGraph :=
  {| nodes := list_to_set (ts ≫= λ t, produced_nodes t ++ consumed_nodes t);
     edges := list_to_set (ts ≫= transformation_edges) |}.

(** Modelled from the spec: [crafting/world.py] and [crafting/env.py] are
    not among the sources.  The world is the catalogue of the items, zones
    and zone items that occur in the transformations, and the environment
    holds the transformations with the graph built from them. *)
Definition world_from_transformations (ts : list Transformation) : World :=
  {| items := remove_dups (ts ≫= λ t, produced_items t ++ consumed_items t);
     zones := remove_dups (ts ≫= λ t,
                match destination t with Some z => [z] | None => [] end
                ++ or_empty (transfo_zones t));
     zones_items := remove_dups (ts ≫= λ t,
                      produced_zones_items t ++ consumed_zones_items t) |}.

Definition env_of_transformations (ts : list Transformation) : CraftingEnv :=
  {| world := world_from_transformations ts;
     transformations := ts;
     requirements_graph := build_requirements_graph ts |}.

(** The transformations of the shaping scenario: search for [item0], craft
    [item1] from [item0], craft [item2] from [item1] in zone [Z]. *)
Definition search (item0 : Item) : Transformation :=
  {| produced_items := [item0]; consumed_items := [];
     produced_zones_items := []; consumed_zones_items := [];
     destination := None; transfo_zones := None |}.

Definition craft (item0 item1 : Item) : Transformation :=
  {| produced_items := [item1]; consumed_items := [item0];
     produced_zones_items := []; consumed_zones_items := [];
     destination := None; transfo_zones := None |}.

Definition craft_in_zone (item1 item2 : Item) (Z : Zone) : Transformation :=
  {| produced_items := [item2]; consumed_items := [item1];
     produced_zones_items := []; consumed_zones_items := [];
     destination := None; transfo_zones := Some [Z] |}.

Definition scenario_env (item0 item1 item2 : Item) (Z : Zone) : CraftingEnv :=
  env_of_transformations
    [search item0; craft item0 item1; craft_in_zone item1 item2 Z].

(** ** INPUTS shaping in the words of the specification *)

(** A transformation that produces the goal of the task without consuming
    it.  A zone is reached, not consumed. *)
Definition spec_produces_goal (kind : TaskKind) (t : Transformation) : Prop :=
  match kind with
  | GetItemTask s => item s ∈ produced_items t ∧ item s ∉ consumed_items t
  | PlaceItemTask s _ =>
      item s ∈ produced_zones_items t ∧ item s ∉ consumed_zones_items t
  | GoToZoneTask z => destination t = Some z
  | OtherTask _ => False
  end.

(** One subtask per element of the remove sets and of the zones
    precondition of such a transformation. *)
Definition spec_inputs (kind : TaskKind) (env : CraftingEnv) (sub : TaskKind) : Prop :=
  ∃ t, t ∈ transformations env ∧ spec_produces_goal kind t ∧
    ((∃ i, i ∈ consumed_items t ∧ sub = GetItemTask (stack_of_item i))
     ∨ (∃ i, i ∈ consumed_zones_items t ∧ sub = PlaceItemTask (stack_of_item i) None)
     ∨ (∃ z, z ∈ or_empty (transfo_zones t) ∧ sub = GoToZoneTask z)).

(** What the code adds to that for a [PlaceItemTask] with candidate zones:
    the transformations that move to a candidate zone count too, and every
    candidate zone is a subtask. *)
Definition candidate_zones (kind : TaskKind) : list Zone :=
  match kind with
  | PlaceItemTask _ zs => or_empty zs
  | _ => []
  end.

Definition code_inputs (kind : TaskKind) (env : CraftingEnv) (sub : TaskKind) : Prop :=
  (∃ z, z ∈ candidate_zones kind ∧ sub = GoToZoneTask z)
  ∨ ∃ t, t ∈ transformations env ∧
      (spec_produces_goal kind t
       ∨ ∃ z, z ∈ candidate_zones kind ∧ destination t = Some z) ∧
      ((∃ i, i ∈ consumed_items t ∧ sub = GetItemTask (stack_of_item i))
       ∨ (∃ i, i ∈ consumed_zones_items t ∧ sub = PlaceItemTask (stack_of_item i) None)
       ∨ (∃ z, z ∈ or_empty (transfo_zones t) ∧ sub = GoToZoneTask z)).


(** ** The effect of [add_task] on the purpose *)

Section Added.
Context {RT : Runtime}.

(** The dictionary after one round of the loop over the group names: the
    group is created empty when it is missing, then the task is appended
    to it. *)
Definition group_add (task : Task) (d : list (string * list Task)) (g : string)
  : list (string * list Task) :=
  let d1 := if group_mem g d then d else group_set g [] d in
  match group_get g d1 with
  | Some group_tasks => group_set g (group_tasks ++ [task]) d1
  | None => d1
  end.

(** The group names [add_task] loops over. *)
Definition group_names (a : TerminalGroupsArg) : list string :=
  if truthy a then
    match a with
    | GroupName s => [s]
    | GroupNames l => l
    | NoGroup => []
    end
  else [].

(** The purpose after [add_task(task, rs, a)]. *)
Definition added (task : Task) (rs : RewardShaping) (a : TerminalGroupsArg)
    (p : Purpose) : Purpose :=
  append_task task
    (set_reward_shaping task rs
       (set_terminal_groups
          (foldl (group_add task) (terminal_groups p) (group_names a))
          (set_task_has_ended task false p))).

(** The purpose [Purpose.__init__] starts from, before it adds tasks. *)
Definition empty_purpose (timestep_reward : Reward)
    (default_reward_shaping : ShapingArg) (shaping_value : Reward) : Purpose :=
  {| tasks := []; timestep_reward := timestep_reward;
     shaping_value := shaping_value;
     default_reward_shaping := default_reward_shaping;
     task_has_ended := ∅; reward_shaping := ∅; terminal_groups := [] |}.

Definition with_self (p : Purpose) (σ : Interp) : Interp :=
  {| self := p; objects := objects σ; next_uid := next_uid σ |}.
End Added.

(** An edge of the graph, as a relation on nodes. *)
Definition edge (G : DiGraph) (a b : ReqNode) : Prop := (a, b) ∈ edges G.

(** Everything a backward search from [s] can reach: [s] and the sources of
    the edges. *)
Definition universe (G : DiGraph) (s : ReqNode) : gset ReqNode :=
  {[s]} ∪ set_map fst (edges G).

(** The purpose with [A] in the terminal groups "g1" and "default", [B] in
    "g1" and [C] in "default", as three calls of [add_task] build it. *)
Definition three_tasks {RT : Runtime} (A B C : Task) (tr : Reward)
    (rs : RewardShaping) (sv : Reward) : Purpose :=
  added C rs (GroupName "default")
    (added B rs (GroupName "g1")
       (added A rs (GroupNames ["g1"; "default"])
          (empty_purpose tr (ByMember rs) sv))).

(** Two states that agree on everything but the flag and the attributes of
    [task]. *)
Record sim {RT : Runtime} (task : Task) (σ σ' : Interp) : Prop := {
  sim_tasks : tasks (self σ') = tasks (self σ);
  sim_groups : terminal_groups (self σ') = terminal_groups (self σ);
  sim_shaping : reward_shaping (self σ') = reward_shaping (self σ);
  sim_dom : ∀ t, is_Some (task_has_ended (self σ') !! t)
                 ↔ is_Some (task_has_ended (self σ) !! t);
  sim_flags : ∀ t, t ≠ task →
                   task_has_ended (self σ') !! t = task_has_ended (self σ) !! t;
  sim_objects : ∀ t, t ≠ task → objects σ' t = objects σ t;
}.

(** ** A concrete runtime: the task class of the test suite *)

Module Demo.
(** [DummyPosEqualTask(reward, goal_position)] of [tests/test_purpose.py]:
    the task holds when the position equals its goal position and its
    reward is then its reward value.  Arrays are integers; a task object
    keeps the pair of its reward value and goal position.  Subtasks made by
    reward shaping get the goal position [-1]. *)
#[local] Instance runtime : Runtime :=
  {| Reward := Z; float_add := Z.add; ndarray := Z; TaskState := Z * Z |}.

#[local] Instance methods : @TaskMethods runtime :=
  @Build_TaskMethods runtime
    (* task_init *) (λ _ (reward : Z), ((reward, -1)%Z : Z * Z))
    (* task_is_terminal *)
    (λ _ _ (position : Z) _ (s : Z * Z), (bool_decide (position = s.2), s))
    (* task_reward *)
    (λ _ _ (position : Z) _ (s : Z * Z),
       (if bool_decide (position = s.2) then s.1 else 0%Z, s))
    (* task_build *) (λ _ _ (s : Z * Z), s).

Definition DummyPosEqualTask (reward goal_position : Z) : @M runtime Task := λ σ,
  let task := {| task_uid := next_uid σ; task_kind := OtherTask "DummyPosEqualTask" |} in
  (Ok task, {| self := self σ;
               objects := <[task := ((reward, goal_position) : Z * Z)]> (objects σ);
               next_uid := Pos.succ (next_uid σ) |}).

(** The interpreter before anything is constructed. *)
Definition start : @Interp runtime :=
  {| self := @empty_purpose runtime 0%Z (ByMember NONE) 1%Z;
     objects := λ _, ((0, -1)%Z : Z * Z);
     next_uid := 1%positive |}.

(** The flag of a task in the purpose. *)
Definition flag (task : Task) : @M runtime (option bool) := λ σ,
  (Ok (task_has_ended (self σ) !! task), σ).

(** A task ends, is added a second time, and is asked again in a state
    where it does not hold: the flags after the first and after the last
    call of [is_terminal]. *)
Definition readded : @M runtime (option bool * option bool) :=
  task ← DummyPosEqualTask 5 1;
  Purpose_init (OneTask task) 0%Z (ByMember NONE) 1%Z;;
  is_terminal 0%Z 1%Z 0%Z;;
  before ← flag task;
  add_task task None (GroupName "default");;
  is_terminal 0%Z 0%Z 0%Z;;
  after ← flag task;
  mret (before, after).

(** A task is added to the group "default" by the constructor and added
    again with [terminal_groups=None]: the groups afterwards, and the answers
    of [is_terminal] at the positions 0, 1 and 0, under the task methods
    given. *)
Definition readded_optional (TM : @TaskMethods runtime)
  : @M runtime (list (string * list Task) * list bool) :=
  task ← DummyPosEqualTask 5 1;
  Purpose_init (OneTask task) 0%Z (ByMember NONE) 1%Z;;
  add_task task None NoGroup;;
  p ← @get_self runtime;
  answers ← @is_terminal_run runtime TM [(0, 0, 0); (0, 1, 0); (0, 0, 0)]%Z;
  mret (terminal_groups p, answers).

(** The world of the shaping scenario and a goal task for its last item. *)
Definition item0 : Item := {| item_name := "0" |}.
Definition item1 : Item := {| item_name := "1" |}.
Definition item2 : Item := {| item_name := "2" |}.
Definition zone1 : Zone := {| zone_name := "1" |}.
Definition zone3 : Zone := {| zone_name := "3" |}.
Definition env : CraftingEnv := scenario_env item0 item1 item2 zone1.

(** A purpose with one task shaped by "required", built twice: the task
    lists after the first and after the second [build]. *)
Definition build_twice : M (list Task * list Task) :=
  task ← new_task (GetItemTask (stack_of_item item2)) 10%Z;
  Purpose_init NoTasks 0%Z (ByMember NONE) 1%Z;;
  add_task task (Some (ByValue "required")) (GroupName "default");;
  build 10 env;;
  p1 ← get_self;
  build 10 env;;
  p2 ← get_self;
  mret (tasks p1, tasks p2).

(** The subtasks of a [PlaceItemTask] with a candidate zone under
    "inputs" shaping, in a world without transformations. *)
Definition place_inputs : M (list TaskKind) :=
  task ← new_task (PlaceItemTask (stack_of_item item2) (Some [zone3])) 10%Z;
  subtasks ← _inputs_subtasks task (env_of_transformations []) 1%Z;
  mret (task_kind <$> subtasks).

(** The purpose of [TestPurposeMultiTasks]: four tasks that hold at the
    positions 0, 1, 2 and 3, the first in "default", the second in "other"
    and "default", the third in "other" and the last in no group. *)
Definition go_to (n : positive) : Task :=
  {| task_uid := n; task_kind := OtherTask "DummyPosEqualTask" |}.

Definition multi : Interp :=
  {| self :=
       added (go_to 4) NONE (GroupName EmptyString)
         (added (go_to 3) NONE (GroupName "other")
            (added (go_to 2) NONE (GroupNames ["other"; "default"])
               (added (go_to 1) NONE (GroupName "default")
                  (empty_purpose 0%Z (ByMember NONE) 1%Z))));
     objects := λ t,
       match task_uid t return Z * Z with
       | 1%positive => (10, 0)%Z
       | 2%positive => (5, 1)%Z
       | 3%positive => (3, 2)%Z
       | 4%positive => (1, 3)%Z
       | _ => (0, -1)%Z
       end;
     next_uid := 5%positive |}.

(** The same purpose once the position has been 0, and once it has then
    been 1. *)
Definition multi_at_0 : Interp := (is_terminal 0%Z 0%Z 0%Z multi).2.
Definition multi_done : Interp := (is_terminal 0%Z 1%Z 0%Z multi_at_0).2.

(** A purpose whose only task is a [GetItemTask] for [item2] with
    REQUIRED shaping. *)
Definition goal : Task :=
  {| task_uid := 1; task_kind := GetItemTask (stack_of_item item2) |}.

Definition shaped : Interp :=
  {| self := added goal REQUIRED_ACHIVEMENTS (GroupName "default")
               (empty_purpose 0%Z (ByMember NONE) 1%Z);
     objects := λ _, ((10, -1)%Z : Z * Z);
     next_uid := 2%positive |}.

(** A purpose whose only task is of the class of the tests, with
    REQUIRED shaping. *)
Definition unsupported : Interp :=
  {| self := added (go_to 1) REQUIRED_ACHIVEMENTS (GroupName "default")
               (empty_purpose 0%Z (ByMember NONE) 1%Z);
     objects := λ _, ((10, 0)%Z : Z * Z);
     next_uid := 2%positive |}.
End Demo.

(** ** Further definitions for the properties of the whole module *)

(** The group names of the dictionary are distinct, as the keys of a Python
    dictionary are. *)
Definition keys_distinct {RT : Runtime} (p : Purpose) : Prop :=
  NoDup (terminal_groups p).*1.

(** The state with the dictionary [task_has_ended] replaced. *)
Definition with_flags {RT : Runtime} (m : gmap Task bool) (σ : Interp) : Interp :=
  {| self := {| tasks := tasks (self σ);
                timestep_reward := timestep_reward (self σ);
                shaping_value := shaping_value (self σ);
                default_reward_shaping := default_reward_shaping (self σ);
                task_has_ended := m;
                reward_shaping := reward_shaping (self σ);
                terminal_groups := terminal_groups (self σ) |};
     objects := objects σ;
     next_uid := next_uid σ |}.

(** [goal_requirement_nodes] of [_required_subtasks], for the three
    supported classes. *)
Definition goal_requirement_nodes (kind : TaskKind) : list ReqNode :=
  match kind with
  | GetItemTask item_stack => [ItemNode (item item_stack)]
  | PlaceItemTask item_stack zones =>
      ZoneItemNode (item item_stack) :: (ZoneNode <$> or_empty zones)
  | GoToZoneTask zone => [ZoneNode zone]
  | OtherTask _ => []
  end.

(** The subtask [_build_reward_shaping_subtasks] makes for the element of a
    node. *)
Definition subtask_of_node (n : ReqNode) : TaskKind :=
  match n with
  | ItemNode i => GetItemTask (stack_of_item i)
  | ZoneNode z => GoToZoneTask z
  | ZoneItemNode i => PlaceItemTask (stack_of_item i) None
  end.

(** The subtasks ALL shaping makes, whatever the task. *)
Definition world_kinds (w : World) : list TaskKind :=
  shaping_kinds (items w) (zones w) (zones_items w).

(** The purpose after [Purpose.__init__] has added the tasks of a list. *)
Definition constructed {RT : Runtime} (ts : list Task) (tr : Reward)
    (d : ShapingArg) (rs : RewardShaping) (sv : Reward) : Purpose :=
  foldl (λ p task, added task rs (GroupName "default") p) (empty_purpose tr d sv) ts.

(** *** [Purpose.__str__] *)

Section Str.
Context {RT : Runtime}.

(** [str(task)]: the class [Task] is not among the sources, so the string
    of a task is a parameter. *)
Variable task_str : Task → string.

(** [sep.join(l)]. *)
Definition join (sep : string) (l : list string) : string :=
  match l with
  | [] => EmptyString
  | x :: xs => foldl (λ acc y, (acc ++ sep ++ y)%string) x xs
  end.

(** [Purpose._tasks_str]; [None] is the [KeyError] of [self.reward_shaping[task]]. *)
Definition _tasks_str (p : Purpose) (ts : list Task) : option string :=
  tasks_str ← mapM (λ task,
      shaping ← reward_shaping p !! task;
      let shaping_str :=
        if decide (shaping = NONE) then EmptyString
        else ("#" ++ RewardShaping_value shaping)%string in
      Some (task_str task ++ shaping_str)%string) ts;
  Some (join "," tasks_str).

(** [Purpose.__str__]. *)
Definition Purpose_str (p : Purpose) : option string :=
  terminal_groups_str ← mapM (λ '(terminal_group, ts),
      tasks_str_joined ← _tasks_str p ts;
      Some (terminal_group ++ ":[" ++ tasks_str_joined ++ "]")%string)
    (terminal_groups p);
  optional_tasks_str ← _tasks_str p (optional_tasks p);
  let terminal_groups_str :=
    if decide (optional_tasks_str = EmptyString) then terminal_groups_str
    else terminal_groups_str ++ [("optional:[" ++ optional_tasks_str ++ "]")%string] in
  Some ("Purpose(" ++ join ", " terminal_groups_str ++ ")")%string.
End Str.

(** The element of a node is in the set of its node type. *)
Definition in_relevant (r : Relevant) (n : ReqNode) : Prop :=
  match n with
  | ItemNode i => i ∈ relevant_items r
  | ZoneNode z => z ∈ relevant_zones r
  | ZoneItemNode i => i ∈ relevant_zone_items r
  end.

(** An environment with other transformations. *)
Definition with_transformations (ts : list Transformation) (env : CraftingEnv)
  : CraftingEnv :=
  {| world := world env; transformations := ts;
     requirements_graph := requirements_graph env |}.

(** *** Further purposes of the test suite *)

Module DemoExtra.
(** A purpose whose only task is of the class of the tests, with ALL
    shaping. *)
Definition all_shaped : @Interp Demo.runtime :=
  {| self := @added Demo.runtime (Demo.go_to 1) ALL_ACHIVEMENTS (GroupName "default")
               (@empty_purpose Demo.runtime 0%Z (ByMember NONE) 1%Z);
     objects := λ _, ((10, 0)%Z : Z * Z);
     next_uid := 2%positive |}.

(** [str] of the tasks of [TestPurposeMultiTasks], named after their goal
    position. *)
Definition task_str (task : Task) : string :=
  match task_uid task with
  | 1%positive => "Task(0)"
  | 2%positive => "Task(1)"
  | 3%positive => "Task(2)"
  | _ => "Task(3)"
  end.

(** A transformation that turns the goal item of the scenario back into
    its first item. *)
Definition uncraft : Transformation := craft Demo.item2 Demo.item0.
End DemoExtra.
(** * Properties *)

Ltac unfold_M :=
  unfold mbind, M_bind, mret, M_ret, get_self, modify_self, raise, getitem,
    out_of_fuel, lift_sum.

Section Properties.
Context {RT : Runtime} {TM : TaskMethods}.

(** ** Steps that only raise flags *)

(** [σ'] differs from [σ] at most in the attributes of task objects and
    in flags that went from false to true. *)
Record grows (σ σ' : Interp) : Prop := {
  grows_tasks : tasks (self σ') = tasks (self σ);
  grows_groups : terminal_groups (self σ') = terminal_groups (self σ);
  grows_shaping : reward_shaping (self σ') = reward_shaping (self σ);
  grows_timestep : timestep_reward (self σ') = timestep_reward (self σ);
  grows_value : shaping_value (self σ') = shaping_value (self σ);
  grows_default : default_reward_shaping (self σ') = default_reward_shaping (self σ);
  grows_uid : next_uid σ' = next_uid σ;
  grows_dom : ∀ t, is_Some (task_has_ended (self σ') !! t)
                   ↔ is_Some (task_has_ended (self σ) !! t);
  grows_ended : ∀ t, ended σ t → ended σ' t;
}.

Lemma grows_refl σ : grows σ σ.
Proof. by split. Qed.

Lemma grows_trans σ1 σ2 σ3 : grows σ1 σ2 → grows σ2 σ3 → grows σ1 σ3.
Proof.
  intros [] []. split; try congruence; intros t.
  - etrans; eauto.
  - eauto.
Qed.

Lemma grows_wf σ σ' : grows σ σ' → wf_purpose (self σ) → wf_purpose (self σ').
Proof.
  intros [] [Hd Hs Hg]. split.
  - intros t. rewrite grows_dom0, grows_tasks0. apply Hd.
  - intros t. rewrite grows_shaping0, grows_tasks0. apply Hs.
  - intros g ts. rewrite grows_groups0, grows_tasks0. apply Hg.
Qed.

Lemma grows_objects σ f :
  grows σ {| self := self σ; objects := f; next_uid := next_uid σ |}.
Proof. by split. Qed.

Lemma grows_flag σ t :
  task_has_ended (self σ) !! t = Some false →
  grows σ {| self := set_task_has_ended t true (self σ);
             objects := objects σ; next_uid := next_uid σ |}.
Proof.
  intros Ht. split; try done; unfold ended; simpl; intros t'.
  - destruct (decide (t = t')) as [<-|Hne].
    + rewrite lookup_insert_eq, Ht. split; eauto.
    + by rewrite lookup_insert_ne.
  - destruct (decide (t = t')) as [<-|Hne].
    + by rewrite lookup_insert_eq.
    + by rewrite lookup_insert_ne.
Qed.

Lemma call_is_terminal_grows t pi pos zi σ :
  ∃ b σ', call_is_terminal t pi pos zi σ = (Ok b, σ') ∧ self σ' = self σ
          ∧ next_uid σ' = next_uid σ.
Proof.
  unfold call_is_terminal. destruct (task_is_terminal _ _ _ _ _) as [b s].
  by eexists _, _.
Qed.

Lemma call_reward_grows t pi pos zi σ :
  ∃ r σ', call_reward t pi pos zi σ = (Ok r, σ') ∧ self σ' = self σ
          ∧ next_uid σ' = next_uid σ.
Proof.
  unfold call_reward. destruct (task_reward _ _ _ _ _) as [r s].
  by eexists _, _.
Qed.

Lemma grows_same_self σ σ' :
  self σ' = self σ → next_uid σ' = next_uid σ → grows σ σ'.
Proof. intros Hs Hn. split; unfold ended; by rewrite ?Hs, ?Hn. Qed.

(** One round of the first loop of [is_terminal] only raises a flag,
    whatever the task answers and even when it stops on an exception. *)
Lemma update_one_grows t pi pos zi σ : grows σ (update_one t pi pos zi σ).2.
Proof.
  unfold update_one. unfold_M; simpl.
  destruct (task_has_ended (self σ) !! t) as [[]|] eqn:Ht; simpl;
    try apply grows_refl.
  destruct (call_is_terminal_grows t pi pos zi σ) as (b & σ1 & -> & Hs & Hn).
  assert (grows σ σ1) as H1 by by apply grows_same_self.
  destruct b; simpl; [|done].
  eapply grows_trans; [exact H1|].
  destruct σ1 as [p1 o1 n1]; simpl in *; subst.
  by apply (grows_flag {| self := self σ; objects := o1; next_uid := next_uid σ |}).
Qed.

Lemma update_one_ok t pi pos zi σ :
  is_Some (task_has_ended (self σ) !! t) →
  (update_one t pi pos zi σ).1 = Ok ().
Proof.
  intros [b Ht]. unfold update_one. unfold_M; simpl. rewrite Ht.
  destruct b; simpl; [done|].
  destruct (call_is_terminal_grows t pi pos zi σ) as (b & σ1 & -> & Hs & Hn).
  by destruct b.
Qed.

Lemma update_ended_grows ts pi pos zi σ :
  grows σ (update_ended ts pi pos zi σ).2.
Proof.
  revert σ. induction ts as [|t ts IH]; intros σ; simpl; [apply grows_refl|].
  unfold_M. pose proof (update_one_grows t pi pos zi σ) as H1.
  destruct (update_one t pi pos zi σ) as [[[]| |] σ1]; simpl in *; try done.
  eapply grows_trans; [exact H1|apply IH].
Qed.

(** With a flag for every task, the loop does not raise. *)
Lemma update_ended_ok ts pi pos zi σ :
  (∀ t, t ∈ ts → is_Some (task_has_ended (self σ) !! t)) →
  (update_ended ts pi pos zi σ).1 = Ok ().
Proof.
  revert σ. induction ts as [|t ts IH]; intros σ Hts; simpl; [done|].
  unfold_M. pose proof (update_one_grows t pi pos zi σ) as H1.
  pose proof (update_one_ok t pi pos zi σ) as H2.
  destruct (update_one t pi pos zi σ) as [o σ1]; simpl in *.
  rewrite H2 by (apply Hts; left). apply IH.
  intros t' Ht'. apply (grows_dom _ _ H1), Hts. by right.
Qed.

(** The second loop reads the flags and changes nothing. *)
Lemma all_ended_spec ts σ :
  (∀ t, t ∈ ts → is_Some (task_has_ended (self σ) !! t)) →
  ∃ b, all_ended ts σ = (Ok b, σ) ∧ (b = true ↔ ∀ t, t ∈ ts → ended σ t).
Proof.
  induction ts as [|t ts IH]; intros Hts; simpl.
  - exists true. split; [done|]. split; [|done]. intros _ t Ht. inversion Ht.
  - unfold_M; simpl. destruct (Hts t) as [b Ht]; [left|]. rewrite Ht.
    destruct b; simpl.
    + destruct IH as (b & -> & Hb); [intros t' Ht'; apply Hts; by right|].
      exists b. split; [done|]. rewrite Hb. split.
      * intros H t' [-> |Ht']%elem_of_cons; [done|by apply H].
      * intros H t' Ht'. apply H. by right.
    + exists false. split; [done|]. split; [done|]. intros H.
      specialize (H t (list_elem_of_here _ _)). unfold ended in H. congruence.
Qed.

Lemma any_group_ended_spec groups σ :
  (∀ g ts t, (g, ts) ∈ groups → t ∈ ts → is_Some (task_has_ended (self σ) !! t)) →
  ∃ b, any_group_ended groups σ = (Ok b, σ)
       ∧ (b = true ↔ ∃ g ts, (g, ts) ∈ groups ∧ ∀ t, t ∈ ts → ended σ t).
Proof.
  induction groups as [|[g ts] groups IH]; intros Hg; simpl.
  - exists false. split; [done|]. split; [done|].
    intros (g & ts & H & _). inversion H.
  - unfold_M; simpl.
    destruct (all_ended_spec ts σ) as (b & -> & Hb).
    { intros t Ht. apply (Hg g ts t); [left|done]. }
    destruct b; simpl.
    + exists true. split; [done|]. split; [|done]. intros _.
      exists g, ts. split; [left|]. by apply Hb.
    + destruct IH as (b & -> & Hb').
      { intros g' ts' t H. apply (Hg g' ts' t). by right. }
      exists b. split; [done|]. rewrite Hb'. split.
      * intros (g' & ts' & H & Hall). exists g', ts'. split; [by right|done].
      * intros (g' & ts' & [Heq|H]%elem_of_cons & Hall).
        -- injection Heq as -> ->. apply Hb in Hall. done.
        -- by exists g', ts'.
Qed.

(** [is_terminal] on a well-formed purpose: it returns, it only raises
    flags, and its answer is the disjunction over the terminal groups of
    the conjunction of the flags of the group. *)
Lemma is_terminal_spec pi pos zi σ :
  wf_purpose (self σ) →
  ∃ b σ', is_terminal pi pos zi σ = (Ok b, σ') ∧ grows σ σ'
          ∧ (b = true ↔ some_group_ended σ').
Proof.
  intros Hwf. unfold is_terminal. unfold_M; simpl.
  destruct (tasks (self σ)) as [|t0 ts0] eqn:Htasks.
  - exists false, σ. split; [done|]. split; [apply grows_refl|].
    split; [done|]. intros (g & ts & Hin & Hall).
    destruct (wf_groups _ Hwf g ts Hin) as [Hne Hsub].
    destruct ts as [|t ts]; [done|].
    specialize (Hsub t (list_elem_of_here _ _)). rewrite Htasks in Hsub.
    inversion Hsub.
  - rewrite <- Htasks.
    pose proof (update_ended_grows (tasks (self σ)) pi pos zi σ) as Hgrow.
    pose proof (update_ended_ok (tasks (self σ)) pi pos zi σ) as Hok.
    destruct (update_ended _ _ _ _ σ) as [o σ1]; simpl in *.
    rewrite Hok by (intros t Ht; by apply (wf_ended_dom _ Hwf)).
    pose proof (grows_wf _ _ Hgrow Hwf) as Hwf1.
    destruct (any_group_ended_spec (terminal_groups (self σ1)) σ1) as (b & -> & Hb).
    { intros g ts t Hin Ht. apply (wf_ended_dom _ Hwf1).
      by apply (wf_groups _ Hwf1 g ts Hin). }
    by exists b, σ1.
Qed.

Lemma sum_rewards_ok ts pi pos zi acc σ :
  ∃ r σ', sum_rewards ts pi pos zi acc σ = (Ok r, σ') ∧ self σ' = self σ
          ∧ next_uid σ' = next_uid σ.
Proof.
  revert acc σ. induction ts as [|t ts IH]; intros acc σ; simpl.
  - by eexists _, _.
  - unfold_M.
    destruct (call_reward_grows t pi pos zi σ) as (r & σ1 & -> & Hs & Hn).
    destruct (IH (float_add acc r) σ1) as (r' & σ2 & -> & Hs' & Hn').
    eexists _, _. split; [done|]. split; congruence.
Qed.

(** [reward] returns and leaves the purpose as it is. *)
Lemma reward_ok pi pos zi σ :
  ∃ r σ', reward pi pos zi σ = (Ok r, σ') ∧ self σ' = self σ
          ∧ next_uid σ' = next_uid σ.
Proof.
  unfold reward. unfold_M; simpl. destruct (tasks (self σ)) eqn:Htasks.
  - by eexists _, _.
  - apply sum_rewards_ok.
Qed.

Lemma call_spec c σ :
  wf_purpose (self σ) →
  ∃ a σ', call c σ = (Ok a, σ') ∧ grows σ σ'.
Proof.
  intros Hwf. destruct c as [pi pos zi|pi pos zi]; simpl; unfold_M.
  - destruct (reward_ok pi pos zi σ) as (r & σ' & -> & Hs & Hn).
    eexists _, _. split; [done|]. by apply grows_same_self.
  - destruct (is_terminal_spec pi pos zi σ Hwf) as (b & σ' & -> & Hg & _).
    by eexists _, _.
Qed.

(** Any run of [reward] and [is_terminal] calls on a well-formed purpose
    returns and only raises flags. *)
Lemma episode_spec cs σ :
  wf_purpose (self σ) →
  ∃ answers σ', episode cs σ = (Ok answers, σ') ∧ grows σ σ'.
Proof.
  revert σ. induction cs as [|c cs IH]; intros σ Hwf; simpl.
  - exists [], σ. split; [done|apply grows_refl].
  - unfold episode in *. simpl. unfold_M.
    destruct (call_spec c σ Hwf) as (a & σ1 & -> & Hg1).
    destruct (IH σ1) as (answers & σ2 & -> & Hg2); [by eapply grows_wf|].
    eexists _, _. split; [done|]. by eapply grows_trans.
Qed.
End Properties.

(** ** [add_task] *)

Section AddTask.
Context {RT : Runtime} {TM : TaskMethods}.

Lemma group_set_elem g ts d g' ts' :
  (g', ts') ∈ group_set g ts d → (g' = g ∧ ts' = ts) ∨ (g', ts') ∈ d.
Proof.
  induction d as [|[k old] d IH]; simpl.
  - intros [= -> ->]%list_elem_of_singleton. by left.
  - destruct (decide (k = g)) as [-> |Hne].
    + intros [Heq|Hin]%elem_of_cons; [injection Heq as -> ->; by left|].
      right. by right.
    + intros [Heq|Hin]%elem_of_cons; [right; rewrite Heq; left|].
      destruct (IH Hin) as [?|?]; [by left|right; by right].
Qed.

Lemma group_get_elem g d ts : group_get g d = Some ts → (g, ts) ∈ d.
Proof.
  induction d as [|[k old] d IH]; simpl; [done|].
  destruct (decide (k = g)) as [-> |Hne].
  - intros [= ->]. left.
  - intros Hget. right. by apply IH.
Qed.

Lemma group_get_set g ts d : group_get g (group_set g ts d) = Some ts.
Proof.
  induction d as [|[k old] d IH]; simpl.
  - by rewrite decide_True.
  - destruct (decide (k = g)) as [-> |Hne]; simpl.
    + by rewrite decide_True.
    + by rewrite decide_False.
Qed.

Lemma group_mem_get g d : group_mem g d = true → is_Some (group_get g d).
Proof.
  unfold group_mem. rewrite bool_decide_eq_true.
  induction d as [|[k old] d IH]; simpl.
  - intros Hin. inversion Hin.
  - destruct (decide (k = g)) as [-> |Hne]; [eauto|].
    intros [?|?]%elem_of_cons; [congruence|eauto].
Qed.

Lemma group_set_twice g ts ts0 d :
  group_mem g d = false → group_set g ts (group_set g ts0 d) = group_set g ts d.
Proof.
  unfold group_mem. rewrite bool_decide_eq_false.
  induction d as [|[k old] d IH]; simpl; intros Hmem.
  - by rewrite decide_True.
  - rewrite not_elem_of_cons in Hmem. destruct Hmem as [Hne Hmem].
    rewrite !decide_False by done. simpl. rewrite decide_False by done.
    by rewrite IH.
Qed.

(** A group of the dictionary after [group_add] is an old group, or the
    group [g] with the task appended to what it held (nothing, when new). *)
Lemma group_add_elem task d g g' ts' :
  (g', ts') ∈ group_add task d g →
  (g', ts') ∈ d ∨ (g' = g ∧ ∃ old, ts' = old ++ [task] ∧ (old = [] ∨ (g, old) ∈ d)).
Proof.
  unfold group_add. destruct (group_mem g d) eqn:Hmem.
  - destruct (group_mem_get g d Hmem) as [old Hold]. rewrite Hold.
    intros [[-> ->]|Hin]%group_set_elem; [|by left].
    right. split; [done|]. exists old. split; [done|]. right.
    by apply group_get_elem.
  - rewrite group_get_set, group_set_twice by done.
    intros [[-> ->]|Hin]%group_set_elem; [|by left].
    right. split; [done|]. exists []. split; [done|by left].
Qed.

Lemma add_to_group_spec task g σ :
  add_to_group task g σ
  = (Ok (), with_self (set_terminal_groups
                         (group_add task (terminal_groups (self σ)) g) (self σ)) σ).
Proof.
  unfold add_to_group, group_add. unfold_M; simpl.
  destruct (group_mem g (terminal_groups (self σ))) eqn:Hmem; simpl.
  - destruct (group_mem_get _ _ Hmem) as [old ->]. done.
  - rewrite group_get_set. done.
Qed.

Lemma for_each_add_to_group task names σ :
  for_each names (add_to_group task) σ
  = (Ok (), with_self (set_terminal_groups
                         (foldl (group_add task) (terminal_groups (self σ)) names)
                         (self σ)) σ).
Proof.
  revert σ. induction names as [|g names IH]; intros σ; simpl.
  - by destruct σ as [[] ? ?].
  - unfold_M. rewrite add_to_group_spec. rewrite IH. done.
Qed.

(** [add_task] either raises [ValueError] on a string that names no
    reward shaping, before it changes anything, or returns with the purpose
    [added]. *)
Lemma add_task_spec task rsarg a σ :
  add_task task rsarg a σ =
  match RewardShaping_call
          (match rsarg with
           | None => default_reward_shaping (self σ)
           | Some x => x
           end) with
  | Some rs => (Ok (), with_self (added task rs a (self σ)) σ)
  | None => (Raise ValueError, σ)
  end.
Proof.
  unfold add_task. unfold_M; simpl.
  destruct (RewardShaping_call _) as [rs|]; simpl; [|done].
  unfold added, group_names. destruct (truthy a); simpl.
  - rewrite for_each_add_to_group. done.
  - done.
Qed.

Lemma foldl_group_add_elem task names d g ts :
  (g, ts) ∈ foldl (group_add task) d names →
  (∀ g' ts', (g', ts') ∈ d → ts' ≠ []) →
  ts ≠ [] ∧ ∀ t, t ∈ ts → t = task ∨ ∃ g' ts', (g', ts') ∈ d ∧ t ∈ ts'.
Proof.
  revert d. induction names as [|n names IH]; intros d; simpl.
  - intros Hin Hne. split; [by eapply Hne|]. intros t Ht. right. eauto.
  - intros Hin Hne. apply IH in Hin as [Hts Hsub].
    + split; [done|]. intros t Ht. destruct (Hsub t Ht) as [-> |(g' & ts' & Hin' & Ht')].
      * by left.
      * apply group_add_elem in Hin' as [Hin'|(-> & old & -> & Hold)]; [right; eauto|].
        apply elem_of_app in Ht' as [Ht'| ->%list_elem_of_singleton]; [|by left].
        destruct Hold as [-> |Hold]; [inversion Ht'|right; eauto].
    + intros g' ts' [Hin'|(-> & old & -> & _)]%group_add_elem; [by eapply Hne|].
      by destruct old.
Qed.

Lemma added_wf task rs a p : wf_purpose p → wf_purpose (added task rs a p).
Proof.
  intros [Hd Hs Hg]. split; simpl.
  - intros t. rewrite elem_of_app, list_elem_of_singleton, <- Hd.
    destruct (decide (task = t)) as [-> |Hne].
    + rewrite lookup_insert_eq. split; eauto.
    + rewrite lookup_insert_ne by done. split; [by left|]. by intros [?|?].
  - intros t. rewrite elem_of_app, list_elem_of_singleton, <- Hs.
    destruct (decide (task = t)) as [-> |Hne].
    + rewrite lookup_insert_eq. split; eauto.
    + rewrite lookup_insert_ne by done. split; [by left|]. by intros [?|?].
  - intros g ts Hin. apply foldl_group_add_elem in Hin as [Hne Hsub].
    + split; [done|]. intros t Ht. rewrite elem_of_app, list_elem_of_singleton.
      destruct (Hsub t Ht) as [-> |(g' & ts' & Hin' & Ht')]; [by right|left].
      by apply (Hg g' ts' Hin').
    + intros g' ts' Hin'. by apply (Hg g' ts' Hin').
Qed.

Lemma empty_purpose_wf tr d sv : wf_purpose (empty_purpose tr d sv).
Proof.
  split; simpl.
  - intros t. rewrite lookup_empty. split; [by intros [? ?]|intros Hin; inversion Hin].
  - intros t. rewrite lookup_empty. split; [by intros [? ?]|intros Hin; inversion Hin].
  - intros g ts Hin. inversion Hin.
Qed.
End AddTask.

(** ** Calls during an episode, whatever their outcome *)

Section Episode.
Context {RT : Runtime} {TM : TaskMethods}.

Lemma all_ended_state ts σ : (all_ended ts σ).2 = σ.
Proof.
  induction ts as [|t ts IH]; simpl; [done|]. unfold_M; simpl.
  destruct (task_has_ended (self σ) !! t) as [[]|]; simpl; done.
Qed.

Lemma any_group_ended_state groups σ : (any_group_ended groups σ).2 = σ.
Proof.
  induction groups as [|[g ts] groups IH]; simpl; [done|]. unfold_M.
  pose proof (all_ended_state ts σ) as Hs.
  destruct (all_ended ts σ) as [[[]| |] σ']; simpl in *; subst; done.
Qed.

Lemma is_terminal_grows pi pos zi σ : grows σ (is_terminal pi pos zi σ).2.
Proof.
  unfold is_terminal. unfold_M; simpl.
  destruct (tasks (self σ)) as [|t0 ts0] eqn:Htasks; [apply grows_refl|].
  rewrite <- Htasks.
  pose proof (update_ended_grows (tasks (self σ)) pi pos zi σ) as Hg.
  destruct (update_ended _ _ _ _ σ) as [[| |] σ1]; simpl in *; try done.
  pose proof (any_group_ended_state (terminal_groups (self σ1)) σ1) as Hs.
  destruct (any_group_ended _ σ1) as [o σ2]; simpl in *. by subst.
Qed.

Lemma call_grows c σ : grows σ (call c σ).2.
Proof.
  destruct c as [pi pos zi|pi pos zi]; simpl; unfold_M.
  - destruct (reward_ok pi pos zi σ) as (r & σ' & -> & Hs & Hn).
    by apply grows_same_self.
  - pose proof (is_terminal_grows pi pos zi σ) as Hg.
    by destruct (is_terminal pi pos zi σ) as [[| |] σ'].
Qed.

(** A run of [reward] and [is_terminal] calls only raises flags, whatever
    the task methods answer. *)
Lemma episode_grows cs σ : grows σ (episode cs σ).2.
Proof.
  revert σ. induction cs as [|c cs IH]; intros σ; [apply grows_refl|].
  unfold episode in *. simpl. unfold_M.
  pose proof (call_grows c σ) as Hc.
  destruct (call c σ) as [[a| |] σ1]; simpl in *; try done.
  pose proof (IH σ1) as Hr.
  destruct (map_each cs call σ1) as [[| |] σ2]; simpl in *;
    by eapply grows_trans.
Qed.

Lemma grows_some_group_ended σ σ' :
  grows σ σ' → some_group_ended σ → some_group_ended σ'.
Proof.
  intros Hg (g & ts & Hin & Hall). exists g, ts.
  rewrite (grows_groups _ _ Hg). split; [done|].
  intros t Ht. by apply (grows_ended _ _ Hg), Hall.
Qed.
End Episode.

(** ** A task in no terminal group does not change the answers of
    [is_terminal] *)

Section Optional.
Context {RT : Runtime} (TM : TaskMethods) (task : Task).

Lemma sim_refl σ : sim task σ σ.
Proof. by split. Qed.

Lemma sim_sym σ σ' : sim task σ σ' → sim task σ' σ.
Proof.
  intros []. split; try done; intros t; try intros Ht; symmetry; auto.
Qed.

Lemma sim_trans σ1 σ2 σ3 : sim task σ1 σ2 → sim task σ2 σ3 → sim task σ1 σ3.
Proof.
  intros [] []. split; try congruence; intros t; try intros Ht.
  - etrans; [apply sim_dom1|apply sim_dom0].
  - etrans; [by apply sim_flags1|by apply sim_flags0].
  - etrans; [by apply sim_objects1|by apply sim_objects0].
Qed.

Lemma sim_wf σ σ' : sim task σ σ' → wf_purpose (self σ) → wf_purpose (self σ').
Proof.
  intros [] [Hd Hs Hg]. split.
  - intros t. rewrite sim_dom0, sim_tasks0. apply Hd.
  - intros t. rewrite sim_shaping0, sim_tasks0. apply Hs.
  - intros g ts. rewrite sim_groups0, sim_tasks0. apply Hg.
Qed.

(** A round of the loop on [task] itself changes at most its own flag
    and attributes, with any task methods. *)
Lemma update_one_self (TM0 : TaskMethods) pi pos zi σ :
  is_Some (task_has_ended (self σ) !! task) →
  sim task σ (@update_one RT TM0 task pi pos zi σ).2.
Proof.
  intros [b Hb]. unfold update_one. unfold_M; simpl. rewrite Hb.
  destruct b; simpl; [apply sim_refl|].
  unfold call_is_terminal.
  destruct (task_is_terminal task pi pos zi (objects σ task)) as [[] s]; simpl.
  - split; simpl; try done.
    + intros t. destruct (decide (task = t)) as [<- |Hne].
      * rewrite lookup_insert_eq, Hb. split; eauto.
      * by rewrite lookup_insert_ne.
    + intros t Ht. by rewrite lookup_insert_ne.
    + intros t Ht. by rewrite fn_lookup_insert_ne.
  - split; simpl; try done.
    intros t Ht. by rewrite fn_lookup_insert_ne.
Qed.

(** A round on another task does the same on both sides. *)
Lemma update_one_other t pi pos zi σ σ' :
  t ≠ task → sim task σ σ' →
  sim task (@update_one RT TM t pi pos zi σ).2
           (@update_one RT (never_terminal TM task) t pi pos zi σ').2.
Proof.
  intros Hne Hsim. unfold update_one. unfold_M; simpl.
  rewrite (sim_flags _ _ _ Hsim t Hne).
  destruct (task_has_ended (self σ) !! t) as [[]|] eqn:Hb; simpl; try done.
  unfold call_is_terminal. simpl. rewrite decide_False by done.
  rewrite (sim_objects _ _ _ Hsim t Hne).
  destruct (task_is_terminal t pi pos zi (objects σ t)) as [[] s]; simpl.
  - destruct Hsim. split; simpl; try done.
    + intros t'. destruct (decide (t = t')) as [<- |Hne'].
      * rewrite !lookup_insert_eq. split; eauto.
      * by rewrite !lookup_insert_ne.
    + intros t' Ht'. destruct (decide (t = t')) as [<- |Hne'].
      * by rewrite !lookup_insert_eq.
      * rewrite !lookup_insert_ne by done. by apply sim_flags0.
    + intros t' Ht'. destruct (decide (t = t')) as [<- |Hne'].
      * by rewrite !fn_lookup_insert.
      * rewrite !fn_lookup_insert_ne by done. by apply sim_objects0.
  - destruct Hsim. split; simpl; try done.
    intros t' Ht'. destruct (decide (t = t')) as [<- |Hne'].
    * by rewrite !fn_lookup_insert.
    * rewrite !fn_lookup_insert_ne by done. by apply sim_objects0.
Qed.

Lemma update_one_sim t pi pos zi σ σ' :
  is_Some (task_has_ended (self σ) !! t) → sim task σ σ' →
  sim task (@update_one RT TM t pi pos zi σ).2
           (@update_one RT (never_terminal TM task) t pi pos zi σ').2.
Proof.
  intros Hsome Hsim. destruct (decide (t = task)) as [-> |Hne].
  - eapply sim_trans; [apply sim_sym, update_one_self; done|].
    eapply sim_trans; [exact Hsim|]. apply update_one_self.
    by apply (sim_dom _ _ _ Hsim).
  - by apply update_one_other.
Qed.

Lemma update_ended_sim ts pi pos zi : ∀ σ σ',
  (∀ t, t ∈ ts → is_Some (task_has_ended (self σ) !! t)) →
  sim task σ σ' →
  sim task (@update_ended RT TM ts pi pos zi σ).2
           (@update_ended RT (never_terminal TM task) ts pi pos zi σ').2.
Proof.
  induction ts as [|t ts IH]; intros σ σ' Hts Hsim; simpl; [done|].
  unfold_M.
  pose proof (update_one_sim t pi pos zi σ σ' (Hts t (list_elem_of_here _ _)) Hsim) as H1.
  pose proof (@update_one_grows RT TM t pi pos zi σ) as Hg.
  pose proof (@update_one_ok RT TM t pi pos zi σ (Hts t (list_elem_of_here _ _))) as Hok.
  pose proof (@update_one_ok RT (never_terminal TM task) t pi pos zi σ') as Hok'.
  destruct (@update_one RT TM t pi pos zi σ) as [o σ1].
  destruct (@update_one RT (never_terminal TM task) t pi pos zi σ') as [o' σ1'].
  simpl in *. rewrite Hok, Hok'.
  - apply IH; [|done]. intros t' Ht'. apply (grows_dom _ _ Hg), Hts. by right.
  - apply (sim_dom _ _ _ Hsim), Hts. left.
Qed.

Lemma sim_some_group_ended σ σ' :
  sim task σ σ' → optional (self σ) task →
  some_group_ended σ ↔ some_group_ended σ'.
Proof.
  intros Hsim Hopt. unfold some_group_ended, ended.
  rewrite (sim_groups _ _ _ Hsim). split.
  - intros (g & ts & Hin & Hall). exists g, ts. split; [done|].
    intros t Ht. rewrite (sim_flags _ _ _ Hsim); [by apply Hall|].
    intros ->. by apply (Hopt g ts Hin).
  - intros (g & ts & Hin & Hall). exists g, ts. split; [done|].
    intros t Ht. rewrite <- (sim_flags _ _ _ Hsim); [by apply Hall|].
    intros ->. by apply (Hopt g ts Hin).
Qed.

(** [is_terminal] answers the same with the methods of [TM] and with the
    predicate of an optional task switched off. *)
Lemma is_terminal_sim pi pos zi σ σ' :
  wf_purpose (self σ) → optional (self σ) task → sim task σ σ' →
  ∃ b σ1 σ1',
    @is_terminal RT TM pi pos zi σ = (Ok b, σ1)
    ∧ @is_terminal RT (never_terminal TM task) pi pos zi σ' = (Ok b, σ1')
    ∧ sim task σ1 σ1' ∧ grows σ σ1.
Proof.
  intros Hwf Hopt Hsim.
  destruct (@is_terminal_spec RT TM pi pos zi σ Hwf) as (b & σ1 & Hrun & Hg & Hb).
  destruct (@is_terminal_spec RT (never_terminal TM task) pi pos zi σ')
    as (b' & σ1' & Hrun' & Hg' & Hb'); [by eapply sim_wf|].
  assert (sim task σ1 σ1') as Hsim1.
  { revert Hrun Hrun'. unfold is_terminal. unfold_M; simpl.
    rewrite (sim_tasks _ _ _ Hsim).
    destruct (tasks (self σ)) as [|t0 ts0] eqn:Htasks.
    { by intros [= _ <-] [= _ <-]. }
    rewrite <- Htasks.
    pose proof (update_ended_sim (tasks (self σ)) pi pos zi σ σ') as Hu.
    destruct (@update_ended RT TM _ _ _ _ σ) as [[[]| |] σa]; try done.
    destruct (@update_ended RT (never_terminal TM task) _ _ _ _ σ')
      as [[[]| |] σa']; try done.
    simpl in Hu.
    pose proof (@any_group_ended_state RT (terminal_groups (self σa)) σa) as Hs.
    pose proof (@any_group_ended_state RT (terminal_groups (self σa')) σa') as Hs'.
    destruct (any_group_ended _ σa) as [o σb].
    destruct (any_group_ended _ σa') as [o' σb']. simpl in *. subst.
    intros [= _ <-] [= _ <-]. apply Hu; [|done].
    intros t Ht. by apply (wf_ended_dom _ Hwf). }
  exists b, σ1, σ1'. split; [done|]. split; [|done].
  rewrite Hrun'. f_equal. f_equal.
  assert (optional (self σ1) task) as Hopt1.
  { intros g ts. rewrite (grows_groups _ _ Hg). apply Hopt. }
  pose proof (sim_some_group_ended σ1 σ1' Hsim1 Hopt1) as Hiff.
  destruct b, b'; try done.
  - assert (true = true) as Ht by done. apply Hb, Hiff, Hb' in Ht. done.
  - assert (true = true) as Ht by done. apply Hb', Hiff, Hb in Ht. done.
Qed.

Lemma is_terminal_run_sim states : ∀ σ σ',
  wf_purpose (self σ) → optional (self σ) task → sim task σ σ' →
  ∃ bs σ1 σ1',
    @is_terminal_run RT TM states σ = (Ok bs, σ1)
    ∧ @is_terminal_run RT (never_terminal TM task) states σ' = (Ok bs, σ1').
Proof.
  induction states as [|[[pi pos] zi] states IH]; intros σ σ' Hwf Hopt Hsim.
  - by exists [], σ, σ'.
  - unfold is_terminal_run in *. simpl. unfold_M.
    destruct (is_terminal_sim pi pos zi σ σ' Hwf Hopt Hsim)
      as (b & σ1 & σ1' & -> & -> & Hsim1 & Hg).
    destruct (IH σ1 σ1') as (bs & σ2 & σ2' & -> & ->); [| |done|].
    + by eapply grows_wf.
    + intros g ts. rewrite (grows_groups _ _ Hg). apply Hopt.
    + by exists (b :: bs), σ2, σ2'.
Qed.
End Optional.

(** ** [ancestors] computes backward reachability *)

Section Ancestors.
Variable G : DiGraph.

Lemma elem_of_predecessors (seen : gset ReqNode) x :
  x ∈ predecessors G seen ↔ ∃ y, edge G x y ∧ y ∈ seen.
Proof.
  unfold predecessors, edge. rewrite elem_of_map. split.
  - intros ([a b] & -> & [Hb Hin]%elem_of_filter). simpl in *. eauto.
  - intros (y & Hin & Hy). exists (x, y). split; [done|].
    apply elem_of_filter. done.
Qed.

Lemma reach_back_mono n (seen : gset ReqNode) : seen ⊆ reach_back G n seen.
Proof.
  revert seen. induction n as [|n IH]; intros seen; simpl; [done|].
  etrans; [|apply IH]. set_solver.
Qed.

Lemma reach_back_sound n : ∀ (seen : gset ReqNode) x,
  x ∈ reach_back G n seen → ∃ y, y ∈ seen ∧ rtc (edge G) x y.
Proof.
  induction n as [|n IH]; intros seen x; simpl.
  - intros Hx. exists x. split; [done|apply rtc_refl].
  - intros (y & [Hy|Hy]%elem_of_union & Hxy)%IH; [eauto|].
    apply elem_of_predecessors in Hy as (z & Hyz & Hz).
    exists z. split; [done|]. eapply rtc_r; eauto.
Qed.

Lemma reach_back_closed n (seen : gset ReqNode) :
  predecessors G seen ⊆ seen → reach_back G n seen = seen.
Proof.
  intros Hc. assert (seen ∪ predecessors G seen = seen) as Heq.
  { rewrite (comm_L (∪)). by apply subseteq_union_1_L. }
  induction n as [|n IH]; simpl; [done|]. by rewrite Heq.
Qed.

Lemma size_list_to_set_le (l : list ReqNode) :
  size (list_to_set l : gset ReqNode) ≤ length l.
Proof.
  induction l as [|x l IH].
  { change (size (∅ : gset ReqNode) ≤ 0). by rewrite size_empty. }
  change (size ({[x]} ∪ list_to_set l : gset ReqNode) ≤ S (length l)).
  rewrite size_union_alt, size_singleton.
  assert (size (list_to_set l ∖ {[x]} : gset ReqNode) ≤ size (list_to_set l : gset ReqNode))
    by (apply subseteq_size, subseteq_difference_l; done).
  lia.
Qed.

Lemma universe_size s : size (universe G s) ≤ 1 + size (edges G).
Proof.
  unfold universe. rewrite size_union_alt, size_singleton.
  assert (size (set_map fst (edges G) ∖ {[s]} : gset ReqNode)
          ≤ size (set_map fst (edges G) : gset ReqNode))
    by (apply subseteq_size, subseteq_difference_l; done).
  assert (size (set_map fst (edges G) : gset ReqNode) ≤ size (edges G)).
  { unfold set_map. etrans; [apply size_list_to_set_le|].
    by rewrite length_fmap. }
  lia.
Qed.

Lemma predecessors_universe s (seen : gset ReqNode) :
  predecessors G seen ⊆ universe G s.
Proof.
  intros x (y & Hxy & _)%elem_of_predecessors. unfold universe.
  apply elem_of_union_r, elem_of_map. by exists (x, y).
Qed.

(** After as many rounds as the universe has nodes beyond [seen], the
    search has stopped growing. *)
Lemma reach_back_saturates s n : ∀ seen : gset ReqNode,
  seen ⊆ universe G s → size (universe G s) ≤ size seen + n →
  predecessors G (reach_back G n seen) ⊆ reach_back G n seen.
Proof.
  induction n as [|n IH]; intros seen Hsub Hsize; simpl.
  - assert (seen = universe G s) as ->
      by (apply set_subseteq_size_eq; [done|lia]).
    apply predecessors_universe.
  - destruct (decide (predecessors G seen ⊆ seen)) as [Hc|Hnc].
    + assert (seen ∪ predecessors G seen = seen) as ->.
      { rewrite (comm_L (∪)). by apply subseteq_union_1_L. }
      by rewrite reach_back_closed.
    + apply IH.
      * apply union_least; [done|apply predecessors_universe].
      * assert (size seen < size (seen ∪ predecessors G seen)); [|lia].
        apply subset_size. split; [set_solver|]. set_solver.
Qed.

Lemma closed_complete (T : gset ReqNode) x y :
  predecessors G T ⊆ T → rtc (edge G) x y → y ∈ T → x ∈ T.
Proof.
  intros Hc Hxy. induction Hxy as [|x z y Hxz Hzy IH]; [done|].
  intros Hy. apply Hc, elem_of_predecessors. exists z. split; [done|by apply IH].
Qed.

(** [ancestors G source] is the set of the nodes other than [source] from
    which a path of edges leads to [source]. *)
Lemma ancestors_spec source A x :
  ancestors G source = Some A →
  x ∈ A ↔ x ≠ source ∧ rtc (edge G) x source.
Proof.
  unfold ancestors. destruct (decide (source ∈ nodes G)); [|done].
  intros [= <-]. rewrite elem_of_difference, elem_of_singleton. split.
  - intros [(y & ->%elem_of_singleton & Hp)%reach_back_sound Hne]. done.
  - intros [Hne Hp]. split; [|done].
    eapply closed_complete; [|exact Hp|].
    + apply (reach_back_saturates source).
      * unfold universe. apply union_subseteq_l.
      * rewrite size_singleton. pose proof (universe_size source). lia.
    + apply reach_back_mono. set_solver.
Qed.

Lemma ancestors_is_Some source :
  is_Some (ancestors G source) ↔ source ∈ nodes G.
Proof.
  unfold ancestors. destruct (decide (source ∈ nodes G)).
  - split; eauto.
  - split; [by intros [? ?]|done].
Qed.
End Ancestors.

(** ** Construction of subtasks and [build] *)

Section Build.
Context {RT : Runtime} {TM : TaskMethods}.

Lemma fresh_tasks_uid start ks t :
  t ∈ fresh_tasks start ks → (start ≤ task_uid t)%positive.
Proof.
  revert start. induction ks as [|k ks IH]; intros start; simpl.
  - intros Hin. inversion Hin.
  - intros [-> | Hin]%elem_of_cons; simpl; [lia|].
    apply IH in Hin. lia.
Qed.

Lemma fresh_tasks_uid_lt start ks t :
  t ∈ fresh_tasks start ks →
  Pos.to_nat (task_uid t) < Pos.to_nat start + length ks.
Proof.
  revert start. induction ks as [|k ks IH]; intros start; simpl.
  - intros Hin. inversion Hin.
  - intros [-> | Hin]%elem_of_cons; simpl; [lia|].
    apply IH in Hin. lia.
Qed.

Lemma fresh_tasks_kinds start ks : task_kind <$> fresh_tasks start ks = ks.
Proof.
  revert start. induction ks as [|k ks IH]; intros start; simpl; [done|].
  by rewrite IH.
Qed.

Lemma fresh_tasks_length start ks : length (fresh_tasks start ks) = length ks.
Proof. by rewrite <- (fresh_tasks_kinds start ks) at 2; rewrite length_fmap. Qed.

Lemma fresh_tasks_app start start' ks1 ks2 :
  Pos.to_nat start' = Pos.to_nat start + length ks1 →
  fresh_tasks start (ks1 ++ ks2) = fresh_tasks start ks1 ++ fresh_tasks start' ks2.
Proof.
  revert start. induction ks1 as [|k ks1 IH]; intros start Hs; simpl in *.
  - rewrite Nat.add_0_r in Hs. by apply Pos2Nat.inj in Hs as ->.
  - f_equal. apply IH. lia.
Qed.

(** The constructor calls of [_build_reward_shaping_subtasks] return the
    next identities in a row and leave the purpose alone. *)
Lemma map_each_new_task ks r σ :
  ∃ σ', map_each ks (λ kind, new_task kind r) σ = (Ok (fresh_tasks (next_uid σ) ks), σ')
        ∧ self σ' = self σ
        ∧ Pos.to_nat (next_uid σ') = Pos.to_nat (next_uid σ) + length ks.
Proof.
  revert σ. induction ks as [|k ks IH]; intros σ; simpl.
  - exists σ. split; [done|]. split; [done|lia].
  - unfold_M. unfold new_task at 1. simpl.
    match goal with |- context [map_each ks _ ?s] => destruct (IH s) as (σ' & -> & Hs & Hn) end.
    simpl in *. exists σ'. split; [done|]. split; [done|lia].
Qed.

(** A strategy raises what its plan raises, before any object is
    constructed, or constructs the planned subtasks. *)
Lemma add_reward_shaping_subtasks_spec task env rs σ :
  _add_reward_shaping_subtasks task env rs σ =
  match shaping_plan (task_kind task) env rs with
  | inl e => (Raise e, σ)
  | inr ks => map_each ks (λ kind, new_task kind (shaping_value (self σ))) σ
  end.
Proof.
  unfold _add_reward_shaping_subtasks, shaping_plan. unfold_M; simpl.
  destruct rs; simpl; try done.
  - unfold _required_subtasks. unfold_M.
    by destruct (required_relevant _ _).
  - unfold _inputs_subtasks. unfold_M.
    by destruct (inputs_relevant _ _).
Qed.

Lemma for_each_add_subtask subs σ :
  for_each subs (λ subtask, add_task subtask (Some (ByMember NONE)) NoGroup) σ
  = (Ok (), with_self (add_subtasks subs (self σ)) σ).
Proof.
  revert σ. induction subs as [|s subs IH]; intros σ; simpl.
  - by destruct σ.
  - unfold_M. rewrite add_task_spec. simpl. rewrite IH. done.
Qed.

(** *** What [add_subtasks] changes *)

Lemma add_subtasks_app subs1 subs2 p :
  add_subtasks (subs1 ++ subs2) p = add_subtasks subs2 (add_subtasks subs1 p).
Proof. apply foldl_app. Qed.

Lemma add_subtasks_tasks subs p : tasks (add_subtasks subs p) = tasks p ++ subs.
Proof.
  revert p. induction subs as [|s subs IH]; intros p; simpl.
  - by rewrite app_nil_r.
  - unfold add_subtasks in *. simpl. rewrite IH. simpl. by rewrite <- app_assoc.
Qed.

Lemma add_subtasks_groups subs p :
  terminal_groups (add_subtasks subs p) = terminal_groups p.
Proof.
  revert p. induction subs as [|s subs IH]; intros p; simpl; [done|].
  unfold add_subtasks in *. simpl. by rewrite IH.
Qed.

Lemma add_subtasks_value subs p :
  shaping_value (add_subtasks subs p) = shaping_value p
  ∧ timestep_reward (add_subtasks subs p) = timestep_reward p
  ∧ default_reward_shaping (add_subtasks subs p) = default_reward_shaping p.
Proof.
  revert p. induction subs as [|s subs IH]; intros p; simpl; [done|].
  unfold add_subtasks in *. simpl. by destruct (IH (append_task s
    (set_reward_shaping s NONE (set_task_has_ended s false p)))) as (-> & -> & ->).
Qed.

Lemma add_subtasks_shaping subs p t :
  reward_shaping (add_subtasks subs p) !! t
  = if decide (t ∈ subs) then Some NONE else reward_shaping p !! t.
Proof.
  revert p. induction subs as [|s subs IH]; intros p.
  - rewrite decide_False; [done|]. apply not_elem_of_nil.
  - unfold add_subtasks in *. cbn [foldl]. rewrite IH. cbn -[decide].
    destruct (decide (t ∈ subs)) as [Hin|Hnin].
    + rewrite decide_True; [done|by right].
    + destruct (decide (s = t)) as [-> |Hne].
      * rewrite lookup_insert_eq, decide_True; [done|by left].
      * rewrite lookup_insert_ne by done. rewrite decide_False; [done|].
        rewrite not_elem_of_cons. split; [congruence|done].
Qed.

Lemma add_subtasks_ended subs p t :
  task_has_ended (add_subtasks subs p) !! t
  = if decide (t ∈ subs) then Some false else task_has_ended p !! t.
Proof.
  revert p. induction subs as [|s subs IH]; intros p.
  - rewrite decide_False; [done|]. apply not_elem_of_nil.
  - unfold add_subtasks in *. cbn [foldl]. rewrite IH. cbn -[decide].
    destruct (decide (t ∈ subs)) as [Hin|Hnin].
    + rewrite decide_True; [done|by right].
    + destruct (decide (s = t)) as [-> |Hne].
      * rewrite lookup_insert_eq, decide_True; [done|by left].
      * rewrite lookup_insert_ne by done. rewrite decide_False; [done|].
        rewrite not_elem_of_cons. split; [congruence|done].
Qed.

Lemma add_subtasks_wf subs p : wf_purpose p → wf_purpose (add_subtasks subs p).
Proof.
  revert p. induction subs as [|s subs IH]; intros p Hwf; simpl; [done|].
  unfold add_subtasks in *. simpl. apply IH.
  by apply (added_wf s NONE NoGroup).
Qed.

(** *** The loop of [build] *)

Lemma plans_ext sh sh' env ts :
  (∀ t, t ∈ ts → sh' !! t = sh !! t) → plans sh' env ts = plans sh env ts.
Proof.
  induction ts as [|t ts IH]; intros Heq; simpl; [done|].
  rewrite Heq by left. rewrite IH; [done|].
  intros t' Ht'. apply Heq. by right.
Qed.

Lemma plans_app sh env ts1 ts2 :
  plans sh env (ts1 ++ ts2) =
  match plans sh env ts1 with
  | inl e => inl e
  | inr ks1 =>
      match plans sh env ts2 with
      | inl e => inl e
      | inr ks2 => inr (ks1 ++ ks2)
      end
  end.
Proof.
  induction ts1 as [|t ts1 IH]; simpl.
  - by destruct (plans sh env ts2).
  - destruct (sh !! t) as [rs|]; [|done].
    destruct (shaping_plan _ _ _) as [e|ks]; [done|].
    rewrite IH. destruct (plans sh env ts1) as [e|ks1]; [done|].
    destruct (plans sh env ts2) as [e|ks2]; [done|]. by rewrite app_assoc.
Qed.

Lemma plans_none sh env ts :
  (∀ t, t ∈ ts → sh !! t = Some NONE) → plans sh env ts = inr [].
Proof.
  induction ts as [|t ts IH]; intros Hn; simpl; [done|].
  rewrite Hn by left. simpl. rewrite IH; [done|].
  intros t' Ht'. apply Hn. by right.
Qed.

(** Past the tasks that ask for shaping, the loop only walks to the end of
    the list. *)
Lemma build_loop_tail env fuel : ∀ (i : nat) σ,
  (∀ (j : nat) t, (i ≤ j)%nat → tasks (self σ) !! j = Some t →
          reward_shaping (self σ) !! t = Some NONE) →
  (length (tasks (self σ)) - i < fuel)%nat →
  build_loop fuel env i σ = (Ok (), σ).
Proof.
  induction fuel as [|fuel IH]; intros i σ Hnone Hfuel; [lia|].
  simpl. unfold_M; simpl.
  destruct (tasks (self σ) !! i) as [t|] eqn:Hi; [|done].
  rewrite (Hnone i t) by done. cbn -[build_loop].
  apply IH.
  - intros j t' Hj. apply Hnone. lia.
  - apply lookup_lt_Some in Hi. lia.
Qed.

(** The loop at index [length pre], with the tasks [rest] still to visit
    and the subtasks [app0] appended so far: it constructs and appends the
    subtasks planned for [rest], or stops at the first plan that raises. *)
Lemma build_loop_spec env rest : ∀ pre app0 σ,
  tasks (self σ) = pre ++ rest ++ app0 →
  allocated σ →
  (∀ t, t ∈ app0 → reward_shaping (self σ) !! t = Some NONE) →
  match plans (reward_shaping (self σ)) env rest with
  | inr ks =>
      ∀ fuel, length rest + length app0 + length ks < fuel →
      ∃ σ', build_loop fuel env (length pre) σ = (Ok (), σ')
            ∧ self σ' = add_subtasks (fresh_tasks (next_uid σ) ks) (self σ)
            ∧ Pos.to_nat (next_uid σ') = Pos.to_nat (next_uid σ) + length ks
  | inl e =>
      ∀ fuel, length rest < fuel →
      ∃ σ' subs, build_loop fuel env (length pre) σ = (Raise e, σ')
            ∧ self σ' = add_subtasks subs (self σ)
            ∧ (∀ s, s ∈ subs → (next_uid σ ≤ task_uid s)%positive)
  end.
Proof.
  induction rest as [|t rest IH]; intros pre app0 σ Htasks Halloc Happ0.
  { simpl. intros fuel Hfuel. exists σ. split; [|split; [done|lia]].
    apply build_loop_tail.
    - intros j t Hj Hlook. apply Happ0. rewrite Htasks in Hlook. simpl in Hlook.
      rewrite lookup_app_r in Hlook by done. by eapply list_elem_of_lookup_2.
    - rewrite Htasks. simpl. rewrite length_app. lia. }
  assert (tasks (self σ) !! length pre = Some t) as Hlook.
  { rewrite Htasks. simpl. by apply list_lookup_middle. }
  simpl plans.
  destruct (reward_shaping (self σ) !! t) as [rs|] eqn:Hrs.
  2:{ intros [|fuel] Hfuel; [simpl in Hfuel; lia|]. simpl. unfold_M; simpl.
      rewrite Hlook, Hrs. exists σ, []. split; [done|]. split; [done|].
      intros s Hs. inversion Hs. }
  destruct (shaping_plan (task_kind t) env rs) as [e|ks1] eqn:Hplan.
  { intros [|fuel] Hfuel; [simpl in Hfuel; lia|]. simpl. unfold_M; simpl.
    rewrite Hlook, Hrs. simpl. rewrite add_reward_shaping_subtasks_spec, Hplan.
    exists σ, []. split; [done|]. split; [done|]. intros s Hs. inversion Hs. }
  (* the state after the subtasks of [t] are appended *)
  destruct (map_each_new_task ks1 (shaping_value (self σ)) σ) as (σa & Hmap & Hsa & Hna).
  set (subs1 := fresh_tasks (next_uid σ) ks1) in *.
  set (σ1 := with_self (add_subtasks subs1 (self σa)) σa).
  assert (∀ s, s ∈ subs1 → ∀ t', t' ∈ tasks (self σ) → s ≠ t') as Hfresh.
  { intros s Hs t' Ht' ->. apply fresh_tasks_uid in Hs. apply Halloc in Ht'. lia. }
  assert (tasks (self σ1) = (pre ++ [t]) ++ rest ++ (app0 ++ subs1)) as Htasks1.
  { simpl. rewrite add_subtasks_tasks, Hsa, Htasks. by rewrite <- !app_assoc. }
  assert (allocated σ1) as Halloc1.
  { intros t'. simpl. rewrite add_subtasks_tasks, Hsa.
    intros [Hin|Hin]%elem_of_app.
    - apply Halloc in Hin. lia.
    - apply fresh_tasks_uid_lt in Hin. lia. }
  assert (∀ t', t' ∈ app0 ++ subs1 → reward_shaping (self σ1) !! t' = Some NONE) as Happ1.
  { intros t'. simpl. rewrite add_subtasks_shaping, Hsa.
    destruct (decide (t' ∈ subs1)); [done|].
    intros [Hin|Hin]%elem_of_app; [by apply Happ0|done]. }
  assert (plans (reward_shaping (self σ1)) env rest
          = plans (reward_shaping (self σ)) env rest) as Hplans.
  { apply plans_ext. intros t' Ht'. simpl. rewrite add_subtasks_shaping, Hsa.
    rewrite decide_False; [done|]. intros Hin. apply (Hfresh t' Hin t'); [|done].
    rewrite Htasks. rewrite !elem_of_app. right. left. by right. }
  specialize (IH (pre ++ [t]) (app0 ++ subs1) σ1 Htasks1 Halloc1 Happ1).
  rewrite Hplans in IH.
  assert (length (pre ++ [t]) = S (length pre)) as Hlen
    by (rewrite length_app; simpl; lia).
  rewrite Hlen in IH.
  assert (∀ fuel, build_loop (S fuel) env (length pre) σ
                  = build_loop fuel env (S (length pre)) σ1) as Hstep.
  { intros fuel. cbn [build_loop]. unfold_M; cbn [self]. rewrite Hlook, Hrs. unfold_M.
    rewrite add_reward_shaping_subtasks_spec, Hplan, Hmap.
    by rewrite for_each_add_subtask. }
  destruct (plans (reward_shaping (self σ)) env rest) as [e|ks] eqn:Hrest.
  - intros [|fuel] Hfuel; [simpl in Hfuel; lia|]. rewrite Hstep.
    destruct (IH fuel) as (σ' & subs & -> & Hself & Huid); [simpl in Hfuel; lia|].
    exists σ', (subs1 ++ subs). split; [done|]. split.
    + rewrite Hself. simpl. by rewrite add_subtasks_app, Hsa.
    + intros s [Hs|Hs]%elem_of_app; [by apply fresh_tasks_uid in Hs|].
      apply Huid in Hs. simpl in Hs. lia.
  - intros [|fuel] Hfuel; [simpl in Hfuel; lia|]. rewrite Hstep.
    destruct (IH fuel) as (σ' & -> & Hself & Hn).
    { simpl in Hfuel. rewrite !length_app in *.
      unfold subs1. rewrite fresh_tasks_length. lia. }
    exists σ'. split; [done|]. split.
    + rewrite Hself. simpl. rewrite Hsa, <- add_subtasks_app. f_equal.
      symmetry. by apply fresh_tasks_app.
    + simpl in Hn. rewrite length_app. lia.
Qed.

Lemma for_each_call_build ts w σ :
  ∃ σ', for_each ts (λ task, call_build task w) σ = (Ok (), σ')
        ∧ self σ' = self σ ∧ next_uid σ' = next_uid σ.
Proof.
  revert σ. induction ts as [|t ts IH]; intros σ; simpl.
  - by exists σ.
  - unfold_M. unfold call_build at 1.
    match goal with |- context [for_each ts _ ?s] => destruct (IH s) as (σ' & -> & Hs & Hn) end.
    by exists σ'.
Qed.

(** [build] on a well-formed purpose whose tasks are objects constructed
    earlier.  With enough fuel it constructs and appends the subtasks
    planned for the tasks the purpose held at the call, in order, or raises
    what the first failing plan raises after it has appended the subtasks
    of the tasks before; it never runs out of fuel. *)
Lemma build_spec env σ :
  wf_purpose (self σ) → allocated σ →
  match plans (reward_shaping (self σ)) env (tasks (self σ)) with
  | inr ks =>
      ∀ fuel, length (tasks (self σ)) + length ks < fuel →
      ∃ σ', build fuel env σ = (Ok (), σ')
            ∧ self σ' = add_subtasks (fresh_tasks (next_uid σ) ks) (self σ)
            ∧ Pos.to_nat (next_uid σ') = Pos.to_nat (next_uid σ) + length ks
  | inl e =>
      ∀ fuel, length (tasks (self σ)) < fuel →
      ∃ σ' subs, build fuel env σ = (Raise e, σ')
            ∧ self σ' = add_subtasks subs (self σ)
            ∧ (∀ s, s ∈ subs → (next_uid σ ≤ task_uid s)%positive)
  end.
Proof.
  intros Hwf Halloc.
  pose proof (build_loop_spec env (tasks (self σ)) [] [] σ) as Hloop.
  rewrite app_nil_r in Hloop. specialize (Hloop eq_refl Halloc).
  assert (∀ t : Task, t ∈ [] → reward_shaping (self σ) !! t = Some NONE) as Hnil
    by (intros t Ht; inversion Ht).
  specialize (Hloop Hnil). simpl in Hloop.
  destruct (plans _ _ _) as [e|ks] eqn:Hplans.
  - intros fuel Hfuel. destruct (Hloop fuel Hfuel) as (σ' & subs & Hrun & Hself & Huid).
    exists σ', subs. split; [|done].
    unfold build. unfold_M; simpl.
    destruct (tasks (self σ)) eqn:Ht; [simpl in Hplans; done|]. by rewrite Hrun.
  - intros fuel Hfuel.
    destruct (tasks (self σ)) as [|t0 ts0] eqn:Ht.
    + simpl in Hplans. injection Hplans as <-. exists σ.
      unfold build. unfold_M; simpl. rewrite Ht. split; [done|]. split; [done|].
      simpl. lia.
    + destruct (Hloop fuel) as (σ' & Hrun & Hself & Hn); [simpl in *; lia|].
      destruct (for_each_call_build (tasks (self σ')) (world env) σ')
        as (σ'' & Hb & Hs'' & Hn'').
      exists σ''. unfold build. unfold_M; simpl. rewrite Ht, Hrun, Hb.
      split; [done|]. split; congruence.
Qed.

(** [build] in one statement for both outcomes: with enough fuel it
    returns or raises, and the purpose it leaves is the one at the call
    with newly constructed subtasks appended. *)
Lemma build_frame env σ :
  wf_purpose (self σ) → allocated σ →
  ∃ N, ∀ fuel, N ≤ fuel →
    ∃ out σ' subs,
      build fuel env σ = (out, σ')
      ∧ self σ' = add_subtasks subs (self σ)
      ∧ (∀ s, s ∈ subs → (next_uid σ ≤ task_uid s)%positive)
      ∧ match plans (reward_shaping (self σ)) env (tasks (self σ)) with
        | inr ks => out = Ok () ∧ subs = fresh_tasks (next_uid σ) ks
                    ∧ Pos.to_nat (next_uid σ') = Pos.to_nat (next_uid σ) + length ks
        | inl e => out = Raise e
        end.
Proof.
  intros Hwf Halloc. pose proof (build_spec env σ Hwf Halloc) as Hb.
  destruct (plans _ _ _) as [e|ks].
  - exists (S (length (tasks (self σ)))). intros fuel Hfuel.
    destruct (Hb fuel) as (σ' & subs & Hrun & Hself & Huid); [lia|].
    by exists (Raise e), σ', subs.
  - exists (S (length (tasks (self σ)) + length ks)). intros fuel Hfuel.
    destruct (Hb fuel) as (σ' & Hrun & Hself & Hn); [lia|].
    exists (Ok ()), σ', (fresh_tasks (next_uid σ) ks).
    split; [done|]. split; [done|]. split; [|done].
    intros s Hs. by apply fresh_tasks_uid in Hs.
Qed.

(** Subtasks constructed after the call are in no terminal group, are
    not shaped, and leave the entries of the tasks of the purpose alone. *)
Lemma add_subtasks_fresh subs σ :
  wf_purpose (self σ) → allocated σ →
  (∀ s, s ∈ subs → (next_uid σ ≤ task_uid s)%positive) →
  (∀ s, s ∈ subs →
     reward_shaping (add_subtasks subs (self σ)) !! s = Some NONE
     ∧ optional (add_subtasks subs (self σ)) s)
  ∧ (∀ t, t ∈ tasks (self σ) →
       reward_shaping (add_subtasks subs (self σ)) !! t = reward_shaping (self σ) !! t
       ∧ task_has_ended (add_subtasks subs (self σ)) !! t
         = task_has_ended (self σ) !! t).
Proof.
  intros Hwf Halloc Huid.
  assert (∀ t, t ∈ tasks (self σ) → t ∉ subs) as Hold.
  { intros t Ht Hs. apply Halloc in Ht. apply Huid in Hs. lia. }
  split.
  - intros s Hs. split.
    + rewrite add_subtasks_shaping. by rewrite decide_True.
    + intros g ts. rewrite add_subtasks_groups. intros Hin Hs'.
      apply (Hold s); [|done]. by apply (wf_groups _ Hwf g ts Hin).
  - intros t Ht. rewrite add_subtasks_shaping, add_subtasks_ended.
    by rewrite !decide_False by by apply Hold.
Qed.
End Build.

(** ** What the strategies collect *)

Section Strategies.
Context {RT : Runtime} {TM : TaskMethods}.

Lemma elements_perm `{Countable A} (X : gset A) (l : list A) :
  NoDup l → (∀ x, x ∈ X ↔ x ∈ l) → elements X ≡ₚ l.
Proof.
  intros Hl HX. apply NoDup_Permutation; [apply NoDup_elements|done|].
  intros x. by rewrite elem_of_elements.
Qed.

(** One subtask per collected element: a [GetItemTask] per relevant item,
    a [GoToZoneTask] per relevant zone and a [PlaceItemTask] per relevant
    zone item, none of them twice. *)
Lemma kinds_of_relevant_elem r k :
  k ∈ kinds_of_relevant r ↔
    (∃ i, i ∈ relevant_items r ∧ k = GetItemTask (stack_of_item i))
    ∨ (∃ z, z ∈ relevant_zones r ∧ k = GoToZoneTask z)
    ∨ (∃ i, i ∈ relevant_zone_items r ∧ k = PlaceItemTask (stack_of_item i) None).
Proof.
  unfold kinds_of_relevant, shaping_kinds.
  rewrite !elem_of_app, !list_elem_of_fmap.
  setoid_rewrite elem_of_elements. split.
  - intros [(i & -> & ?)|[(z & -> & ?)|(i & -> & ?)]]; eauto.
  - intros [(i & ? & ->)|[(z & ? & ->)|(i & ? & ->)]]; eauto 6.
Qed.

Lemma kinds_of_relevant_NoDup r : NoDup (kinds_of_relevant r).
Proof.
  unfold kinds_of_relevant, shaping_kinds.
  apply list.NoDup_app. split; [|split].
  - apply NoDup_fmap_2; [|apply NoDup_elements].
    intros i j [= Heq]. done.
  - intros k (i & -> & _)%list_elem_of_fmap [Hz|Hp]%elem_of_app.
    + by apply list_elem_of_fmap in Hz as (z & ? & _).
    + by apply list_elem_of_fmap in Hp as (j & ? & _).
  - apply list.NoDup_app. split; [|split].
    + apply NoDup_fmap_2; [|apply NoDup_elements]. by intros z z' [= ->].
    + intros k (z & -> & _)%list_elem_of_fmap Hp.
      by apply list_elem_of_fmap in Hp as (j & ? & _).
    + apply NoDup_fmap_2; [|apply NoDup_elements]. by intros i j [= ->].
Qed.

(** A strategy that collected [r] constructs one task per kind. *)
Lemma subtasks_of_relevant_spec r reward σ :
  ∃ σ', subtasks_of_relevant r reward σ
        = (Ok (fresh_tasks (next_uid σ) (kinds_of_relevant r)), σ')
        ∧ self σ' = self σ.
Proof.
  unfold subtasks_of_relevant, _build_reward_shaping_subtasks.
  destruct (map_each_new_task (kinds_of_relevant r) reward σ) as (σ' & Hrun & Hs & _).
  by exists σ'.
Qed.

(** *** INPUTS *)

Lemma add_inputs_elem r0 t :
  (∀ i, i ∈ relevant_items (add_inputs r0 t) ↔
          i ∈ relevant_items r0 ∨ i ∈ consumed_items t)
  ∧ (∀ z, z ∈ relevant_zones (add_inputs r0 t) ↔
            z ∈ relevant_zones r0 ∨ z ∈ or_empty (transfo_zones t))
  ∧ (∀ i, i ∈ relevant_zone_items (add_inputs r0 t) ↔
            i ∈ relevant_zone_items r0 ∨ i ∈ consumed_zones_items t).
Proof.
  unfold add_inputs. cbn [relevant_items relevant_zones relevant_zone_items].
  split; [|split].
  - intros i. by rewrite elem_of_union, elem_of_list_to_set.
  - intros z. destruct (transfo_zones t) as [[|z0 zs]|]; cbn [or_empty].
    + rewrite elem_of_nil. tauto.
    + by rewrite elem_of_union, elem_of_list_to_set.
    + rewrite elem_of_nil. tauto.
  - intros i. by rewrite elem_of_union, elem_of_list_to_set.
Qed.

Lemma foldl_add_inputs ts r0 :
  let r := foldl add_inputs r0 ts in
  (∀ i, i ∈ relevant_items r ↔
          i ∈ relevant_items r0 ∨ ∃ t, t ∈ ts ∧ i ∈ consumed_items t)
  ∧ (∀ z, z ∈ relevant_zones r ↔
            z ∈ relevant_zones r0 ∨ ∃ t, t ∈ ts ∧ z ∈ or_empty (transfo_zones t))
  ∧ (∀ i, i ∈ relevant_zone_items r ↔
            i ∈ relevant_zone_items r0 ∨ ∃ t, t ∈ ts ∧ i ∈ consumed_zones_items t).
Proof.
  revert r0. induction ts as [|t ts IH]; intros r0; cbn [foldl].
  - repeat split; try (intros ?; by left).
    all: intros [?|(t & Ht & _)]; [done|inversion Ht].
  - destruct (IH (add_inputs r0 t)) as (Hi & Hz & Hzi).
    destruct (add_inputs_elem r0 t) as (Hi0 & Hz0 & Hzi0).
    split; [|split].
    + intros i. rewrite Hi, Hi0. split.
      * intros [[?|?]|(t' & Ht' & ?)]; [by left|right..].
        -- exists t. split; [left|done].
        -- exists t'. split; [by right|done].
      * intros [?|(t' & [-> |Ht']%elem_of_cons & ?)]; [left; by left|left; by right|].
        right. by exists t'.
    + intros z. rewrite Hz, Hz0. split.
      * intros [[?|?]|(t' & Ht' & ?)]; [by left|right..].
        -- exists t. split; [left|done].
        -- exists t'. split; [by right|done].
      * intros [?|(t' & [-> |Ht']%elem_of_cons & ?)]; [left; by left|left; by right|].
        right. by exists t'.
    + intros i. rewrite Hzi, Hzi0. split.
      * intros [[?|?]|(t' & Ht' & ?)]; [by left|right..].
        -- exists t. split; [left|done].
        -- exists t'. split; [by right|done].
      * intros [?|(t' & [-> |Ht']%elem_of_cons & ?)]; [left; by left|left; by right|].
        right. by exists t'.
Qed.

Lemma opt_in_Some i l : opt_in (Some i) l = true ↔ i ∈ l.
Proof. simpl. apply bool_decide_eq_true. Qed.

(** The transformations INPUTS shaping looks at, for each supported
    class of task. *)
Lemma relevant_transformation kind t :
  let g := {| goal_item := match kind with
                           | GetItemTask s => Some (item s)
                           | _ => None
                           end;
              goal_zone_item := match kind with
                                | PlaceItemTask s _ => Some (item s)
                                | _ => None
                                end;
              goal_zones := match kind with
                            | GoToZoneTask z => [z]
                            | _ => candidate_zones kind
                            end |} in
  is_supported kind = true →
  transfo_giving_item g t = true ∨ transfo_placing_zone_item g t = true
  ∨ transfo_going_to_any_zones g t = true
  ↔ spec_produces_goal kind t
    ∨ ∃ z, z ∈ candidate_zones kind ∧ destination t = Some z.
Proof.
  intros g Hsup. unfold transfo_giving_item, transfo_placing_zone_item,
    transfo_going_to_any_zones, g.
  destruct kind as [s|z|s zs|c]; simpl in *; try done.
  - rewrite andb_true_iff, negb_true_iff, bool_decide_eq_true, bool_decide_eq_false.
    split.
    + intros [?|[[=]|Hd]]; [by left|]. by destruct (destination t).
    + intros [?|(z & Hz & _)]; [by left|inversion Hz].
  - split.
    + intros [[=]|[[=]|Hd]]. left. destruct (destination t) as [d|]; [|done].
      apply bool_decide_eq_true, list_elem_of_singleton in Hd. by subst.
    + intros [-> |(z' & Hz & _)]; [|inversion Hz]. right. right.
      apply bool_decide_eq_true. left.
  - rewrite andb_true_iff, negb_true_iff, bool_decide_eq_true, bool_decide_eq_false.
    split.
    + intros [[=]|[?|Hd]]; [by left|]. right.
      destruct (destination t) as [d|]; [|done].
      apply bool_decide_eq_true in Hd. eauto.
    + intros [?|(z & Hz & ->)]; [right; by left|]. right. right.
      by apply bool_decide_eq_true.
Qed.

(** INPUTS shaping on a supported task does not raise, and what it
    collects is [code_inputs]. *)
Lemma inputs_relevant_spec kind env :
  is_supported kind = true →
  ∃ r, inputs_relevant kind env = inr r
       ∧ ∀ k, k ∈ kinds_of_relevant r ↔ code_inputs kind env k.
Proof.
  intros Hsup.
  pose proof (relevant_transformation kind) as Hrel. simpl in Hrel.
  assert (∀ g zs0,
    (∀ t, transfo_giving_item g t = true ∨ transfo_placing_zone_item g t = true
          ∨ transfo_going_to_any_zones g t = true
          ↔ spec_produces_goal kind t
            ∨ ∃ z, z ∈ candidate_zones kind ∧ destination t = Some z) →
    (∀ z, z ∈ zs0 ↔ z ∈ candidate_zones kind) →
    ∀ k, k ∈ kinds_of_relevant
           (foldl add_inputs
              {| relevant_items := ∅; relevant_zones := zs0;
                 relevant_zone_items := ∅ |}
              (filter (λ t, transfo_giving_item g t) (transformations env)
               ++ filter (λ t, transfo_placing_zone_item g t) (transformations env)
               ++ filter (λ t, transfo_going_to_any_zones g t) (transformations env)))
         ↔ code_inputs kind env k) as Hmain.
  { intros g zs0 Hg Hzs k. rewrite kinds_of_relevant_elem.
    match goal with |- context [foldl add_inputs ?r0 ?ts] =>
      destruct (foldl_add_inputs ts r0) as (Hi & Hz & Hzi) end.
    simpl in Hi, Hz, Hzi.
    assert (∀ t, t ∈ filter (λ t, transfo_giving_item g t) (transformations env)
               ++ filter (λ t, transfo_placing_zone_item g t) (transformations env)
               ++ filter (λ t, transfo_going_to_any_zones g t) (transformations env)
             ↔ t ∈ transformations env
               ∧ (spec_produces_goal kind t
                  ∨ ∃ z, z ∈ candidate_zones kind ∧ destination t = Some z)) as Hts.
    { intros t. rewrite !elem_of_app, !list_elem_of_filter, <- Hg.
      rewrite !Is_true_true. tauto. }
    setoid_rewrite Hi. setoid_rewrite Hz. setoid_rewrite Hzi.
    setoid_rewrite Hts. setoid_rewrite Hzs.
    unfold code_inputs. setoid_rewrite elem_of_empty. split.
    - intros [(i & [[]|(t & [Ht Hp] & Hin)] & ->)
             |[(z & [Hz0|(t & [Ht Hp] & Hin)] & ->)
              |(i & [[]|(t & [Ht Hp] & Hin)] & ->)]].
      + right. exists t. split; [done|]. split; [done|]. left. eauto.
      + left. eauto.
      + right. exists t. split; [done|]. split; [done|]. right. right. eauto.
      + right. exists t. split; [done|]. split; [done|]. right. left. eauto.
    - intros [(z & Hz0 & ->)|(t & Ht & Hp & [(i & Hin & ->)|[(i & Hin & ->)|(z & Hin & ->)]])].
      + right. left. eauto.
      + left. exists i. split; [|done]. right. eauto.
      + right. right. exists i. split; [|done]. right. eauto.
      + right. left. exists z. split; [|done]. right. eauto. }
  destruct kind as [s|z|s [[|z0 zs]|]|c]; try done; cbn [inputs_relevant].
  - eexists; split; [reflexivity|].
    apply (Hmain {| goal_item := Some (item s); goal_zone_item := None;
                    goal_zones := [] |} ∅); [intros t; by apply Hrel|].
    intros z. cbn. by rewrite elem_of_empty, elem_of_nil.
  - eexists; split; [reflexivity|].
    apply (Hmain {| goal_item := None; goal_zone_item := None;
                    goal_zones := [z] |} ∅); [intros t; by apply Hrel|].
    intros z'. cbn. by rewrite elem_of_empty, elem_of_nil.
  - eexists; split; [reflexivity|].
    apply (Hmain {| goal_item := None; goal_zone_item := Some (item s);
                    goal_zones := [] |} ∅); [intros t; by apply Hrel|].
    intros z'. cbn. by rewrite elem_of_empty, elem_of_nil.
  - eexists; split; [reflexivity|].
    apply (Hmain {| goal_item := None; goal_zone_item := Some (item s);
                    goal_zones := z0 :: zs |} (list_to_set (z0 :: zs)));
      [intros t; by apply Hrel|].
    intros z'. cbn [candidate_zones or_empty]. by rewrite elem_of_list_to_set.
  - eexists; split; [reflexivity|].
    apply (Hmain {| goal_item := None; goal_zone_item := Some (item s);
                    goal_zones := [] |} ∅); [intros t; by apply Hrel|].
    intros z'. cbn. by rewrite elem_of_empty, elem_of_nil.
Qed.

(** Without candidate zones the code collects what the specification
    says. *)
Lemma code_inputs_spec kind env k :
  candidate_zones kind = [] → code_inputs kind env k ↔ spec_inputs kind env k.
Proof.
  intros Hc. unfold code_inputs, spec_inputs. rewrite Hc. split.
  - intros [(z & Hz & _)|(t & Ht & [Hp|(z & Hz & _)] & Hsub)];
      [inversion Hz| |inversion Hz]. by exists t.
  - intros (t & Ht & Hp & Hsub). right. exists t. split; [done|].
    split; [by left|done].
Qed.
End Strategies.

(** * The claims *)

Section Claims.
Context {RT : Runtime} {TM : TaskMethods}.

(** The purpose of the terminal-group law, built by the calls of the
    documentation: [A] in the groups "g1" and "default", [B] in "g1", [C]
    in "default". *)
Lemma Purpose_init_bind {K} (k : M K) tr d sv σ :
  (Purpose_init NoTasks tr d sv;; k) σ = k (with_self (empty_purpose tr d sv) σ).
Proof. reflexivity. Qed.

Lemma add_task_default_bind {K} (k : M K) task rs a σ :
  default_reward_shaping (self σ) = ByMember rs →
  (add_task task None a;; k) σ = k (with_self (added task rs a (self σ)) σ).
Proof.
  intros Hd. unfold mbind, M_bind. rewrite add_task_spec, Hd. reflexivity.
Qed.

Lemma three_tasks_state {K} (k : M K) A B C tr rs sv σ :
  (Purpose_init NoTasks tr (ByMember rs) sv;;
   add_task A None (GroupNames ["g1"; "default"]);;
   add_task B None (GroupName "g1");;
   add_task C None (GroupName "default");;
   k) σ
  = k (with_self (three_tasks A B C tr rs sv) σ).
Proof.
  rewrite Purpose_init_bind.
  rewrite (add_task_default_bind _ A rs) by reflexivity.
  rewrite (add_task_default_bind _ B rs) by reflexivity.
  rewrite (add_task_default_bind _ C rs) by reflexivity.
  reflexivity.
Qed.

Lemma three_tasks_wf A B C tr rs sv : wf_purpose (three_tasks A B C tr rs sv).
Proof. unfold three_tasks. repeat apply added_wf. apply empty_purpose_wf. Qed.

Lemma three_tasks_groups A B C tr rs sv :
  terminal_groups (three_tasks A B C tr rs sv)
  = [("g1", [A; B]); ("default", [A; C])].
Proof. reflexivity. Qed.

(** C1.  On every purpose that [add_task] can build, after any run of
    calls, [is_terminal] returns, and it returns true exactly when some
    terminal group has all its tasks flagged ended.  For the purpose with
    [A] in "g1" and "default", [B] in "g1" and [C] in "default" that is:
    exactly when [A] and [B] are flagged, or [A] and [C] are. *)
Theorem is_terminal_any_group_all_ended :
  (∀ σ cs pi pos zi,
     wf_purpose (self σ) →
     ∃ b σ', (episode cs;; is_terminal pi pos zi) σ = (Ok b, σ')
             ∧ (b = true ↔ some_group_ended σ'))
  ∧ (∀ σ A B C tr rs sv cs pi pos zi,
     ∃ b σ', (Purpose_init NoTasks tr (ByMember rs) sv;;
              add_task A None (GroupNames ["g1"; "default"]);;
              add_task B None (GroupName "g1");;
              add_task C None (GroupName "default");;
              episode cs;;
              is_terminal pi pos zi) σ = (Ok b, σ')
             ∧ (b = true ↔ (ended σ' A ∧ ended σ' B) ∨ (ended σ' A ∧ ended σ' C))).
Proof.
  assert (∀ σ cs pi pos zi, wf_purpose (self σ) →
     ∃ b σ1 σ', episode cs σ = (Ok b, σ1) ∧ grows σ σ' ∧
             ∃ b, (episode cs;; is_terminal pi pos zi) σ = (Ok b, σ')
             ∧ (b = true ↔ some_group_ended σ')) as Hgen.
  { intros σ cs pi pos zi Hwf.
    destruct (episode_spec cs σ Hwf) as (answers & σ1 & Hrun & Hg1).
    destruct (is_terminal_spec pi pos zi σ1) as (b & σ' & Hterm & Hg2 & Hb);
      [by eapply grows_wf|].
    exists answers, σ1, σ'. split; [done|]. split; [by eapply grows_trans|].
    exists b. split; [|done]. unfold_M. by rewrite Hrun. }
  split.
  - intros σ cs pi pos zi Hwf.
    destruct (Hgen σ cs pi pos zi Hwf) as (_ & _ & σ' & _ & _ & b & Hrun & Hb).
    by exists b, σ'.
  - intros σ A B C tr rs sv cs pi pos zi.
    rewrite three_tasks_state.
    set (σ0 := with_self (three_tasks A B C tr rs sv) σ) in *.
    destruct (Hgen σ0 cs pi pos zi) as (_ & _ & σ' & _ & Hg & b & Hrun & Hb);
      [apply three_tasks_wf|].
    exists b, σ'. split; [done|].
    rewrite Hb. unfold some_group_ended.
      rewrite (grows_groups _ _ Hg). unfold σ0. cbn [self with_self].
      rewrite three_tasks_groups. split.
      * intros (g & ts & Hin & Hall).
        apply elem_of_cons in Hin as [[= -> ->]|Hin].
        { left. split; apply Hall; [left|right; left]. }
        apply list_elem_of_singleton in Hin as [= -> ->].
        right. split; apply Hall; [left|right; left].
      * intros [[HA HB]|[HA HC]].
        -- exists "g1", [A; B]. split; [left|].
           intros t [-> |[-> |Hin]%elem_of_cons]%elem_of_cons; [done|done|inversion Hin].
        -- exists "default", [A; C]. split; [right; left|].
           intros t [-> |[-> |Hin]%elem_of_cons]%elem_of_cons; [done|done|inversion Hin].
Qed.

(** C10.  A purpose without tasks: [reward] is the timestep reward and
    [is_terminal] is false, on any state, and neither changes anything. *)
Theorem no_task_reward_and_terminal σ pi pos zi :
  tasks (self σ) = [] →
  reward pi pos zi σ = (Ok (timestep_reward (self σ)), σ)
  ∧ is_terminal pi pos zi σ = (Ok false, σ).
Proof.
  intros Htasks. unfold reward, is_terminal. unfold_M; simpl.
  by rewrite Htasks.
Qed.

(** C9.  Once [is_terminal] has returned true it returns true at every
    later call, after any calls of [reward] and [is_terminal] in between and
    on any state. *)
Theorem is_terminal_stays_true σ pi pos zi σ1 cs pi' pos' zi' :
  wf_purpose (self σ) →
  is_terminal pi pos zi σ = (Ok true, σ1) →
  ∃ σ2, (episode cs;; is_terminal pi' pos' zi') σ1 = (Ok true, σ2).
Proof.
  intros Hwf Hrun.
  destruct (is_terminal_spec pi pos zi σ Hwf) as (b & σ1' & Hrun' & Hg & Hb).
  rewrite Hrun in Hrun'. injection Hrun' as <- <-.
  assert (some_group_ended σ1) as Hended by by apply Hb.
  assert (wf_purpose (self σ1)) as Hwf1 by by eapply grows_wf.
  destruct (episode_spec cs σ1 Hwf1) as (answers & σa & Hep & Hga).
  destruct (is_terminal_spec pi' pos' zi' σa) as (b' & σ2 & Hrun2 & Hg2 & Hb2);
    [by eapply grows_wf|].
  exists σ2. unfold_M. rewrite Hep, Hrun2. f_equal. f_equal.
  apply Hb2. eapply grows_some_group_ended; [exact Hg2|].
  by eapply grows_some_group_ended.
Qed.

(** C4, amended.  A flag that is true stays true through every call of
    [reward] and [is_terminal], whatever the task methods answer, through
    [add_task] of any other task, and through [build]. *)
Theorem ended_flag_sticky σ task :
  ended σ task →
  (∀ cs, ended (episode cs σ).2 task)
  ∧ (∀ other rs a, other ≠ task → ended (add_task other rs a σ).2 task)
  ∧ (∀ env, wf_purpose (self σ) → allocated σ →
       ∃ N, ∀ fuel, N ≤ fuel → ended (build fuel env σ).2 task).
Proof.
  intros Hended. split; [|split].
  - intros cs. by apply (grows_ended _ _ (episode_grows cs σ)).
  - intros other rs a Hne. rewrite add_task_spec.
    destruct (RewardShaping_call _); [|done].
    unfold ended in *. simpl. by rewrite lookup_insert_ne.
  - intros env Hwf Halloc.
    destruct (build_frame env σ Hwf Halloc) as (N & HN).
    exists N. intros fuel Hfuel.
    destruct (HN fuel Hfuel) as (out & σ' & subs & -> & Hself & Huid & _).
    unfold ended in *. simpl. rewrite Hself.
    destruct (add_subtasks_fresh subs σ Hwf Halloc Huid) as [_ Hold].
    destruct (Hold task) as [_ ->]; [|done].
    apply (wf_ended_dom _ Hwf). eauto.
Qed.

Lemma sum_rewards_with_self ts pi pos zi acc p σ :
  sum_rewards ts pi pos zi acc (with_self p σ)
  = ((sum_rewards ts pi pos zi acc σ).1,
     with_self p (sum_rewards ts pi pos zi acc σ).2).
Proof.
  revert acc σ. induction ts as [|t ts IH]; intros acc σ; simpl; [done|].
  unfold_M. unfold call_reward. simpl.
  destruct (task_reward t pi pos zi (objects σ t)) as [r s]. simpl.
  exact (IH (float_add acc r)
            {| self := self σ; objects := <[t:=s]> (objects σ);
               next_uid := next_uid σ |}).
Qed.

Lemma sum_rewards_app ts1 ts2 pi pos zi acc σ :
  sum_rewards (ts1 ++ ts2) pi pos zi acc σ
  = (r ← sum_rewards ts1 pi pos zi acc; sum_rewards ts2 pi pos zi r) σ.
Proof.
  revert acc σ. induction ts1 as [|t ts1 IH]; intros acc σ; simpl; [done|].
  unfold_M. destruct (call_reward t pi pos zi σ) as [[r| |] σ1];
    [apply IH|done|done].
Qed.

(** C5, amended.  [add_task] with [terminal_groups] [None] or the empty
    string puts the task in no terminal group and leaves the groups as they
    were: a task that was in no group, such as one that is new to the
    purpose, is in none afterwards, and a task that was in a group stays in
    it.  The reward of the task is added to the reward of the purpose.  For a
    task in no group [is_terminal] answers, on every sequence of states, what
    it would answer if the predicate of the task never held, and a purpose
    whose tasks are all optional never terminates. *)
Theorem optional_task_rewards_but_never_ends :
  (∀ σ task rsarg a,
     a = NoGroup ∨ a = GroupName EmptyString →
     is_Some (RewardShaping_call
                (match rsarg with
                 | None => default_reward_shaping (self σ)
                 | Some x => x
                 end)) →
     ∃ σ1, add_task task rsarg a σ = (Ok (), σ1)
           ∧ tasks (self σ1) = tasks (self σ) ++ [task]
           ∧ terminal_groups (self σ1) = terminal_groups (self σ)
           ∧ (optional (self σ) task ↔ optional (self σ1) task)
           ∧ (wf_purpose (self σ) → task ∉ tasks (self σ) →
              optional (self σ1) task)
           ∧ (wf_purpose (self σ) → optional (self σ) task →
              ∀ states, ∃ bs σ2 σ2',
                @is_terminal_run RT TM states σ1 = (Ok bs, σ2)
                ∧ @is_terminal_run RT (never_terminal TM task) states σ1
                  = (Ok bs, σ2'))
           ∧ ∀ pi pos zi, ∃ r σa rt σb,
               reward pi pos zi σ = (Ok r, σa)
               ∧ call_reward task pi pos zi (with_self (self σ1) σa) = (Ok rt, σb)
               ∧ reward pi pos zi σ1 = (Ok (float_add r rt), σb))
  ∧ (∀ σ task states,
       wf_purpose (self σ) → optional (self σ) task →
       ∃ bs σ1 σ1',
         @is_terminal_run RT TM states σ = (Ok bs, σ1)
         ∧ @is_terminal_run RT (never_terminal TM task) states σ = (Ok bs, σ1'))
  ∧ (∀ σ cs pi pos zi,
       wf_purpose (self σ) →
       (∀ task, task ∈ tasks (self σ) → optional (self σ) task) →
       ∃ σ', (episode cs;; is_terminal pi pos zi) σ = (Ok false, σ')).
Proof.
  split; [|split].
  - intros σ task rsarg a Ha [rs Hrs].
    assert (group_names a = []) as Hnames by by destruct Ha as [-> | ->].
    exists (with_self (added task rs a (self σ)) σ).
    rewrite add_task_spec, Hrs. split; [done|]. split; [done|].
    assert (terminal_groups (added task rs a (self σ)) = terminal_groups (self σ))
      as Hgroups by (unfold added; simpl; by rewrite Hnames).
    split; [done|].
    assert (optional (self σ) task
            ↔ optional (self (with_self (added task rs a (self σ)) σ)) task)
      as Hiff.
    { unfold optional. cbn [self with_self]. by rewrite Hgroups. }
    split; [exact Hiff|]. split.
    { intros Hwf Hnew. apply Hiff. intros g ts Hin Hts.
      apply Hnew. by apply (wf_groups _ Hwf g ts Hin). }
    split.
    { intros Hwf Hopt states. apply is_terminal_run_sim.
      - cbn [self with_self]. by apply added_wf.
      - by apply Hiff.
      - apply sim_refl. }
    intros pi pos zi.
    destruct (sum_rewards_ok (tasks (self σ)) pi pos zi (timestep_reward (self σ)) σ)
      as (r & σa & Hsum & Hsa & Hna).
    set (σ1 := with_self (added task rs a (self σ)) σ).
    destruct (call_reward_grows task pi pos zi (with_self (self σ1) σa))
      as (rt & σb & Hcall & _ & _).
    exists r, σa, rt, σb. split; [|split; [done|]].
    + unfold reward. unfold_M; simpl.
      destruct (tasks (self σ)) eqn:Htasks; [|done].
      simpl in Hsum. by injection Hsum as <- <-.
    + unfold reward. unfold_M.
      change (tasks (self σ1)) with (tasks (self σ) ++ [task]).
      change (timestep_reward (self σ1)) with (timestep_reward (self σ)).
      assert (sum_rewards (tasks (self σ) ++ [task]) pi pos zi
                (timestep_reward (self σ)) σ1 = (Ok (float_add r rt), σb)) as Hall.
      { rewrite sum_rewards_app. unfold_M. unfold σ1 at 1.
        rewrite sum_rewards_with_self, Hsum. simpl. unfold_M.
        simpl in Hcall. by rewrite Hcall. }
      cbn [self with_self]. by destruct (tasks (self σ) ++ [task]) eqn:Happ;
        [by destruct (tasks (self σ))|].
  - intros σ task states Hwf Hopt.
    apply is_terminal_run_sim; [done|done|apply sim_refl].
  - intros σ cs pi pos zi Hwf Hall.
    destruct (episode_spec cs σ Hwf) as (answers & σa & Hep & Hga).
    destruct (is_terminal_spec pi pos zi σa) as (b & σ' & Hrun & Hg & Hb);
      [by eapply grows_wf|].
    exists σ'. unfold_M. rewrite Hep, Hrun. f_equal. f_equal.
    destruct b; [|done]. destruct Hb as [Hb _].
    destruct (Hb eq_refl) as (g & ts & Hin & _).
    rewrite (grows_groups _ _ Hg), (grows_groups _ _ Hga) in Hin.
    destruct (wf_groups _ Hwf g ts Hin) as [Hne Hsub].
    destruct ts as [|t ts]; [done|].
    exfalso. apply (Hall t (Hsub t (list_elem_of_here _ _)) g (t :: ts) Hin). left.
Qed.
End Claims.

Section BuildClaims.
Context {RT : Runtime} {TM : TaskMethods}.

Lemma plans_fail sh env ts t rs e :
  t ∈ ts → sh !! t = Some rs → shaping_plan (task_kind t) env rs = inl e →
  ∃ e', plans sh env ts = inl e'.
Proof.
  induction ts as [|t' ts IH]; intros Hin Hrs Hplan; [inversion Hin|].
  simpl. apply elem_of_cons in Hin as [<- |Hin].
  - rewrite Hrs, Hplan. eauto.
  - destruct (sh !! t') as [rs'|]; [|eauto].
    destruct (shaping_plan (task_kind t') env rs') as [e'|ks]; [eauto|].
    destruct (IH Hin Hrs Hplan) as [e' ->]. eauto.
Qed.

(** The state after a [build] that returned: well formed again, its
    tasks constructed earlier, and the plans of its task list are the plans
    of the task list at the call, the subtasks planning nothing. *)
Lemma built_state σ ks σ' env :
  wf_purpose (self σ) → allocated σ →
  plans (reward_shaping (self σ)) env (tasks (self σ)) = inr ks →
  self σ' = add_subtasks (fresh_tasks (next_uid σ) ks) (self σ) →
  Pos.to_nat (next_uid σ') = Pos.to_nat (next_uid σ) + length ks →
  wf_purpose (self σ') ∧ allocated σ'
  ∧ plans (reward_shaping (self σ')) env (fresh_tasks (next_uid σ) ks) = inr []
  ∧ plans (reward_shaping (self σ')) env (tasks (self σ')) = inr ks.
Proof.
  intros Hwf Halloc Hplans Hself Hn.
  destruct (add_subtasks_fresh (fresh_tasks (next_uid σ) ks) σ Hwf Halloc)
    as [Hnew Hold]; [intros s Hs; by apply fresh_tasks_uid in Hs|].
  rewrite Hself. split; [by apply add_subtasks_wf|]. split.
  { intros t. rewrite Hself, add_subtasks_tasks.
    intros [Hin|Hin]%elem_of_app.
    - apply Halloc in Hin. lia.
    - apply fresh_tasks_uid_lt in Hin. lia. }
  assert (plans (reward_shaping (add_subtasks (fresh_tasks (next_uid σ) ks) (self σ)))
            env (fresh_tasks (next_uid σ) ks) = inr []) as Hsub.
  { apply plans_none. intros t Ht. by apply Hnew. }
  split; [done|].
  rewrite add_subtasks_tasks, plans_app, Hsub.
  rewrite (plans_ext (reward_shaping (self σ))), Hplans.
  - by rewrite app_nil_r.
  - intros t Ht. by apply Hold.
Qed.

(** C6.  With enough fuel [build] returns or raises, and whatever it
    appended to the task list has reward shaping NONE and is in no terminal
    group; the terminal groups and the entries of the tasks it found are as
    before.  When it returns, the subtasks are those planned for the tasks
    the purpose held at the call: the subtasks themselves plan nothing. *)
Theorem build_subtasks_optional_unshaped env σ :
  wf_purpose (self σ) → allocated σ →
  ∃ N, ∀ fuel, N ≤ fuel →
    ∃ out σ' subs,
      build fuel env σ = (out, σ') ∧ out ≠ OutOfFuel
      ∧ tasks (self σ') = tasks (self σ) ++ subs
      ∧ terminal_groups (self σ') = terminal_groups (self σ)
      ∧ (∀ s, s ∈ subs →
           reward_shaping (self σ') !! s = Some NONE ∧ optional (self σ') s)
      ∧ (∀ t, t ∈ tasks (self σ) →
           reward_shaping (self σ') !! t = reward_shaping (self σ) !! t)
      ∧ (out = Ok () →
           plans (reward_shaping (self σ)) env (tasks (self σ))
           = inr (task_kind <$> subs)
           ∧ plans (reward_shaping (self σ')) env subs = inr []).
Proof.
  intros Hwf Halloc. destruct (build_frame env σ Hwf Halloc) as (N & HN).
  exists N. intros fuel Hfuel.
  destruct (HN fuel Hfuel) as (out & σ' & subs & Hrun & Hself & Huid & Hplans).
  exists out, σ', subs. split; [done|].
  destruct (add_subtasks_fresh subs σ Hwf Halloc Huid) as [Hnew Hold].
  split; [by destruct (plans _ _ _); [subst|destruct Hplans as [-> _]]|].
  rewrite Hself. split; [apply add_subtasks_tasks|].
  split; [apply add_subtasks_groups|]. split; [done|].
  split; [intros t Ht; by apply Hold|].
  intros ->. destruct (plans _ _ _) as [e|ks] eqn:Hp; [done|].
  destruct Hplans as (_ & -> & Hn). rewrite fresh_tasks_kinds. split; [done|].
  rewrite <- Hself. by eapply built_state.
Qed.

(** C7, amended.  After a [build] that returned, a second [build] with
    the same world returns too and appends to the task list one new object
    for every subtask the first one appended, of the same class and goal;
    the terminal groups and the entries of the tasks it finds stay as they
    are.  The purpose is left as it was exactly when the first [build]
    synthesized no subtask. *)
Theorem build_twice_appends_again env σ ks :
  wf_purpose (self σ) → allocated σ →
  plans (reward_shaping (self σ)) env (tasks (self σ)) = inr ks →
  ∃ N, ∀ fuel, N ≤ fuel →
    ∃ σ1 σ2,
      build fuel env σ = (Ok (), σ1) ∧ build fuel env σ1 = (Ok (), σ2)
      ∧ tasks (self σ1) = tasks (self σ) ++ fresh_tasks (next_uid σ) ks
      ∧ tasks (self σ2) = tasks (self σ1) ++ fresh_tasks (next_uid σ1) ks
      ∧ terminal_groups (self σ2) = terminal_groups (self σ1)
      ∧ (∀ t, t ∈ tasks (self σ1) →
           reward_shaping (self σ2) !! t = reward_shaping (self σ1) !! t
           ∧ task_has_ended (self σ2) !! t = task_has_ended (self σ1) !! t)
      ∧ (self σ2 = self σ1 ↔ ks = []).
Proof.
  intros Hwf Halloc Hplans.
  pose proof (build_spec env σ Hwf Halloc) as H1. rewrite Hplans in H1.
  exists (S (length (tasks (self σ)) + length ks + length ks)).
  intros fuel Hfuel.
  destruct (H1 fuel) as (σ1 & Hrun1 & Hself1 & Hn1); [lia|].
  destruct (built_state σ ks σ1 env Hwf Halloc Hplans Hself1 Hn1)
    as (Hwf1 & Halloc1 & _ & Hplans1).
  pose proof (build_spec env σ1 Hwf1 Halloc1) as H2. rewrite Hplans1 in H2.
  assert (tasks (self σ1) = tasks (self σ) ++ fresh_tasks (next_uid σ) ks) as Ht1
    by (rewrite Hself1; apply add_subtasks_tasks).
  destruct (H2 fuel) as (σ2 & Hrun2 & Hself2 & Hn2).
  { rewrite Ht1, length_app, fresh_tasks_length. lia. }
  exists σ1, σ2. split; [done|]. split; [done|]. split; [done|].
  assert (tasks (self σ2) = tasks (self σ1) ++ fresh_tasks (next_uid σ1) ks) as Ht2
    by (rewrite Hself2; apply add_subtasks_tasks).
  split; [done|]. split; [rewrite Hself2; apply add_subtasks_groups|].
  split.
  - destruct (add_subtasks_fresh (fresh_tasks (next_uid σ1) ks) σ1 Hwf1 Halloc1)
      as [_ Hold]; [intros s Hs; by apply fresh_tasks_uid in Hs|].
    rewrite Hself2. apply Hold.
  - split.
    + intros Heq. rewrite Heq in Ht2.
      assert (length (fresh_tasks (next_uid σ1) ks) = 0) as Hlen.
      { apply (f_equal length) in Ht2. rewrite length_app in Ht2. lia. }
      rewrite fresh_tasks_length in Hlen. by destruct ks.
    + intros ->. by rewrite Hself2.
Qed.

(** C8.  REQUIRED and INPUTS shaping raise [NotImplementedError] on a
    task of another class than the three supported ones, and a [build] that
    finds such a task with such a shaping in the purpose raises: that
    error, when the shaping of the tasks before it succeeds. *)
Theorem unsupported_task_shaping_raises env σ pre t post :
  wf_purpose (self σ) → allocated σ →
  tasks (self σ) = pre ++ t :: post →
  is_supported (task_kind t) = false →
  reward_shaping (self σ) !! t = Some REQUIRED_ACHIVEMENTS
  ∨ reward_shaping (self σ) !! t = Some INPUTS_ACHIVEMENT →
  (∀ r σ0, _required_subtasks t env r σ0 = (Raise NotImplementedError, σ0)
           ∧ _inputs_subtasks t env r σ0 = (Raise NotImplementedError, σ0))
  ∧ ∃ N, ∀ fuel, N ≤ fuel →
      ∃ e σ', build fuel env σ = (Raise e, σ')
              ∧ ((∃ ks, plans (reward_shaping (self σ)) env pre = inr ks) →
                 e = NotImplementedError).
Proof.
  intros Hwf Halloc Htasks Hkind Hrs.
  destruct (task_kind t) as [| | |c] eqn:Hk; try done.
  split.
  { intros r σ0. unfold _required_subtasks, _inputs_subtasks. unfold_M.
    by rewrite Hk. }
  assert (∃ rs, reward_shaping (self σ) !! t = Some rs
                ∧ shaping_plan (task_kind t) env rs = inl NotImplementedError)
    as (rs & Hrs' & Hplan).
  { destruct Hrs as [Hrs|Hrs]; eexists; (split; [exact Hrs|]); by rewrite Hk. }
  destruct (build_frame env σ Hwf Halloc) as (N & HN).
  exists N. intros fuel Hfuel.
  destruct (HN fuel Hfuel) as (out & σ' & subs & Hrun & _ & _ & Hout).
  rewrite Htasks, plans_app in Hout. simpl in Hout.
  rewrite Hrs', Hplan in Hout.
  destruct (plans (reward_shaping (self σ)) env pre) as [e|ks0].
  - subst out. exists e, σ'. split; [done|]. by intros [? ?].
  - subst out. exists NotImplementedError, σ'. done.
Qed.
End BuildClaims.

Section ShapingClaims.
Context {RT : Runtime} {TM : TaskMethods}.

(** *** The graph of the scenario *)

Lemma scenario_edges item0 item1 item2 Z a b :
  edge (requirements_graph (scenario_env item0 item1 item2 Z)) a b ↔
    (a = ItemNode item0 ∧ b = ItemNode item1)
    ∨ (a = ItemNode item1 ∧ b = ItemNode item2)
    ∨ (a = ZoneNode Z ∧ b = ItemNode item2).
Proof.
  unfold edge, scenario_env, env_of_transformations, build_requirements_graph.
  cbn. rewrite !elem_of_union, !elem_of_singleton, elem_of_empty. split.
  - intros [[= -> ->]|[[= -> ->]|[[= -> ->]|[]]]]; tauto.
  - intros [[-> ->]|[[-> ->]|[-> ->]]]; tauto.
Qed.

Lemma scenario_goal_node item0 item1 item2 Z :
  ItemNode item2 ∈ nodes (requirements_graph (scenario_env item0 item1 item2 Z)).
Proof.
  unfold scenario_env, env_of_transformations, build_requirements_graph.
  cbn. rewrite !elem_of_union, !elem_of_singleton. tauto.
Qed.

(** The ancestors of the ITEM node of [item2]: the ITEM nodes of [item0]
    and [item1] and the ZONE node of [Z]. *)
Lemma scenario_ancestors item0 item1 item2 Z :
  item0 ≠ item2 → item1 ≠ item2 →
  ∃ anc, ancestors (requirements_graph (scenario_env item0 item1 item2 Z))
           (ItemNode item2) = Some anc
         ∧ ∀ x, x ∈ anc ↔ x = ItemNode item0 ∨ x = ItemNode item1 ∨ x = ZoneNode Z.
Proof.
  intros H02 H12.
  set (G := requirements_graph (scenario_env item0 item1 item2 Z)).
  destruct (proj2 (ancestors_is_Some G (ItemNode item2))) as [anc Hanc];
    [apply scenario_goal_node|].
  exists anc. split; [done|]. intros x.
  rewrite (ancestors_spec G _ _ _ Hanc). split.
  - intros [Hne [-> |(y & Hxy & _)]%rtc_inv]; [done|].
    apply scenario_edges in Hxy as [[-> _]|[[-> _]|[-> _]]]; tauto.
  - assert (edge G (ItemNode item0) (ItemNode item1)) as E01
      by (apply scenario_edges; tauto).
    assert (edge G (ItemNode item1) (ItemNode item2)) as E12
      by (apply scenario_edges; tauto).
    assert (edge G (ZoneNode Z) (ItemNode item2)) as EZ2
      by (apply scenario_edges; tauto).
    intros [-> |[-> | ->]]; (split; [congruence|]).
    + eapply rtc_l; [exact E01|]. by apply rtc_once.
    + by apply rtc_once.
    + by apply rtc_once.
Qed.

Lemma required_relevant_scenario item0 item1 item2 Z stack :
  item0 ≠ item1 → item0 ≠ item2 → item1 ≠ item2 → item stack = item2 →
  ∃ r, required_relevant (GetItemTask stack) (scenario_env item0 item1 item2 Z) = inr r
       ∧ kinds_of_relevant r ≡ₚ [GetItemTask (stack_of_item item0);
                                 GetItemTask (stack_of_item item1);
                                 GoToZoneTask Z].
Proof.
  intros H01 H02 H12 <-.
  destruct (scenario_ancestors item0 item1 (item stack) Z H02 H12) as (anc & Hanc & Hin).
  unfold required_relevant. cbn [required_loop]. rewrite Hanc.
  eexists. split; [reflexivity|].
  unfold kinds_of_relevant, add_ancestors, shaping_kinds.
  cbn [relevant_items relevant_zones relevant_zone_items].
  rewrite (elements_perm _ [item0; item1]), (elements_perm _ [Z]),
    (elements_perm _ (@nil Item)); [done|..].
  - constructor.
  - intros i. rewrite elem_of_union, elem_of_set_omap, elem_of_empty, elem_of_nil.
    split; [|done]. intros [[]|(n & Hn & Hl)].
    apply Hin in Hn as [-> |[-> | ->]]; done.
  - apply NoDup_singleton.
  - intros z. rewrite elem_of_union, elem_of_set_omap, elem_of_empty,
      list_elem_of_singleton. split.
    + intros [[]|(n & Hn & Hl)]. apply Hin in Hn as [-> |[-> | ->]]; try done.
      by injection Hl.
    + intros ->. right. exists (ZoneNode Z). split; [apply Hin; tauto|done].
  - apply NoDup_cons_2; [by rewrite list_elem_of_singleton|apply NoDup_singleton].
  - intros i. rewrite elem_of_union, elem_of_set_omap, elem_of_empty,
      elem_of_cons, list_elem_of_singleton. split.
    + intros [[]|(n & Hn & Hl)]. apply Hin in Hn as [-> |[-> | ->]]; try done.
      * left. by injection Hl.
      * right. by injection Hl.
    + intros [-> | ->]; right.
      * exists (ItemNode item0). split; [apply Hin; tauto|done].
      * exists (ItemNode item1). split; [apply Hin; tauto|done].
Qed.

(** C2.  In the world of search([item0]), craft([item0] to [item1]) and
    craft in zone [Z] ([item1] to [item2]), [build] on a purpose that holds
    a [GetItemTask] for [item2] with REQUIRED shaping returns, and the
    subtasks it appends are a [GetItemTask] for [item0], one for [item1] and
    a [GoToZoneTask] for [Z], each in no terminal group; the terminal
    groups are as before. *)
Theorem required_shaping_scenario item0 item1 item2 Z σ t stack :
  item0 ≠ item1 → item0 ≠ item2 → item1 ≠ item2 →
  wf_purpose (self σ) → allocated σ →
  tasks (self σ) = [t] →
  task_kind t = GetItemTask stack → item stack = item2 →
  reward_shaping (self σ) !! t = Some REQUIRED_ACHIVEMENTS →
  ∃ N, ∀ fuel, N ≤ fuel →
    ∃ σ' subs,
      build fuel (scenario_env item0 item1 item2 Z) σ = (Ok (), σ')
      ∧ tasks (self σ') = t :: subs
      ∧ task_kind <$> subs ≡ₚ [GetItemTask (stack_of_item item0);
                               GetItemTask (stack_of_item item1);
                               GoToZoneTask Z]
      ∧ terminal_groups (self σ') = terminal_groups (self σ)
      ∧ ∀ s, s ∈ subs → optional (self σ') s.
Proof.
  intros H01 H02 H12 Hwf Halloc Htasks Hkind Hitem Hrs.
  destruct (required_relevant_scenario item0 item1 item2 Z stack H01 H02 H12 Hitem)
    as (r & Hreq & Hperm).
  destruct (build_frame (scenario_env item0 item1 item2 Z) σ Hwf Halloc) as (N & HN).
  exists N. intros fuel Hfuel.
  destruct (HN fuel Hfuel) as (out & σ' & subs & Hrun & Hself & Huid & Hplans).
  rewrite Htasks in Hplans. cbn [plans] in Hplans.
  rewrite Hrs, Hkind in Hplans. cbn [shaping_plan] in Hplans.
  rewrite Hreq in Hplans. destruct Hplans as (-> & Hsubs & _).
  exists σ', subs. split; [done|].
  destruct (add_subtasks_fresh subs σ Hwf Halloc Huid) as [Hnew _].
  rewrite Hself. split; [by rewrite add_subtasks_tasks, Htasks|].
  split; [by rewrite Hsubs, fresh_tasks_kinds, app_nil_r|].
  split; [apply add_subtasks_groups|]. intros s Hs. by apply Hnew.
Qed.

(** *** INPUTS on the scenario *)

Lemma code_inputs_scenario item0 item1 item2 Z stack k :
  item0 ≠ item2 → item1 ≠ item2 → item stack = item2 →
  code_inputs (GetItemTask stack) (scenario_env item0 item1 item2 Z) k ↔
    k = GetItemTask (stack_of_item item1) ∨ k = GoToZoneTask Z.
Proof.
  intros H02 H12 <-. rewrite code_inputs_spec by done.
  unfold spec_inputs, scenario_env, env_of_transformations.
  cbn [transformations spec_produces_goal]. split.
  - intros (t & Ht & [Hp Hc] & Hsub).
    repeat (apply elem_of_cons in Ht as [-> |Ht]); [| | |inversion Ht];
      cbn in Hp, Hc, Hsub.
    + apply list_elem_of_singleton in Hp. congruence.
    + apply list_elem_of_singleton in Hp. congruence.
    + destruct Hsub as [(i & Hi & ->)|[(i & Hi & ->)|(z & Hz & ->)]].
      * apply list_elem_of_singleton in Hi as ->. by left.
      * inversion Hi.
      * apply list_elem_of_singleton in Hz as ->. by right.
  - intros Hk. exists (craft_in_zone item1 (item stack) Z).
    split; [right; right; left|]. split.
    + cbn. rewrite !list_elem_of_singleton. split; [done|congruence].
    + destruct Hk as [-> | ->]; cbn.
      * left. exists item1. split; [left|done].
      * right. right. exists Z. split; [left|done].
Qed.

(** C3, amended.  INPUTS shaping on a task of a supported class returns
    one subtask per element of the remove sets and of the zones
    precondition of the transformations that produce the goal without
    consuming it; for a [PlaceItemTask] with candidate zones it counts the
    transformations that move to a candidate zone among them and adds a
    [GoToZoneTask] per candidate zone.  On the scenario, the subtasks of a
    [GetItemTask] for [item2] are a [GetItemTask] for [item1] and a
    [GoToZoneTask] for [Z]. *)
Theorem inputs_shaping_one_hop :
  (∀ env t r σ,
     is_supported (task_kind t) = true →
     ∃ σ' subs,
       _inputs_subtasks t env r σ = (Ok subs, σ')
       ∧ NoDup (task_kind <$> subs)
       ∧ (∀ k, k ∈ task_kind <$> subs ↔ code_inputs (task_kind t) env k)
       ∧ (candidate_zones (task_kind t) = [] →
          ∀ k, k ∈ task_kind <$> subs ↔ spec_inputs (task_kind t) env k))
  ∧ (∀ item0 item1 item2 Z t stack r σ,
       item0 ≠ item2 → item1 ≠ item2 →
       task_kind t = GetItemTask stack → item stack = item2 →
       ∃ σ' subs,
         _inputs_subtasks t (scenario_env item0 item1 item2 Z) r σ = (Ok subs, σ')
         ∧ task_kind <$> subs ≡ₚ [GetItemTask (stack_of_item item1); GoToZoneTask Z]).
Proof.
  assert (∀ env t r σ,
     is_supported (task_kind t) = true →
     ∃ σ' subs,
       _inputs_subtasks t env r σ = (Ok subs, σ')
       ∧ NoDup (task_kind <$> subs)
       ∧ (∀ k, k ∈ task_kind <$> subs ↔ code_inputs (task_kind t) env k)) as Hgen.
  { intros env t r σ Hsup.
    destruct (inputs_relevant_spec (task_kind t) env Hsup) as (rel & Hrel & Hk).
    destruct (subtasks_of_relevant_spec rel r σ) as (σ' & Hrun & _).
    exists σ', (fresh_tasks (next_uid σ) (kinds_of_relevant rel)).
    split; [unfold _inputs_subtasks; unfold_M; by rewrite Hrel|].
    rewrite fresh_tasks_kinds. split; [apply kinds_of_relevant_NoDup|done]. }
  split.
  - intros env t r σ Hsup.
    destruct (Hgen env t r σ Hsup) as (σ' & subs & Hrun & Hnd & Hk).
    exists σ', subs. split; [done|]. split; [done|]. split; [done|].
    intros Hc k. rewrite Hk. by apply code_inputs_spec.
  - intros item0 item1 item2 Z t stack r σ H02 H12 Hkind Hitem.
    destruct (Hgen (scenario_env item0 item1 item2 Z) t r σ)
      as (σ' & subs & Hrun & Hnd & Hk); [by rewrite Hkind|].
    exists σ', subs. split; [done|].
    apply NoDup_Permutation; [done| |].
    + apply NoDup_cons_2; [by rewrite list_elem_of_singleton|apply NoDup_singleton].
    + intros k. rewrite Hk, Hkind, elem_of_cons, list_elem_of_singleton.
      by apply code_inputs_scenario.
Qed.
End ShapingClaims.

(** * Further properties of the module *)

Section AddTaskExtra.
Context {RT : Runtime} {TM : TaskMethods}.

(** ** Reward shaping arguments *)

Lemma RewardShaping_call_value rs :
  RewardShaping_call (ByValue (RewardShaping_value rs)) = Some rs.
Proof. by destruct rs. Qed.

(** [RewardShaping(rs.value)] is [rs], and a string is accepted exactly
    when it is the value of a member, which then is the result. *)
Theorem RewardShaping_value_round_trip rs s :
  RewardShaping_call (ByValue (RewardShaping_value rs)) = Some rs
  ∧ (RewardShaping_call (ByValue s) = Some rs ↔ s = RewardShaping_value rs).
Proof.
  split; [by destruct rs|]. split.
  - unfold RewardShaping_call. cbn [find].
    repeat case_bool_decide; intros [= <-]; by subst.
  - intros ->. by destruct rs.
Qed.

(** [add_task] with a reward shaping that names no member raises
    [ValueError] and has then changed nothing: no flag is reset and no group
    is created.  With any other argument it returns. *)
Theorem add_task_value_error task rsarg a σ :
  let arg := match rsarg with
             | None => default_reward_shaping (self σ)
             | Some x => x
             end in
  (RewardShaping_call arg = None → add_task task rsarg a σ = (Raise ValueError, σ))
  ∧ (is_Some (RewardShaping_call arg) → (add_task task rsarg a σ).1 = Ok ()).
Proof.
  intros arg. rewrite add_task_spec. fold arg. split.
  - by intros ->.
  - by intros [rs ->].
Qed.

(** [add_task] with the value of a member does what it does with the
    member. *)
Theorem add_task_by_value task rs a σ :
  add_task task (Some (ByValue (RewardShaping_value rs))) a σ
  = add_task task (Some (ByMember rs)) a σ.
Proof.
  rewrite !add_task_spec. by rewrite RewardShaping_call_value.
Qed.

(** ** The dictionary of terminal groups *)

Lemma group_get_set_ne g g' ts d :
  g ≠ g' → group_get g (group_set g' ts d) = group_get g d.
Proof.
  intros Hne. induction d as [|[k old] d IH]; cbn [group_set group_get].
  - destruct (decide (g' = g)); [congruence|done].
  - destruct (decide (k = g')) as [-> |Hk]; cbn [group_get].
    + destruct (decide (g' = g)); [congruence|done].
    + destruct (decide (k = g)); [done|apply IH].
Qed.

Lemma group_mem_false_get g d : group_mem g d = false → group_get g d = None.
Proof.
  unfold group_mem. rewrite bool_decide_eq_false.
  induction d as [|[k old] d IH]; simpl; [done|].
  rewrite not_elem_of_cons. intros [Hne Hd]. rewrite decide_False by done. auto.
Qed.

Lemma group_set_keys g ts d :
  (group_set g ts d).*1 = if decide (g ∈ d.*1) then d.*1 else d.*1 ++ [g].
Proof.
  induction d as [|[k old] d IH]; cbn [group_set].
  - rewrite decide_False; [done|apply not_elem_of_nil].
  - rewrite !fmap_cons. cbn [fst].
    destruct (decide (k = g)) as [-> |Hne]; rewrite ?fmap_cons; cbn [fst].
    + rewrite decide_True; [done|left].
    + rewrite IH. destruct (decide (g ∈ d.*1)) as [Hin|Hnin].
      * rewrite decide_True; [done|by right].
      * rewrite decide_False; [done|].
        rewrite not_elem_of_cons. split; [congruence|done].
Qed.

Lemma group_set_keys_distinct g ts d : NoDup d.*1 → NoDup (group_set g ts d).*1.
Proof.
  intros Hd. rewrite group_set_keys. destruct (decide (g ∈ d.*1)); [done|].
  apply list.NoDup_app. split; [done|]. split; [|apply NoDup_singleton].
  intros x Hx ->%list_elem_of_singleton. done.
Qed.

Lemma group_add_keys_distinct task d g : NoDup d.*1 → NoDup (group_add task d g).*1.
Proof.
  intros Hd. unfold group_add.
  destruct (group_mem g d).
  - destruct (group_get g d); [by apply group_set_keys_distinct|done].
  - pose proof (group_set_keys_distinct g [] d Hd) as Hd'.
    destruct (group_get g (group_set g [] d)); [by apply group_set_keys_distinct|done].
Qed.

(** The group [g] after one round of the loop of [add_task] on the name
    [g']. *)
Lemma group_get_add task d g g' :
  group_get g (group_add task d g')
  = if decide (g = g') then Some (default [] (group_get g' d) ++ [task])
    else group_get g d.
Proof.
  unfold group_add. destruct (group_mem g' d) eqn:Hmem.
  - destruct (group_mem_get g' d Hmem) as [old Hold]. rewrite Hold.
    destruct (decide (g = g')) as [-> |Hne].
    + by rewrite group_get_set.
    + by rewrite group_get_set_ne.
  - rewrite group_get_set, group_set_twice by done.
    rewrite (group_mem_false_get _ _ Hmem).
    destruct (decide (g = g')) as [-> |Hne].
    + by rewrite group_get_set.
    + by rewrite group_get_set_ne.
Qed.

Lemma group_get_foldl_add task names : ∀ d g,
  group_get g (foldl (group_add task) d names)
  = if decide (g ∈ names)
    then Some (default [] (group_get g d)
               ++ replicate (length (filter (λ n, n = g) names)) task)
    else group_get g d.
Proof.
  induction names as [|n names IH]; intros d g; cbn [foldl].
  - rewrite decide_False; [done|apply not_elem_of_nil].
  - rewrite IH, group_get_add. rewrite filter_cons.
    destruct (decide (g = n)) as [-> |Hne].
    + rewrite (decide_True (P := n ∈ n :: names)) by left.
      rewrite (decide_True (P := n = n)) by done. cbn [default length replicate].
      destruct (decide (n ∈ names)) as [Hin|Hnin].
      * unfold id. by rewrite <- app_assoc.
      * assert (filter (λ n0, n0 = n) names = []) as ->.
        { apply elem_of_nil_inv. intros x [-> Hx]%list_elem_of_filter. done. }
        done.
    + rewrite (decide_False (P := n = g)) by done.
      destruct (decide (g ∈ names)) as [Hin|Hnin].
      * rewrite decide_True; [done|by right].
      * rewrite decide_False; [done|].
        rewrite not_elem_of_cons. done.
Qed.

(** [add_task] appends the task to each group it names, once per
    occurrence of the name, creating the group when it is new, and leaves
    every other group as it is. *)
Theorem add_task_groups task rsarg a σ g :
  is_Some (RewardShaping_call
             (match rsarg with
              | None => default_reward_shaping (self σ)
              | Some x => x
              end)) →
  group_get g (terminal_groups (self (add_task task rsarg a σ).2))
  = if decide (g ∈ group_names a)
    then Some (default [] (group_get g (terminal_groups (self σ)))
               ++ replicate (length (filter (λ n, n = g) (group_names a))) task)
    else group_get g (terminal_groups (self σ)).
Proof.
  intros [rs Hrs]. rewrite add_task_spec, Hrs. cbn [snd self with_self].
  unfold added. cbn [terminal_groups append_task set_reward_shaping set_terminal_groups].
  apply group_get_foldl_add.
Qed.
End AddTaskExtra.

Section InvariantsExtra.
Context {RT : Runtime} {TM : TaskMethods}.

Lemma added_keys_distinct task rs a p :
  keys_distinct p → keys_distinct (added task rs a p).
Proof.
  unfold keys_distinct, added.
  cbn [terminal_groups append_task set_reward_shaping set_terminal_groups
       set_task_has_ended].
  generalize (terminal_groups p). induction (group_names a) as [|n names IH];
    intros d Hd; cbn [foldl]; [done|].
  by apply IH, group_add_keys_distinct.
Qed.

(** The loop of [Purpose.__init__]: it stops at the first task with
    [ValueError] when the default reward shaping names no member. *)
Lemma for_each_add_default ts d σ :
  for_each ts (λ task, add_task task (Some d) (GroupName "default")) σ
  = match RewardShaping_call d with
    | Some rs =>
        (Ok (), with_self (foldl (λ p task, added task rs (GroupName "default") p)
                             (self σ) ts) σ)
    | None => match ts with [] => (Ok (), σ) | _ => (Raise ValueError, σ) end
    end.
Proof.
  revert σ. induction ts as [|t ts IH]; intros σ.
  - destruct (RewardShaping_call d); [by destruct σ|done].
  - cbn [for_each]. unfold mbind, M_bind. rewrite add_task_spec. cbv beta iota.
    destruct (RewardShaping_call d) as [rs|] eqn:Hd; [|done].
    by rewrite IH.
Qed.

Lemma Purpose_init_spec targ tr d sv σ :
  let ts := match targ with
            | OneTask task => [task]
            | NoTasks => []
            | TaskList l => l
            end in
  Purpose_init targ tr d sv σ
  = match RewardShaping_call d with
    | Some rs => (Ok (), with_self (constructed ts tr d rs sv) σ)
    | None =>
        match ts with
        | [] => (Ok (), with_self (empty_purpose tr d sv) σ)
        | _ => (Raise ValueError, with_self (empty_purpose tr d sv) σ)
        end
    end.
Proof.
  intros ts. unfold Purpose_init. fold ts. unfold mbind, M_bind.
  cbn [modify_self]. rewrite for_each_add_default.
  destruct (RewardShaping_call d); [done|]. by destruct ts.
Qed.

Lemma constructed_wf ts tr d rs sv :
  wf_purpose (constructed ts tr d rs sv) ∧ keys_distinct (constructed ts tr d rs sv).
Proof.
  unfold constructed.
  assert (wf_purpose (empty_purpose tr d sv) ∧ keys_distinct (empty_purpose tr d sv)) as H0
    by (split; [apply empty_purpose_wf|apply NoDup_nil_2]).
  revert H0. generalize (empty_purpose tr d sv).
  induction ts as [|t ts IH]; intros p [Hwf Hk]; cbn [foldl]; [done|].
  apply IH. split; [by apply added_wf|by apply added_keys_distinct].
Qed.

(** The purpose stays well formed, with distinct group names, through the
    constructor, through [add_task], through calls of [reward] and
    [is_terminal], and through [build], whether they return or raise. *)
Theorem purpose_invariants_kept :
  (∀ σ targ tr d sv,
     let σ' := (Purpose_init targ tr d sv σ).2 in
     wf_purpose (self σ') ∧ keys_distinct (self σ'))
  ∧ (∀ σ task rsarg a,
       wf_purpose (self σ) → keys_distinct (self σ) →
       let σ' := (add_task task rsarg a σ).2 in
       wf_purpose (self σ') ∧ keys_distinct (self σ'))
  ∧ (∀ σ cs,
       wf_purpose (self σ) → keys_distinct (self σ) →
       let σ' := (episode cs σ).2 in
       wf_purpose (self σ') ∧ keys_distinct (self σ'))
  ∧ (∀ σ env,
       wf_purpose (self σ) → keys_distinct (self σ) → allocated σ →
       ∃ N, ∀ fuel, N ≤ fuel →
         let σ' := (build fuel env σ).2 in
         wf_purpose (self σ') ∧ keys_distinct (self σ')).
Proof.
  split; [|split; [|split]].
  - intros σ targ tr d sv. cbv zeta. rewrite Purpose_init_spec.
    destruct (RewardShaping_call d) as [rs|].
    + apply constructed_wf.
    + assert (wf_purpose (empty_purpose tr d sv) ∧ keys_distinct (empty_purpose tr d sv))
        by (split; [apply empty_purpose_wf|apply NoDup_nil_2]).
      by destruct targ as [|t|[|t l]].
  - intros σ task rsarg a Hwf Hk. cbv zeta. rewrite add_task_spec.
    destruct (RewardShaping_call _) as [rs|]; [|done].
    split; [by apply added_wf|by apply added_keys_distinct].
  - intros σ cs Hwf Hk. cbv zeta. pose proof (episode_grows cs σ) as Hg.
    split; [by eapply grows_wf|]. unfold keys_distinct.
    by rewrite (grows_groups _ _ Hg).
  - intros σ env Hwf Hk Halloc.
    destruct (build_frame env σ Hwf Halloc) as (N & HN). exists N.
    intros fuel Hfuel. cbv zeta.
    destruct (HN fuel Hfuel) as (out & σ' & subs & -> & Hself & _).
    cbn [snd]. rewrite Hself. split; [by apply add_subtasks_wf|].
    unfold keys_distinct. by rewrite add_subtasks_groups.
Qed.

(** *** The default terminal group *)

Lemma constructed_fields ts tr d rs sv :
  tasks (constructed ts tr d rs sv) = ts
  ∧ terminal_groups (constructed ts tr d rs sv)
    = match ts with [] => [] | _ => [("default", ts)] end
  ∧ ∀ t, t ∈ ts → reward_shaping (constructed ts tr d rs sv) !! t = Some rs.
Proof.
  unfold constructed.
  assert (∀ ts p l,
            terminal_groups p = [("default", l)] →
            let p' := foldl (λ p task, added task rs (GroupName "default") p) p ts in
            tasks p' = tasks p ++ ts
            ∧ terminal_groups p' = [("default", l ++ ts)]
            ∧ ∀ t, t ∈ ts → reward_shaping p' !! t = Some rs) as Hacc.
  { clear ts. intros ts. induction ts as [|t ts IH] using rev_ind; intros p l Hp.
    - cbn. rewrite !app_nil_r. split; [done|]. split; [done|].
      intros t Ht. inversion Ht.
    - cbv zeta. rewrite foldl_app. cbn [foldl].
      destruct (IH p l Hp) as (Ht & Hg & Hrs).
      set (p' := foldl _ p ts) in *. split; [|split].
      + cbn. by rewrite Ht, app_assoc.
      + unfold added.
        cbn [terminal_groups append_task set_reward_shaping set_terminal_groups
             set_task_has_ended].
        rewrite Hg. cbn. by rewrite app_assoc.
      + intros t' [Hin| ->%list_elem_of_singleton]%elem_of_app; cbn.
        * destruct (decide (t = t')) as [-> |Hne];
            [by rewrite lookup_insert_eq|rewrite lookup_insert_ne by done; auto].
        * by rewrite lookup_insert_eq. }
  destruct ts as [|t ts]; [split; [done|split; [done|intros t Ht; inversion Ht]]|].
  cbn [foldl].
  destruct (Hacc ts (added t rs (GroupName "default") (empty_purpose tr d sv)) [t])
    as (Ht & Hg & Hrs); [done|].
  split; [by rewrite Ht|]. split; [by rewrite Hg|].
  intros t' [-> |Hin]%elem_of_cons; [|by apply Hrs].
  destruct (decide (t ∈ ts)) as [Hin|Hnin]; [by apply Hrs|].
  clear -Hnin. revert Hnin.
  generalize (empty_purpose tr d sv).
  induction ts as [|t1 ts IH] using rev_ind; intros p Hnin.
  - cbn. by rewrite lookup_insert_eq.
  - rewrite foldl_app. cbn. rewrite lookup_insert_ne.
    + apply IH. intros Hin. apply Hnin. apply elem_of_app. by left.
    + intros ->. apply Hnin. apply elem_of_app. right. left.
Qed.

(** A purpose constructed from a task or a list of tasks puts them all in
    the group "default", with the default reward shaping, and so is terminal
    exactly when every one of its tasks is flagged; constructed from no task
    it is never terminal. *)
Theorem constructor_default_group σ targ tr d rs sv cs pi pos zi :
  RewardShaping_call d = Some rs →
  let ts := match targ with
            | OneTask task => [task]
            | NoTasks => []
            | TaskList l => l
            end in
  ∃ b σ',
    (Purpose_init targ tr d sv;; episode cs;; is_terminal pi pos zi) σ = (Ok b, σ')
    ∧ tasks (self σ') = ts
    ∧ (∀ t, t ∈ ts → reward_shaping (self σ') !! t = Some rs)
    ∧ (b = true ↔ ts ≠ [] ∧ ∀ t, t ∈ ts → ended σ' t).
Proof.
  intros Hd ts. unfold mbind, M_bind. rewrite Purpose_init_spec, Hd. fold ts.
  set (σ0 := with_self (constructed ts tr d rs sv) σ).
  destruct (constructed_fields ts tr d rs sv) as (Htasks & Hgroups & Hrs).
  assert (wf_purpose (self σ0)) as Hwf by apply constructed_wf.
  destruct (episode_spec cs σ0 Hwf) as (answers & σ1 & -> & Hg1).
  destruct (is_terminal_spec pi pos zi σ1) as (b & σ' & -> & Hg2 & Hb);
    [by eapply grows_wf|].
  pose proof (grows_trans _ _ _ Hg1 Hg2) as Hg.
  exists b, σ'. split; [done|].
  split; [by rewrite (grows_tasks _ _ Hg)|].
  split; [intros t Ht; rewrite (grows_shaping _ _ Hg); by apply Hrs|].
  rewrite Hb. unfold some_group_ended. rewrite (grows_groups _ _ Hg).
  cbn [self with_self σ0]. rewrite Hgroups. split.
  - intros (g & l & Hin & Hall). destruct ts as [|t0 ts0]; [inversion Hin|].
    apply list_elem_of_singleton in Hin as [= -> ->]. done.
  - intros [Hne Hall]. destruct ts as [|t0 ts0]; [done|].
    exists "default", (t0 :: ts0). split; [left|done].
Qed.
End InvariantsExtra.

Section CallsExtra.
Context {RT : Runtime} {TM : TaskMethods}.

(** ** One call of [is_terminal], task by task *)

(** A round of the first loop, in full. *)
Lemma update_one_exact t pi pos zi σ (b : bool) :
  task_has_ended (self σ) !! t = Some b →
  update_one t pi pos zi σ
  = (Ok (),
     if b then σ
     else {| self := if (task_is_terminal t pi pos zi (objects σ t)).1
                     then set_task_has_ended t true (self σ) else self σ;
             objects := <[t := (task_is_terminal t pi pos zi (objects σ t)).2]> (objects σ);
             next_uid := next_uid σ |}).
Proof.
  intros Hb. unfold update_one. unfold_M. cbn [self]. rewrite Hb.
  destruct b; [done|]. unfold_M. cbv beta iota. unfold call_is_terminal.
  by destruct (task_is_terminal t pi pos zi (objects σ t)) as [[] s].
Qed.

Lemma update_one_elsewhere t pi pos zi σ t' :
  t' ≠ t →
  task_has_ended (self (update_one t pi pos zi σ).2) !! t' = task_has_ended (self σ) !! t'
  ∧ objects (update_one t pi pos zi σ).2 t' = objects σ t'.
Proof.
  intros Hne. destruct (task_has_ended (self σ) !! t) as [b|] eqn:Hb.
  - rewrite (update_one_exact _ _ _ _ _ b Hb). destruct b; [done|]. cbn.
    rewrite fn_lookup_insert_ne by done. split; [|done].
    destruct (task_is_terminal _ _ _ _ _).1; [|done]. cbn.
    by rewrite lookup_insert_ne.
  - unfold update_one. unfold_M. cbn [self]. by rewrite Hb.
Qed.

Lemma update_ended_elsewhere ts pi pos zi σ t' :
  t' ∉ ts →
  task_has_ended (self (update_ended ts pi pos zi σ).2) !! t' = task_has_ended (self σ) !! t'
  ∧ objects (update_ended ts pi pos zi σ).2 t' = objects σ t'.
Proof.
  revert σ. induction ts as [|t ts IH]; intros σ Hnin; [done|].
  apply not_elem_of_cons in Hnin as [Hne Hnin]. cbn [update_ended]. unfold_M.
  destruct (update_one_elsewhere t pi pos zi σ t' Hne) as [<- <-].
  destruct (update_one t pi pos zi σ) as [[[]| |] σ1]; [|done..].
  by apply IH.
Qed.

Lemma update_ended_exact ts pi pos zi : ∀ σ t,
  NoDup ts → t ∈ ts →
  (∀ t', t' ∈ ts → is_Some (task_has_ended (self σ) !! t')) →
  let σ' := (update_ended ts pi pos zi σ).2 in
  let answer := task_is_terminal t pi pos zi (objects σ t) in
  (task_has_ended (self σ) !! t = Some true →
     task_has_ended (self σ') !! t = Some true ∧ objects σ' t = objects σ t)
  ∧ (task_has_ended (self σ) !! t = Some false →
     task_has_ended (self σ') !! t = Some answer.1 ∧ objects σ' t = answer.2).
Proof.
  induction ts as [|t0 ts IH]; intros σ t Hnd Hin Hkeys; [inversion Hin|].
  apply list.NoDup_cons in Hnd as [Hnin Hnd]. cbn [update_ended]. unfold_M.
  destruct (Hkeys t0) as [b0 Hb0]; [left|].
  pose proof (update_one_exact t0 pi pos zi σ b0 Hb0) as Hone.
  pose proof (update_one_grows t0 pi pos zi σ) as Hgrow.
  destruct (decide (t = t0)) as [-> |Hne].
  - (* the head: the rest of the loop leaves it alone *)
    destruct (update_one t0 pi pos zi σ) as [o σ1]. injection Hone as -> ->.
    match goal with |- context [update_ended ts pi pos zi ?s] =>
      destruct (update_ended_elsewhere ts pi pos zi s t0 Hnin) as [Hf Ho] end.
    cbv zeta. cbn [snd]. rewrite Hf, Ho, Hb0. destruct b0.
    + split; [done|]. by intros [=].
    + split; [by intros [=]|]. intros _. cbn. rewrite fn_lookup_insert.
      split; [|done]. destruct (task_is_terminal _ _ _ _ _).1; cbn.
      * by rewrite lookup_insert_eq.
      * done.
  - apply elem_of_cons in Hin as [?|Hin]; [done|].
    destruct (update_one_elsewhere t0 pi pos zi σ t Hne) as [Hf Ho].
    destruct (update_one t0 pi pos zi σ) as [o σ1]. injection Hone as -> _.
    cbn [snd] in Hf, Ho, Hgrow. cbv zeta. cbn [snd].
    rewrite <- Hf, <- Ho. apply IH; [done|done|].
    intros t' Ht'. apply (grows_dom _ _ Hgrow), Hkeys. by right.
Qed.

(** One call of [is_terminal] on a purpose whose task list has no task
    twice: a task that was flagged stays flagged and its own [is_terminal] is
    not called; a task of the list that was not flagged is called exactly
    once, on the state passed, and its flag becomes what it answers; a task
    that is not in the list is left alone. *)
Theorem is_terminal_updates_flags σ pi pos zi t :
  wf_purpose (self σ) → NoDup (tasks (self σ)) →
  let σ' := (is_terminal pi pos zi σ).2 in
  let answer := task_is_terminal t pi pos zi (objects σ t) in
  (task_has_ended (self σ) !! t = Some true →
     task_has_ended (self σ') !! t = Some true ∧ objects σ' t = objects σ t)
  ∧ (task_has_ended (self σ) !! t = Some false →
     task_has_ended (self σ') !! t = Some answer.1 ∧ objects σ' t = answer.2)
  ∧ (t ∉ tasks (self σ) →
     task_has_ended (self σ') !! t = None ∧ objects σ' t = objects σ t).
Proof.
  intros Hwf Hnd.
  assert ((is_terminal pi pos zi σ).2
          = match tasks (self σ) with
            | [] => σ
            | _ => (update_ended (tasks (self σ)) pi pos zi σ).2
            end) as ->.
  { unfold is_terminal. unfold_M. cbn [self].
    destruct (tasks (self σ)) as [|t0 ts0] eqn:Htasks; [done|].
    destruct (update_ended _ _ _ _ σ) as [[[]| |] σ1]; [|done..].
    apply any_group_ended_state. }
  cbv zeta.
  assert (t ∉ tasks (self σ) → task_has_ended (self σ) !! t = None) as Hout.
  { intros Hnin. destruct (task_has_ended (self σ) !! t) eqn:Hf; [|done].
    exfalso. apply Hnin, (wf_ended_dom _ Hwf). eauto. }
  destruct (tasks (self σ)) as [|t0 ts0] eqn:Htasks.
  { split; [by intros ->|]. split.
    - intros Hf. assert (t ∈ []) as Hin; [|inversion Hin].
      rewrite <- Htasks. apply (wf_ended_dom _ Hwf). eauto.
    - intros Hnin. split; [by apply Hout|done]. }
  rewrite <- Htasks in *. clear Htasks.
  destruct (decide (t ∈ tasks (self σ))) as [Hin|Hnin].
  - destruct (update_ended_exact (tasks (self σ)) pi pos zi σ t Hnd Hin) as [Ht Hf].
    { intros t' Ht'. by apply (wf_ended_dom _ Hwf). }
    split; [done|]. split; [done|]. done.
  - destruct (update_ended_elsewhere (tasks (self σ)) pi pos zi σ t Hnin) as [Hf Ho].
    rewrite Hf, Ho, (Hout Hnin). split; [done|]. split; [done|]. done.
Qed.

(** ** [reward] *)

Lemma sum_rewards_exact ts pi pos zi : ∀ acc σ,
  NoDup ts →
  ∃ σ', sum_rewards ts pi pos zi acc σ
        = (Ok (foldl float_add acc
                 ((λ t, (task_reward t pi pos zi (objects σ t)).1) <$> ts)), σ')
        ∧ self σ' = self σ ∧ next_uid σ' = next_uid σ
        ∧ ∀ t, objects σ' t = if decide (t ∈ ts)
                              then (task_reward t pi pos zi (objects σ t)).2
                              else objects σ t.
Proof.
  induction ts as [|t0 ts IH]; intros acc σ Hnd.
  - exists σ. split; [done|]. split; [done|]. split; [done|]. intros t.
    rewrite decide_False; [done|apply not_elem_of_nil].
  - apply list.NoDup_cons in Hnd as [Hnin Hnd]. cbn [sum_rewards]. unfold_M.
    unfold call_reward at 1.
    destruct (task_reward t0 pi pos zi (objects σ t0)) as [r s] eqn:Hcall.
    match goal with |- context [sum_rewards ts pi pos zi ?a ?s] =>
      destruct (IH a s Hnd) as (σ' & -> & Hs & Hn & Ho) end.
    exists σ'. cbn [self next_uid objects] in *. split.
    + f_equal. rewrite fmap_cons. cbn [foldl fst]. rewrite Hcall. cbn [fst].
      f_equal. f_equal. apply list_fmap_ext. intros i t Ht.
      rewrite fn_lookup_insert_ne; [done|]. intros ->.
      apply Hnin. by eapply list_elem_of_lookup_2.
    + split; [done|]. split; [done|]. intros t. rewrite Ho.
      destruct (decide (t = t0)) as [-> |Hne].
      * rewrite decide_False by done. rewrite decide_True by left.
        by rewrite fn_lookup_insert, Hcall.
      * rewrite fn_lookup_insert_ne by done.
        destruct (decide (t ∈ ts)) as [Hin|Hnin'].
        -- rewrite decide_True; [done|by right].
        -- rewrite decide_False; [done|]. rewrite not_elem_of_cons. done.
Qed.

(** [reward] on a purpose whose task list has no task twice is the
    timestep reward with the reward of every task added in list order, each
    task called once on the state passed, whether it is flagged or not;
    [reward] returns and leaves the purpose as it is. *)
Theorem reward_sums_task_rewards σ pi pos zi :
  NoDup (tasks (self σ)) →
  ∃ σ',
    reward pi pos zi σ
    = (Ok (foldl float_add (timestep_reward (self σ))
             ((λ t, (task_reward t pi pos zi (objects σ t)).1) <$> tasks (self σ))), σ')
    ∧ self σ' = self σ
    ∧ ∀ t, objects σ' t = if decide (t ∈ tasks (self σ))
                          then (task_reward t pi pos zi (objects σ t)).2
                          else objects σ t.
Proof.
  intros Hnd. unfold reward. unfold_M. cbn [self].
  destruct (sum_rewards_exact (tasks (self σ)) pi pos zi (timestep_reward (self σ)) σ Hnd)
    as (σ' & Hrun & Hs & _ & Ho).
  destruct (tasks (self σ)) as [|t0 ts0] eqn:Htasks.
  - exists σ. split; [done|]. split; [done|]. intros t.
    rewrite decide_False; [done|apply not_elem_of_nil].
  - exists σ'. by rewrite Hrun.
Qed.

(** [reward] neither reads nor writes the flags: with any other flags it
    returns the same reward and leaves those flags in place. *)
Theorem reward_ignores_flags σ pi pos zi m :
  reward pi pos zi (with_flags m σ)
  = ((reward pi pos zi σ).1, with_flags m (reward pi pos zi σ).2).
Proof.
  unfold reward. unfold_M. cbn [self with_flags tasks timestep_reward].
  destruct (tasks (self σ)) as [|t0 ts0]; [done|].
  generalize (t0 :: ts0). intros ts.
  pose proof (sum_rewards_with_self ts pi pos zi (timestep_reward (self σ))
                (self (with_flags m σ)) σ) as Hw.
  destruct (sum_rewards_ok ts pi pos zi (timestep_reward (self σ)) σ)
    as (r & σ' & Hrun & Hs & Hn).
  unfold with_self in Hw. cbn [self with_flags] in Hw.
  unfold with_flags at 1. rewrite Hw, Hrun. cbn [fst snd].
  unfold with_flags. by rewrite Hs.
Qed.
End CallsExtra.

Section ShapingExtra.
Context {RT : Runtime} {TM : TaskMethods}.

(** ** ALL shaping *)

Lemma plans_all_or_none sh env ts :
  (∀ t, t ∈ ts → sh !! t = Some ALL_ACHIVEMENTS ∨ sh !! t = Some NONE) →
  plans sh env ts
  = inr (t ← ts; if decide (sh !! t = Some ALL_ACHIVEMENTS)
                 then world_kinds (world env) else []).
Proof.
  induction ts as [|t ts IH]; intros Hall; [done|].
  cbn [plans]. rewrite IH by (intros t' Ht'; apply Hall; by right).
  rewrite bind_cons.
  destruct (Hall t) as [Ht|Ht]; [left| |]; rewrite Ht; cbn [shaping_plan].
  - by rewrite decide_True.
  - by rewrite decide_False.
Qed.

(** ALL shaping asks for the same subtasks whatever the task, of a
    supported class or not: one [GetItemTask] per item of the world, one
    [GoToZoneTask] per zone and one [PlaceItemTask] per zone item, in the
    order of the world.  So [build] on a purpose whose tasks have shaping ALL
    or NONE returns, and appends that whole list once for every task with
    shaping ALL. *)
Theorem all_shaping_any_task env σ :
  wf_purpose (self σ) → allocated σ →
  (∀ t, t ∈ tasks (self σ) →
        reward_shaping (self σ) !! t = Some ALL_ACHIVEMENTS
        ∨ reward_shaping (self σ) !! t = Some NONE) →
  ∃ N, ∀ fuel, N ≤ fuel →
    ∃ σ' subs,
      build fuel env σ = (Ok (), σ')
      ∧ tasks (self σ') = tasks (self σ) ++ subs
      ∧ task_kind <$> subs
        = (t ← tasks (self σ);
           if decide (reward_shaping (self σ) !! t = Some ALL_ACHIVEMENTS)
           then world_kinds (world env) else []).
Proof.
  intros Hwf Halloc Hall.
  destruct (build_frame env σ Hwf Halloc) as (N & HN). exists N.
  intros fuel Hfuel.
  destruct (HN fuel Hfuel) as (out & σ' & subs & Hrun & Hself & _ & Hplans).
  rewrite (plans_all_or_none _ _ _ Hall) in Hplans.
  destruct Hplans as (-> & -> & _). eexists σ', _.
  split; [done|]. rewrite Hself, add_subtasks_tasks. split; [done|].
  apply fresh_tasks_kinds.
Qed.

(** ** REQUIRED shaping *)

Lemma add_ancestors_in anc r x :
  in_relevant (add_ancestors anc r) x ↔ in_relevant r x ∨ x ∈ anc.
Proof.
  unfold add_ancestors. destruct x as [i|z|i]; cbn [in_relevant relevant_items
    relevant_zones relevant_zone_items]; rewrite elem_of_union, elem_of_set_omap.
  - split; [intros [?|([]& Hn & [= ->])]; auto|].
    intros [?|?]; [by left|right]. by exists (ItemNode i).
  - split; [intros [?|([]& Hn & [= ->])]; auto|].
    intros [?|?]; [by left|right]. by exists (ZoneNode z).
  - split; [intros [?|([]& Hn & [= ->])]; auto|].
    intros [?|?]; [by left|right]. by exists (ZoneItemNode i).
Qed.

(** The loop over the goal nodes: [NetworkXError] at the first node that is
    not in the graph, else every proper ancestor of a goal node is collected. *)
Lemma required_loop_spec G goal_nodes : ∀ r0,
  (∀ n, n ∈ goal_nodes → n ∈ nodes G) →
  ∃ r, required_loop G goal_nodes r0 = inr r
       ∧ ∀ x, in_relevant r x ↔
                in_relevant r0 x
                ∨ ∃ n, n ∈ goal_nodes ∧ x ≠ n ∧ rtc (edge G) x n.
Proof.
  induction goal_nodes as [|n ns IH]; intros r0 Hin.
  - exists r0. split; [done|]. intros x. split; [by left|].
    intros [?|(n & Hn & _)]; [done|inversion Hn].
  - cbn [required_loop].
    destruct (proj2 (ancestors_is_Some G n)) as [anc Hanc]; [apply Hin; left|].
    rewrite Hanc.
    destruct (IH (add_ancestors anc r0)) as (r & -> & Hr);
      [intros n' Hn'; apply Hin; by right|].
    exists r. split; [done|]. intros x.
    rewrite Hr, add_ancestors_in, (ancestors_spec G n anc x Hanc). split.
    + intros [[?|[? ?]]|(n' & Hn' & ? & ?)]; [by left|right..].
      * exists n. split; [left|done].
      * exists n'. split; [by right|done].
    + intros [?|(n' & [-> |Hn']%elem_of_cons & ? & ?)]; [left; by left|left; by right|].
      right. by exists n'.
Qed.

Lemma required_loop_missing G goal_nodes : ∀ r0,
  (∃ n, n ∈ goal_nodes ∧ n ∉ nodes G) →
  required_loop G goal_nodes r0 = inl NetworkXError.
Proof.
  induction goal_nodes as [|n ns IH]; intros r0 (n' & Hn' & Hmiss); [inversion Hn'|].
  cbn [required_loop]. destruct (ancestors G n) as [anc|] eqn:Hanc; [|done].
  apply IH. exists n'. split; [|done].
  apply elem_of_cons in Hn' as [-> |?]; [|done].
  exfalso. apply Hmiss, ancestors_is_Some. eauto.
Qed.

Lemma kinds_of_relevant_nodes r k :
  k ∈ kinds_of_relevant r ↔ ∃ x, in_relevant r x ∧ k = subtask_of_node x.
Proof.
  rewrite kinds_of_relevant_elem. split.
  - intros [(i & ? & ->)|[(z & ? & ->)|(i & ? & ->)]].
    + by exists (ItemNode i).
    + by exists (ZoneNode z).
    + by exists (ZoneItemNode i).
  - intros ([i|z|i] & ? & ->); eauto 6.
Qed.

Lemma required_relevant_loop kind env :
  is_supported kind = true →
  required_relevant kind env
  = required_loop (requirements_graph env) (goal_requirement_nodes kind)
      {| relevant_items := ∅; relevant_zones := list_to_set (candidate_zones kind);
         relevant_zone_items := ∅ |}.
Proof. by destruct kind. Qed.

(** The sets [_required_subtasks] has collected when its loops are over,
    on a task of a supported class whose goal nodes are in the graph. *)
Lemma required_subtasks_run env t reward σ :
  is_supported (task_kind t) = true →
  (∀ n, n ∈ goal_requirement_nodes (task_kind t) → n ∈ nodes (requirements_graph env)) →
  ∃ r σ',
    _required_subtasks t env reward σ
    = (Ok (fresh_tasks (next_uid σ) (kinds_of_relevant r)), σ')
    ∧ ∀ x, in_relevant r x ↔
        (∃ z, z ∈ candidate_zones (task_kind t) ∧ x = ZoneNode z)
        ∨ ∃ n, n ∈ goal_requirement_nodes (task_kind t)
               ∧ x ≠ n ∧ rtc (edge (requirements_graph env)) x n.
Proof.
  intros Hsup Hnodes.
  destruct (required_loop_spec (requirements_graph env)
              (goal_requirement_nodes (task_kind t))
              {| relevant_items := ∅;
                 relevant_zones := list_to_set (candidate_zones (task_kind t));
                 relevant_zone_items := ∅ |} Hnodes) as (r & Hloop & Hr).
  destruct (subtasks_of_relevant_spec r reward σ) as (σ' & Hrun & _).
  exists r, σ'. split.
  { unfold _required_subtasks. unfold_M.
    by rewrite required_relevant_loop, Hloop. }
  intros x. rewrite Hr. split.
  - intros [Hx0|Hx]; [left|by right].
    destruct x as [i|z|i]; cbn in Hx0.
    + by apply elem_of_empty in Hx0.
    + apply elem_of_list_to_set in Hx0. eauto.
    + by apply elem_of_empty in Hx0.
  - intros [(z & Hz & ->)|Hx]; [left|by right]. cbn.
    by apply elem_of_list_to_set.
Qed.

(** REQUIRED shaping on a task of a supported class whose goal nodes are
    in the graph returns one subtask per node from which a path leads to a
    goal node, the goal node itself left out, and, for a [PlaceItemTask], one
    [GoToZoneTask] per candidate zone, none of them twice. *)
Theorem required_shaping_ancestors env t reward σ :
  is_supported (task_kind t) = true →
  (∀ n, n ∈ goal_requirement_nodes (task_kind t) → n ∈ nodes (requirements_graph env)) →
  ∃ σ' subs,
    _required_subtasks t env reward σ = (Ok subs, σ')
    ∧ NoDup (task_kind <$> subs)
    ∧ ∀ k, k ∈ task_kind <$> subs ↔
        (∃ z, z ∈ candidate_zones (task_kind t) ∧ k = GoToZoneTask z)
        ∨ ∃ n x, n ∈ goal_requirement_nodes (task_kind t)
                 ∧ x ≠ n ∧ rtc (edge (requirements_graph env)) x n
                 ∧ k = subtask_of_node x.
Proof.
  intros Hsup Hnodes.
  destruct (required_subtasks_run env t reward σ Hsup Hnodes) as (r & σ' & Hrun & Hr).
  exists σ', (fresh_tasks (next_uid σ) (kinds_of_relevant r)). split; [done|].
  rewrite fresh_tasks_kinds. split; [apply kinds_of_relevant_NoDup|].
  intros k. rewrite kinds_of_relevant_nodes. split.
  - intros (x & [(z & Hz & ->)|(n & Hn & Hne & Hp)]%Hr & ->).
    + left. by exists z.
    + right. by exists n, x.
  - intros [(z & Hz & ->)|(n & x & Hn & Hne & Hp & ->)].
    + exists (ZoneNode z). split; [|done]. apply Hr. left. by exists z.
    + exists x. split; [|done]. apply Hr. right. by exists n.
Qed.

(** REQUIRED shaping raises [NetworkXError] when a goal node of the task
    is not a node of the requirements graph, before any subtask is
    constructed. *)
Theorem required_shaping_missing_node env t reward σ n :
  is_supported (task_kind t) = true →
  n ∈ goal_requirement_nodes (task_kind t) →
  n ∉ nodes (requirements_graph env) →
  _required_subtasks t env reward σ = (Raise NetworkXError, σ).
Proof.
  intros Hsup Hn Hmiss. unfold _required_subtasks. unfold_M.
  rewrite required_relevant_loop by done.
  rewrite required_loop_missing; [done|]. by exists n.
Qed.

(** REQUIRED shaping never makes a subtask of the goal of a [GetItemTask]
    or of a [GoToZoneTask] itself, also when the graph has a cycle through
    the goal. *)
Theorem required_shaping_excludes_goal env t reward σ subs σ' :
  _required_subtasks t env reward σ = (Ok subs, σ') →
  match task_kind t with
  | GetItemTask stack => GetItemTask (stack_of_item (item stack)) ∉ task_kind <$> subs
  | GoToZoneTask z => GoToZoneTask z ∉ task_kind <$> subs
  | _ => True
  end.
Proof.
  intros Hrun.
  assert (∀ goal, is_supported (task_kind t) = true →
            goal_requirement_nodes (task_kind t) = [goal] →
            candidate_zones (task_kind t) = [] →
            subtask_of_node goal ∉ task_kind <$> subs) as Hgoal.
  { intros goal Hsup Hg Hc Hin.
    destruct (decide (goal ∈ nodes (requirements_graph env))) as [Hnode|Hmiss].
    - destruct (required_subtasks_run env t reward σ Hsup)
        as (r & σ1 & Hrun1 & Hr).
      { rewrite Hg. by intros n ->%list_elem_of_singleton. }
      rewrite Hrun in Hrun1. injection Hrun1 as -> <-.
      rewrite fresh_tasks_kinds in Hin.
      apply kinds_of_relevant_nodes in Hin as (x & Hx & Heq).
      apply Hr in Hx as [(z & Hz & _)|(n & Hn & Hne & _)].
      + rewrite Hc in Hz. inversion Hz.
      + rewrite Hg in Hn. apply list_elem_of_singleton in Hn as ->.
        apply Hne. destruct goal, x; unfold subtask_of_node, stack_of_item in Heq;
          congruence.
    - revert Hrun. unfold _required_subtasks. unfold_M.
      rewrite required_relevant_loop by done.
      rewrite required_loop_missing; [done|]. exists goal. rewrite Hg.
      split; [left|done]. }
  destruct (task_kind t) as [stack|z|stack zs|c] eqn:Hkind; [| |done..].
  - by apply (Hgoal (ItemNode (item stack))).
  - by apply (Hgoal (ZoneNode z)).
Qed.

(** ** INPUTS shaping *)

(** A transformation that consumes the goal item of a [GetItemTask] counts
    for nothing in INPUTS shaping, whatever it produces: with or without it
    the subtasks are the same. *)
Theorem inputs_shaping_skips_consumers env t stack reward σ transfo ts :
  task_kind t = GetItemTask stack →
  item stack ∈ consumed_items transfo →
  ∃ σ1 subs1 σ2 subs2,
    _inputs_subtasks t (with_transformations (transfo :: ts) env) reward σ = (Ok subs1, σ1)
    ∧ _inputs_subtasks t (with_transformations ts env) reward σ = (Ok subs2, σ2)
    ∧ ∀ k, k ∈ task_kind <$> subs1 ↔ k ∈ task_kind <$> subs2.
Proof.
  intros Hkind Hcons.
  assert (is_supported (task_kind t) = true) as Hsup by by rewrite Hkind.
  destruct (inputs_relevant_spec (task_kind t)
              (with_transformations (transfo :: ts) env) Hsup) as (r1 & Hr1 & Hk1).
  destruct (inputs_relevant_spec (task_kind t)
              (with_transformations ts env) Hsup) as (r2 & Hr2 & Hk2).
  destruct (subtasks_of_relevant_spec r1 reward σ) as (σ1 & Hrun1 & _).
  destruct (subtasks_of_relevant_spec r2 reward σ) as (σ2 & Hrun2 & _).
  exists σ1, (fresh_tasks (next_uid σ) (kinds_of_relevant r1)),
         σ2, (fresh_tasks (next_uid σ) (kinds_of_relevant r2)).
  split; [unfold _inputs_subtasks; unfold_M; by rewrite Hr1|].
  split; [unfold _inputs_subtasks; unfold_M; by rewrite Hr2|].
  intros k. rewrite !fresh_tasks_kinds, Hk1, Hk2, Hkind.
  rewrite !code_inputs_spec by done. unfold spec_inputs.
  cbn [transformations with_transformations spec_produces_goal]. split.
  - intros (t0 & [-> |Ht0]%elem_of_cons & [Hp Hc] & Hsub); [done|].
    by exists t0.
  - intros (t0 & Ht0 & Hp & Hsub). exists t0. split; [by right|done].
Qed.
End ShapingExtra.

Section BuildExtra.
Context {RT : Runtime} {TM : TaskMethods}.

(** ** What [build] does to the task objects *)

Lemma fresh_tasks_NoDup start ks : NoDup (fresh_tasks start ks).
Proof.
  revert start. induction ks as [|k ks IH]; intros start; [apply NoDup_nil_2|].
  cbn [fresh_tasks]. apply NoDup_cons_2; [|apply IH].
  intros Hin%fresh_tasks_uid. cbn in Hin. lia.
Qed.

Lemma map_each_new_task_objects ks r : ∀ σ t,
  objects (map_each ks (λ kind, new_task kind r) σ).2 t
  = if decide (t ∈ fresh_tasks (next_uid σ) ks) then task_init (task_kind t) r
    else objects σ t.
Proof.
  induction ks as [|k ks IH]; intros σ t.
  - rewrite decide_False; [done|apply not_elem_of_nil].
  - cbn [map_each fresh_tasks]. unfold_M. unfold new_task at 1. cbv beta iota zeta.
    match goal with |- context [map_each ks _ ?s] =>
      pose proof (IH s t) as Ht;
      destruct (map_each_new_task ks r s) as (σ' & Hrun & _) end.
    rewrite Hrun in Ht |- *. cbn [snd objects next_uid] in Ht |- *. rewrite Ht.
    set (t0 := {| task_uid := next_uid σ; task_kind := k |}).
    destruct (decide (t = t0)) as [-> |Hne].
    + rewrite (decide_True (P := t0 ∈ t0 :: _)) by left.
      rewrite decide_False; [by rewrite fn_lookup_insert|].
      intros Hin%fresh_tasks_uid. cbn in Hin. lia.
    + rewrite fn_lookup_insert_ne by done.
      destruct (decide (t ∈ fresh_tasks (Pos.succ (next_uid σ)) ks)) as [Hin|Hnin].
      * rewrite decide_True; [done|by right].
      * rewrite decide_False; [done|]. rewrite not_elem_of_cons. done.
Qed.

(** The first loop of [build] constructs the planned subtasks with the
    shaping value of the purpose and touches no other task object. *)
Lemma build_loop_objects env rest : ∀ pre app0 σ ks,
  tasks (self σ) = pre ++ rest ++ app0 →
  allocated σ →
  (∀ t, t ∈ app0 → reward_shaping (self σ) !! t = Some NONE) →
  plans (reward_shaping (self σ)) env rest = inr ks →
  ∀ fuel, length rest + length app0 + length ks < fuel →
  ∀ t, objects (build_loop fuel env (length pre) σ).2 t
       = if decide (t ∈ fresh_tasks (next_uid σ) ks)
         then task_init (task_kind t) (shaping_value (self σ))
         else objects σ t.
Proof.
  induction rest as [|t0 rest IH]; intros pre app0 σ ks Htasks Halloc Happ0 Hplans.
  { injection Hplans as <-. intros fuel Hfuel t.
    rewrite build_loop_tail.
    - rewrite decide_False; [done|apply not_elem_of_nil].
    - intros j t' Hj Hlook. apply Happ0. rewrite Htasks in Hlook. simpl in Hlook.
      rewrite lookup_app_r in Hlook by done. by eapply list_elem_of_lookup_2.
    - rewrite Htasks. simpl. rewrite length_app. simpl in Hfuel. lia. }
  assert (tasks (self σ) !! length pre = Some t0) as Hlook.
  { rewrite Htasks. simpl. by apply list_lookup_middle. }
  cbn [plans] in Hplans.
  destruct (reward_shaping (self σ) !! t0) as [rs|] eqn:Hrs; [|done].
  destruct (shaping_plan (task_kind t0) env rs) as [e|ks1] eqn:Hplan; [done|].
  destruct (plans (reward_shaping (self σ)) env rest) as [e|ks2] eqn:Hrest; [done|].
  injection Hplans as <-.
  destruct (map_each_new_task ks1 (shaping_value (self σ)) σ) as (σa & Hmap & Hsa & Hna).
  pose proof (map_each_new_task_objects ks1 (shaping_value (self σ)) σ) as Hobj.
  rewrite Hmap in Hobj. cbn [snd] in Hobj.
  set (subs1 := fresh_tasks (next_uid σ) ks1) in *.
  set (σ1 := with_self (add_subtasks subs1 (self σa)) σa).
  assert (∀ s, s ∈ subs1 → ∀ t', t' ∈ tasks (self σ) → s ≠ t') as Hfresh.
  { intros s Hs t' Ht' ->. apply fresh_tasks_uid in Hs. apply Halloc in Ht'. lia. }
  assert (tasks (self σ1) = (pre ++ [t0]) ++ rest ++ (app0 ++ subs1)) as Htasks1.
  { simpl. rewrite add_subtasks_tasks, Hsa, Htasks. by rewrite <- !app_assoc. }
  assert (allocated σ1) as Halloc1.
  { intros t'. simpl. rewrite add_subtasks_tasks, Hsa.
    intros [Hin|Hin]%elem_of_app.
    - apply Halloc in Hin. lia.
    - apply fresh_tasks_uid_lt in Hin. lia. }
  assert (∀ t', t' ∈ app0 ++ subs1 → reward_shaping (self σ1) !! t' = Some NONE) as Happ1.
  { intros t'. simpl. rewrite add_subtasks_shaping, Hsa.
    destruct (decide (t' ∈ subs1)); [done|].
    intros [Hin|Hin]%elem_of_app; [by apply Happ0|done]. }
  assert (plans (reward_shaping (self σ1)) env rest = inr ks2) as Hplans1.
  { rewrite <- Hrest. apply plans_ext. intros t' Ht'. simpl.
    rewrite add_subtasks_shaping, Hsa.
    rewrite decide_False; [done|]. intros Hin. apply (Hfresh t' Hin t'); [|done].
    rewrite Htasks. rewrite !elem_of_app. right. left. by right. }
  specialize (IH (pre ++ [t0]) (app0 ++ subs1) σ1 ks2 Htasks1 Halloc1 Happ1 Hplans1).
  assert (length (pre ++ [t0]) = S (length pre)) as Hlen
    by (rewrite length_app; simpl; lia).
  rewrite Hlen in IH.
  intros [|fuel] Hfuel t; [simpl in Hfuel; lia|].
  assert (build_loop (S fuel) env (length pre) σ
          = build_loop fuel env (S (length pre)) σ1) as ->.
  { cbn [build_loop]. unfold_M; cbn [self]. rewrite Hlook, Hrs. unfold_M.
    rewrite add_reward_shaping_subtasks_spec, Hplan, Hmap.
    by rewrite for_each_add_subtask. }
  rewrite IH.
  2:{ simpl in Hfuel. rewrite !length_app in *.
      unfold subs1. rewrite fresh_tasks_length. lia. }
  cbn [σ1 with_self self objects next_uid].
  destruct (add_subtasks_value subs1 (self σa)) as (-> & _ & _).
  rewrite Hsa, Hobj.
  rewrite (fresh_tasks_app (next_uid σ) (next_uid σa) ks1 ks2 Hna).
  fold subs1.
  destruct (decide (t ∈ fresh_tasks (next_uid σa) ks2)) as [H2|H2].
  - rewrite decide_True; [done|]. apply elem_of_app. by right.
  - destruct (decide (t ∈ subs1)) as [H1|H1].
    + rewrite decide_True; [done|]. apply elem_of_app. by left.
    + rewrite decide_False; [done|]. rewrite elem_of_app. tauto.
Qed.

Lemma for_each_call_build_objects w ts : ∀ σ t,
  NoDup ts →
  objects (for_each ts (λ task, call_build task w) σ).2 t
  = if decide (t ∈ ts) then task_build t w (objects σ t) else objects σ t.
Proof.
  induction ts as [|t0 ts IH]; intros σ t Hnd.
  - rewrite decide_False; [done|apply not_elem_of_nil].
  - apply list.NoDup_cons in Hnd as [Hnin Hnd]. cbn [for_each]. unfold_M.
    unfold call_build at 1. cbv beta iota zeta. rewrite IH by done.
    cbn [objects]. destruct (decide (t = t0)) as [-> |Hne].
    + rewrite decide_False by done. rewrite decide_True by left.
      by rewrite fn_lookup_insert.
    + rewrite fn_lookup_insert_ne by done.
      destruct (decide (t ∈ ts)) as [Hin|Hnin'].
      * rewrite decide_True; [done|by right].
      * rewrite decide_False; [done|]. rewrite not_elem_of_cons. done.
Qed.

Lemma build_nonempty fuel env σ σ1 :
  tasks (self σ) ≠ [] →
  build_loop fuel env 0 σ = (Ok (), σ1) →
  build fuel env σ
  = for_each (tasks (self σ1)) (λ task, call_build task (world env)) σ1.
Proof.
  intros Hne Hrun. unfold build. unfold_M. cbn [self].
  destruct (tasks (self σ)); [done|]. by rewrite Hrun.
Qed.

(** A [build] that returns has constructed every subtask with the shaping
    value of the purpose as its reward, and has called [build] of every task
    once, of the tasks it found and of the subtasks it made; no other task
    object is touched.  (The task list is taken without a task twice.) *)
Theorem build_binds_every_task env σ ks :
  wf_purpose (self σ) → allocated σ → NoDup (tasks (self σ)) →
  plans (reward_shaping (self σ)) env (tasks (self σ)) = inr ks →
  ∃ N, ∀ fuel, N ≤ fuel →
    ∃ σ', build fuel env σ = (Ok (), σ')
      ∧ tasks (self σ') = tasks (self σ) ++ fresh_tasks (next_uid σ) ks
      ∧ ∀ t, objects σ' t
             = if decide (t ∈ fresh_tasks (next_uid σ) ks)
               then task_build t (world env)
                      (task_init (task_kind t) (shaping_value (self σ)))
               else if decide (t ∈ tasks (self σ))
                    then task_build t (world env) (objects σ t)
                    else objects σ t.
Proof.
  intros Hwf Halloc Hnd Hplans.
  pose proof (build_spec env σ Hwf Halloc) as Hb. rewrite Hplans in Hb.
  exists (S (length (tasks (self σ)) + length ks)). intros fuel Hfuel.
  destruct (Hb fuel) as (σ' & Hrun & Hself & _); [lia|].
  exists σ'. split; [done|]. split; [by rewrite Hself, add_subtasks_tasks|].
  destruct (decide (tasks (self σ) = [])) as [Htasks|Htasks].
  { revert Hplans Hrun. unfold build. unfold_M. cbn [self]. rewrite Htasks.
    intros [= <-] [= <-]. intros t.
    rewrite !decide_False; [done|apply not_elem_of_nil..]. }
  pose proof (build_loop_objects env (tasks (self σ)) [] [] σ ks) as Hobj.
  rewrite app_nil_r in Hobj. specialize (Hobj eq_refl Halloc).
  assert (∀ t : Task, t ∈ [] → reward_shaping (self σ) !! t = Some NONE) as Hnil
    by (intros t Ht; inversion Ht).
  specialize (Hobj Hnil Hplans fuel). cbn [length] in Hobj.
  pose proof (build_loop_spec env (tasks (self σ)) [] [] σ) as Hloop.
  rewrite app_nil_r in Hloop. specialize (Hloop eq_refl Halloc Hnil).
  rewrite Hplans in Hloop. cbn [length] in Hloop.
  destruct (Hloop fuel) as (σ1 & Hrun1 & Hself1 & _); [lia|].
  rewrite Hrun1 in Hobj. cbn [snd] in Hobj.
  assert (σ' = (for_each (tasks (self σ1)) (λ task, call_build task (world env)) σ1).2)
    as ->.
  { rewrite (build_nonempty fuel env σ σ1 Htasks Hrun1) in Hrun. by rewrite Hrun. }
  assert (tasks (self σ1) = tasks (self σ) ++ fresh_tasks (next_uid σ) ks) as Htasks1
    by (rewrite Hself1; apply add_subtasks_tasks).
  intros t. rewrite for_each_call_build_objects.
  2:{ rewrite Htasks1. apply list.NoDup_app. split; [done|]. split; [|apply fresh_tasks_NoDup].
      intros t' Ht' Hf. apply Halloc in Ht'. apply fresh_tasks_uid in Hf. lia. }
  rewrite Htasks1, Hobj by lia.
  destruct (decide (t ∈ fresh_tasks (next_uid σ) ks)) as [Hf|Hf].
  - rewrite decide_True; [done|]. apply elem_of_app. by right.
  - destruct (decide (t ∈ tasks (self σ))) as [Hin|Hnin].
    + rewrite decide_True; [done|]. apply elem_of_app. by left.
    + rewrite decide_False; [done|]. rewrite elem_of_app. tauto.
Qed.

(** [build] on a purpose in which no task asks for reward shaping leaves
    the purpose as it is, and on a purpose without tasks it returns at once,
    with no fuel at all, and calls nothing. *)
Theorem build_without_shaping env σ :
  (tasks (self σ) = [] → ∀ fuel, build fuel env σ = (Ok (), σ))
  ∧ (wf_purpose (self σ) → allocated σ →
     (∀ t, t ∈ tasks (self σ) → reward_shaping (self σ) !! t = Some NONE) →
     ∀ fuel, length (tasks (self σ)) < fuel →
       ∃ σ', build fuel env σ = (Ok (), σ') ∧ self σ' = self σ
             ∧ next_uid σ' = next_uid σ).
Proof.
  split.
  - intros Htasks fuel. unfold build. unfold_M. cbn [self]. by rewrite Htasks.
  - intros Hwf Halloc Hnone fuel Hfuel.
    pose proof (build_spec env σ Hwf Halloc) as Hb.
    rewrite (plans_none _ _ _ Hnone) in Hb.
    destruct (Hb fuel) as (σ' & Hrun & Hself & Hn); [simpl; lia|].
    exists σ'. split; [done|]. split; [done|].
    apply Pos2Nat.inj. simpl in Hn. lia.
Qed.

(** ** [optional_tasks] *)

(** [optional_tasks] lists, in the order of the task list, the tasks that
    are in no terminal group; after [build] every subtask it appended is one
    of them. *)
Theorem optional_tasks_spec :
  (∀ (p : Purpose) t, t ∈ optional_tasks p ↔ t ∈ tasks p ∧ optional p t)
  ∧ (∀ env σ,
       wf_purpose (self σ) → allocated σ →
       ∃ N, ∀ fuel, N ≤ fuel →
         ∃ out σ' subs,
           build fuel env σ = (out, σ')
           ∧ tasks (self σ') = tasks (self σ) ++ subs
           ∧ ∀ s, s ∈ subs → s ∈ optional_tasks (self σ')).
Proof.
  assert (∀ (p : Purpose) t, t ∈ optional_tasks p ↔ t ∈ tasks p ∧ optional p t) as Hopt.
  { intros p t. unfold optional_tasks, optional. rewrite list_elem_of_filter.
    assert (t ∈ concat (terminal_groups p).*2
            ↔ ∃ g ts, (g, ts) ∈ terminal_groups p ∧ t ∈ ts) as Hc.
    { rewrite list_elem_of_In, in_concat. setoid_rewrite <- list_elem_of_In.
      split.
      - intros (ts & ([g ts'] & Heq & Hin)%list_elem_of_fmap & Ht).
        cbn in Heq. subst ts. by exists g, ts'.
      - intros (g & ts & Hin & Ht). exists ts. split; [|done].
        apply list_elem_of_fmap. by exists (g, ts). }
    rewrite Hc. split.
    - intros [Hn Ht]. split; [done|]. intros g ts Hin Hts. apply Hn. eauto.
    - intros [Ht Hn]. split; [|done]. intros (g & ts & Hin & Hts). by apply (Hn g ts). }
  split; [done|].
  intros env σ Hwf Halloc.
  destruct (build_frame env σ Hwf Halloc) as (N & HN). exists N.
  intros fuel Hfuel.
  destruct (HN fuel Hfuel) as (out & σ' & subs & Hrun & Hself & Huid & _).
  exists out, σ', subs. split; [done|].
  destruct (add_subtasks_fresh subs σ Hwf Halloc Huid) as [Hnew _].
  rewrite Hself. split; [apply add_subtasks_tasks|].
  intros s Hs. apply Hopt. split; [|by apply Hnew].
  rewrite add_subtasks_tasks. apply elem_of_app. by right.
Qed.
End BuildExtra.

Section StrExtra.
Context {RT : Runtime}.
Variable task_str : Task → string.

(** ** [__str__] *)

Lemma tasks_str_is_Some (p : Purpose) ts :
  (∀ t, t ∈ ts → t ∈ tasks p) → wf_purpose p →
  is_Some (_tasks_str task_str p ts).
Proof.
  intros Hin Hwf. unfold _tasks_str.
  match goal with |- context [mapM ?f ts] =>
    assert (is_Some (mapM f ts)) as [l ->] end; [|by eexists].
  apply mapM_is_Some, list.Forall_forall. intros t Ht. unfold compose.
  destruct (proj2 (wf_shaping_dom _ Hwf t) (Hin t Ht)) as [rs ->]. by eexists.
Qed.

(** [str(purpose)] never fails with the [KeyError] of
    [self.reward_shaping[task]] on a purpose made by the constructor,
    [add_task] and [build], and the purpose without tasks prints as
    [Purpose()]. *)
Theorem Purpose_str_returns (p : Purpose) :
  wf_purpose p →
  ∃ s, Purpose_str task_str p = Some s
       ∧ (tasks p = [] → s = "Purpose()"%string).
Proof.
  intros Hwf.
  assert (∀ t, t ∈ optional_tasks p → t ∈ tasks p) as Hopt.
  { intros t. unfold optional_tasks. rewrite list_elem_of_filter. tauto. }
  destruct (tasks_str_is_Some p (optional_tasks p) Hopt Hwf) as [so Hso].
  unfold Purpose_str.
  match goal with |- context [mapM ?f (terminal_groups p)] =>
    assert (is_Some (mapM f (terminal_groups p))) as [l Hl] end.
  { apply mapM_is_Some, list.Forall_forall. intros [g ts] Hg. unfold compose.
    destruct (wf_groups _ Hwf g ts Hg) as [_ Hts].
    destruct (tasks_str_is_Some p ts Hts Hwf) as [s ->]. by eexists. }
  rewrite Hl, Hso. cbn [mbind option_bind]. eexists. split; [done|].
  intros Hnil.
  assert (terminal_groups p = []) as Hg.
  { destruct (terminal_groups p) as [|[g ts] gs] eqn:Heq; [done|].
    destruct (wf_groups _ Hwf g ts) as [Hne Hts]; [rewrite Heq; left|].
    destruct ts as [|t ts]; [done|]. specialize (Hts t). rewrite Hnil in Hts.
    exfalso. eapply not_elem_of_nil, Hts. left. }
  rewrite Hg in Hl. injection Hl as <-.
  revert Hso. unfold optional_tasks. rewrite Hnil. intros [= <-]. done.
Qed.
End StrExtra.

(** * The claims on the purposes of the test suite *)

#[local] Existing Instances Demo.runtime Demo.methods.

Lemma multi_wf : wf_purpose (self Demo.multi).
Proof. unfold Demo.multi. cbn [self]. repeat apply added_wf. apply empty_purpose_wf. Qed.

Lemma multi_at_0_wf : wf_purpose (self Demo.multi_at_0).
Proof. eapply grows_wf; [apply is_terminal_grows|apply multi_wf]. Qed.

Lemma multi_optional : optional (self Demo.multi) (Demo.go_to 4).
Proof.
  intros g ts Hin Hts. cbn in Hin.
  repeat (apply elem_of_cons in Hin as [[= -> ->]|Hin]); [| |inversion Hin].
  - repeat (apply elem_of_cons in Hts as [[=]|Hts]). inversion Hts.
  - repeat (apply elem_of_cons in Hts as [[=]|Hts]). inversion Hts.
Qed.

Lemma shaped_wf : wf_purpose (self Demo.shaped).
Proof. unfold Demo.shaped. cbn [self]. apply added_wf, empty_purpose_wf. Qed.

Lemma shaped_allocated : allocated Demo.shaped.
Proof.
  intros t Ht. cbn in Ht. apply list_elem_of_singleton in Ht as ->. cbn. lia.
Qed.

Lemma unsupported_wf : wf_purpose (self Demo.unsupported).
Proof. unfold Demo.unsupported. cbn [self]. apply added_wf, empty_purpose_wf. Qed.

Lemma unsupported_allocated : allocated Demo.unsupported.
Proof.
  intros t Ht. cbn in Ht. apply list_elem_of_singleton in Ht as ->. cbn. lia.
Qed.

(** C1 on the purpose of the tests, after a call of [reward]. *)
Lemma is_terminal_any_group_all_ended_witness :
  wf_purpose (self Demo.multi)
  ∧ ∃ b σ', (episode [CallReward 0%Z 0%Z 0%Z];; is_terminal 0%Z 1%Z 0%Z) Demo.multi
            = (Ok b, σ')
            ∧ (b = true ↔ some_group_ended σ').
Proof.
  split; [apply multi_wf|].
  apply (proj1 is_terminal_any_group_all_ended Demo.multi). apply multi_wf.
Defined.

(** C10 on the purpose without tasks. *)
Lemma no_task_reward_and_terminal_witness :
  tasks (self Demo.start) = []
  ∧ reward 0%Z 0%Z 0%Z Demo.start = (Ok (timestep_reward (self Demo.start)), Demo.start)
  ∧ is_terminal 0%Z 0%Z 0%Z Demo.start = (Ok false, Demo.start).
Proof.
  split; [reflexivity|].
  apply (no_task_reward_and_terminal Demo.start). reflexivity.
Defined.

(** C9 on the purpose of the tests: terminal at position 1 after position
    0, and still terminal at position 7. *)
Lemma is_terminal_stays_true_witness :
  is_terminal 0%Z 1%Z 0%Z Demo.multi_at_0 = (Ok true, Demo.multi_done)
  ∧ ∃ σ2, (episode [CallReward 0%Z 3%Z 0%Z];; is_terminal 0%Z 7%Z 0%Z) Demo.multi_done
          = (Ok true, σ2).
Proof.
  assert (is_terminal 0%Z 1%Z 0%Z Demo.multi_at_0 = (Ok true, Demo.multi_done)) as Hrun.
  { assert ((is_terminal 0%Z 1%Z 0%Z Demo.multi_at_0).1 = Ok true) as H1
      by (vm_compute; reflexivity).
    unfold Demo.multi_done.
    destruct (is_terminal _ _ _ Demo.multi_at_0) as [o σ].
    simpl in H1. by subst. }
  split; [exact Hrun|].
  apply (is_terminal_stays_true Demo.multi_at_0 0%Z 1%Z 0%Z Demo.multi_done);
    [apply multi_at_0_wf|exact Hrun].
Defined.

(** C4: the flag of a task that is added a second time is reset. *)
Lemma readded_task_flag_reset :
  (Demo.readded Demo.start).1 = Ok (Some true, Some false).
Proof. vm_compute. reflexivity. Qed.

(** C4, amended, on the first task of the purpose of the tests. *)
Lemma ended_flag_sticky_witness :
  ended Demo.multi_at_0 (Demo.go_to 1)
  ∧ ∀ cs, ended (episode cs Demo.multi_at_0).2 (Demo.go_to 1).
Proof.
  assert (ended Demo.multi_at_0 (Demo.go_to 1)) as Hended
    by (unfold ended; vm_compute; reflexivity).
  split; [exact Hended|].
  apply (ended_flag_sticky Demo.multi_at_0 (Demo.go_to 1) Hended).
Defined.

(** C5: a task of the group "default" that is added again with
    [terminal_groups=None] is still in the group, and ends the episode, which
    it would not with its predicate switched off. *)
Lemma readded_optional_task_terminates :
  (Demo.readded_optional Demo.methods Demo.start).1
  = Ok ([("default"%string, [Demo.go_to 1])], [false; true; true])
  ∧ (Demo.readded_optional (never_terminal Demo.methods (Demo.go_to 1)) Demo.start).1
    = Ok ([("default"%string, [Demo.go_to 1])], [false; false; false]).
Proof. split; vm_compute; reflexivity. Qed.

(** C5, amended, on the purpose of the tests: a new task added with
    [terminal_groups=None], and the optional task of the tests. *)
Lemma optional_task_rewards_but_never_ends_witness :
  (NoGroup = NoGroup ∨ NoGroup = GroupName EmptyString)
  ∧ is_Some (RewardShaping_call (default_reward_shaping (self Demo.multi)))
  ∧ wf_purpose (self Demo.multi)
  ∧ (Demo.go_to 7 ∉ tasks (self Demo.multi))
  ∧ optional (self Demo.multi) (Demo.go_to 4)
  ∧ (∃ σ1, add_task (Demo.go_to 7) None NoGroup Demo.multi = (Ok (), σ1)
           ∧ terminal_groups (self σ1) = terminal_groups (self Demo.multi)
           ∧ optional (self σ1) (Demo.go_to 7))
  ∧ ∃ bs σ1 σ1',
      @is_terminal_run _ Demo.methods [(0, 3, 0); (0, 0, 0); (0, 1, 0)]%Z Demo.multi
      = (Ok bs, σ1)
      ∧ @is_terminal_run _ (never_terminal Demo.methods (Demo.go_to 4))
          [(0, 3, 0); (0, 0, 0); (0, 1, 0)]%Z Demo.multi
        = (Ok bs, σ1').
Proof.
  assert (is_Some (RewardShaping_call (default_reward_shaping (self Demo.multi))))
    as Hsome by (by eexists).
  assert (Demo.go_to 7 ∉ tasks (self Demo.multi)) as Hnew.
  { cbn. rewrite !not_elem_of_cons. repeat split; try discriminate.
    apply not_elem_of_nil. }
  split; [by left|]. split; [exact Hsome|]. split; [apply multi_wf|].
  split; [exact Hnew|]. split; [apply multi_optional|]. split.
  - destruct (proj1 optional_task_rewards_but_never_ends Demo.multi (Demo.go_to 7)
                None NoGroup (or_introl eq_refl) Hsome)
      as (σ1 & Hrun & _ & Hgroups & _ & Hopt & _).
    exists σ1. split; [exact Hrun|]. split; [exact Hgroups|].
    exact (Hopt multi_wf Hnew).
  - apply (proj1 (proj2 optional_task_rewards_but_never_ends));
      [apply multi_wf|apply multi_optional].
Defined.

(** C6 on the purpose with one task shaped by REQUIRED. *)
Lemma build_subtasks_optional_unshaped_witness :
  wf_purpose (self Demo.shaped) ∧ allocated Demo.shaped
  ∧ ∃ N, ∀ fuel, N ≤ fuel →
      ∃ out σ' subs,
        build fuel Demo.env Demo.shaped = (out, σ') ∧ out ≠ OutOfFuel
        ∧ tasks (self σ') = tasks (self Demo.shaped) ++ subs
        ∧ terminal_groups (self σ') = terminal_groups (self Demo.shaped)
        ∧ (∀ s, s ∈ subs →
             reward_shaping (self σ') !! s = Some NONE ∧ optional (self σ') s)
        ∧ (∀ t, t ∈ tasks (self Demo.shaped) →
             reward_shaping (self σ') !! t = reward_shaping (self Demo.shaped) !! t)
        ∧ (out = Ok () →
             plans (reward_shaping (self Demo.shaped)) Demo.env (tasks (self Demo.shaped))
             = inr (task_kind <$> subs)
             ∧ plans (reward_shaping (self σ')) Demo.env subs = inr []).
Proof.
  split; [apply shaped_wf|]. split; [apply shaped_allocated|].
  apply (build_subtasks_optional_unshaped Demo.env Demo.shaped);
    [apply shaped_wf|apply shaped_allocated].
Defined.

(** C7: the second [build] makes the task list longer. *)
Lemma build_twice_not_idempotent :
  ∃ ts1 ts2, (Demo.build_twice Demo.start).1 = Ok (ts1, ts2)
             ∧ length ts1 = 4 ∧ length ts2 = 7.
Proof. eexists _, _. split; [vm_compute; reflexivity|]. split; reflexivity. Qed.

Lemma shaped_plans :
  plans (reward_shaping (self Demo.shaped)) Demo.env (tasks (self Demo.shaped))
  = inr [GetItemTask (stack_of_item Demo.item1);
         GetItemTask (stack_of_item Demo.item0);
         GoToZoneTask Demo.zone1].
Proof. vm_compute. reflexivity. Qed.

(** C7, amended, on the purpose with one task shaped by REQUIRED. *)
Lemma build_twice_appends_again_witness :
  wf_purpose (self Demo.shaped) ∧ allocated Demo.shaped
  ∧ ∃ N, ∀ fuel, N ≤ fuel →
      ∃ σ1 σ2,
        build fuel Demo.env Demo.shaped = (Ok (), σ1)
        ∧ build fuel Demo.env σ1 = (Ok (), σ2)
        ∧ length (tasks (self σ1)) = 4 ∧ length (tasks (self σ2)) = 7.
Proof.
  split; [apply shaped_wf|]. split; [apply shaped_allocated|].
  destruct (build_twice_appends_again Demo.env Demo.shaped _
              shaped_wf shaped_allocated shaped_plans) as (N & HN).
  exists N. intros fuel Hfuel.
  destruct (HN fuel Hfuel) as (σ1 & σ2 & H1 & H2 & Ht1 & Ht2 & _).
  exists σ1, σ2. split; [exact H1|]. split; [exact H2|].
  rewrite Ht2, Ht1, !length_app, !fresh_tasks_length. split; reflexivity.
Defined.

(** C8 on a purpose whose only task is of the class of the tests. *)
Lemma unsupported_task_shaping_raises_witness :
  is_supported (task_kind (Demo.go_to 1)) = false
  ∧ ∃ N, ∀ fuel, N ≤ fuel →
      ∃ σ', build fuel Demo.env Demo.unsupported = (Raise NotImplementedError, σ').
Proof.
  split; [reflexivity|].
  destruct (unsupported_task_shaping_raises Demo.env Demo.unsupported
              [] (Demo.go_to 1) [] unsupported_wf unsupported_allocated
              eq_refl eq_refl (or_introl eq_refl)) as (_ & N & HN).
  exists N. intros fuel Hfuel.
  destruct (HN fuel Hfuel) as (e & σ' & Hrun & He).
  exists σ'. rewrite Hrun, He; [reflexivity|]. by exists [].
Defined.

(** C2 on the items "0", "1", "2" and the zone "1". *)
Lemma required_shaping_scenario_witness :
  ∃ N, ∀ fuel, N ≤ fuel →
    ∃ σ' subs,
      build fuel Demo.env Demo.shaped = (Ok (), σ')
      ∧ tasks (self σ') = Demo.goal :: subs
      ∧ task_kind <$> subs ≡ₚ [GetItemTask (stack_of_item Demo.item0);
                               GetItemTask (stack_of_item Demo.item1);
                               GoToZoneTask Demo.zone1]
      ∧ terminal_groups (self σ') = terminal_groups (self Demo.shaped)
      ∧ ∀ s, s ∈ subs → optional (self σ') s.
Proof.
  apply (required_shaping_scenario Demo.item0 Demo.item1 Demo.item2 Demo.zone1
           Demo.shaped Demo.goal (stack_of_item Demo.item2));
    [discriminate|discriminate|discriminate|apply shaped_wf|apply shaped_allocated
    |reflexivity|reflexivity|reflexivity|vm_compute; reflexivity].
Defined.

(** C3: a [PlaceItemTask] with a candidate zone gets a [GoToZoneTask] for
    it, in a world where no transformation produces anything. *)
Lemma place_item_inputs_candidate_zone :
  (Demo.place_inputs Demo.start).1 = Ok [GoToZoneTask Demo.zone3]
  ∧ ∀ k, ¬ spec_inputs (PlaceItemTask (stack_of_item Demo.item2) (Some [Demo.zone3]))
             (env_of_transformations []) k.
Proof.
  split; [vm_compute; reflexivity|].
  intros k (t & Ht & _). inversion Ht.
Qed.

(** C3, amended, on the scenario. *)
Lemma inputs_shaping_one_hop_witness :
  ∃ σ' subs,
    _inputs_subtasks Demo.goal Demo.env 1%Z Demo.shaped = (Ok subs, σ')
    ∧ task_kind <$> subs ≡ₚ [GetItemTask (stack_of_item Demo.item1);
                             GoToZoneTask Demo.zone1].
Proof.
  apply (proj2 inputs_shaping_one_hop Demo.item0 Demo.item1 Demo.item2 Demo.zone1
           Demo.goal (stack_of_item Demo.item2));
    [discriminate|discriminate|reflexivity|reflexivity].
Defined.

(** * The further properties on the purposes of the test suite *)

Lemma multi_NoDup : NoDup (tasks (self Demo.multi)).
Proof. apply (bool_decide_unpack _). vm_compute. exact I. Qed.

Lemma multi_allocated : allocated Demo.multi.
Proof.
  intros t Ht. revert Ht. cbn.
  rewrite !elem_of_cons. intros [-> |[-> |[-> |[-> |Ht]]]];
    [cbn; lia..|inversion Ht].
Qed.

Lemma multi_keys_distinct : keys_distinct (self Demo.multi).
Proof. apply (bool_decide_unpack _). vm_compute. exact I. Qed.

Lemma shaped_keys_distinct : keys_distinct (self Demo.shaped).
Proof. apply (bool_decide_unpack _). vm_compute. exact I. Qed.

Lemma all_shaped_wf : wf_purpose (self DemoExtra.all_shaped).
Proof.
  unfold DemoExtra.all_shaped. cbn [self]. apply added_wf, empty_purpose_wf.
Qed.

Lemma all_shaped_allocated : allocated DemoExtra.all_shaped.
Proof.
  intros t Ht. cbn in Ht. apply list_elem_of_singleton in Ht as ->. cbn. lia.
Qed.

(** [str] of the purpose of the tests is the string [test_str_full]
    expects. *)
Lemma multi_str :
  Purpose_str DemoExtra.task_str (self Demo.multi)
  = Some "Purpose(default:[Task(0),Task(1)], other:[Task(1),Task(2)], optional:[Task(3)])"%string.
Proof. vm_compute. reflexivity. Qed.

(** [add_task] with the string "bogus" on the purpose of the tests. *)
Lemma add_task_value_error_witness :
  RewardShaping_call (ByValue "bogus") = None
  ∧ add_task (Demo.go_to 1) (Some (ByValue "bogus")) (GroupName "default") Demo.multi
    = (Raise ValueError, Demo.multi).
Proof.
  split; [reflexivity|].
  apply (proj1 (add_task_value_error (Demo.go_to 1) (Some (ByValue "bogus"))
                  (GroupName "default") Demo.multi)).
  reflexivity.
Defined.

(** The first task of the tests added to "other" twice and to a new
    group. *)
Lemma add_task_groups_witness :
  is_Some (RewardShaping_call (default_reward_shaping (self Demo.multi)))
  ∧ group_get "other"
      (terminal_groups
         (self (add_task (Demo.go_to 1) None (GroupNames ["other"; "new"; "other"])
                  Demo.multi).2))
    = Some [Demo.go_to 2; Demo.go_to 3; Demo.go_to 1; Demo.go_to 1].
Proof.
  assert (is_Some (RewardShaping_call (default_reward_shaping (self Demo.multi))))
    as Hsome by (by eexists).
  split; [exact Hsome|].
  rewrite (add_task_groups (Demo.go_to 1) None (GroupNames ["other"; "new"; "other"])
             Demo.multi "other" Hsome).
  vm_compute. reflexivity.
Defined.

(** The invariants through [build] on the purpose with one task shaped by
    REQUIRED. *)
Lemma purpose_invariants_kept_witness :
  wf_purpose (self Demo.shaped) ∧ keys_distinct (self Demo.shaped)
  ∧ allocated Demo.shaped
  ∧ ∃ N, ∀ fuel, N ≤ fuel →
      let σ' := (build fuel Demo.env Demo.shaped).2 in
      wf_purpose (self σ') ∧ keys_distinct (self σ').
Proof.
  split; [apply shaped_wf|]. split; [apply shaped_keys_distinct|].
  split; [apply shaped_allocated|].
  apply (proj2 (proj2 (proj2 purpose_invariants_kept)) Demo.shaped Demo.env
           shaped_wf shaped_keys_distinct shaped_allocated).
Defined.

(** A purpose constructed from two tasks with the default shaping "all". *)
Lemma constructor_default_group_witness :
  RewardShaping_call (ByValue "all") = Some ALL_ACHIVEMENTS
  ∧ ∃ b σ',
      (Purpose_init (TaskList [Demo.go_to 1; Demo.go_to 2]) 0%Z (ByValue "all") 1%Z;;
       episode [CallIsTerminal 0%Z 0%Z 0%Z];; is_terminal 0%Z 1%Z 0%Z) Demo.start
      = (Ok b, σ')
      ∧ tasks (self σ') = [Demo.go_to 1; Demo.go_to 2]
      ∧ (∀ t, t ∈ [Demo.go_to 1; Demo.go_to 2] →
              reward_shaping (self σ') !! t = Some ALL_ACHIVEMENTS)
      ∧ (b = true ↔ [Demo.go_to 1; Demo.go_to 2] ≠ []
                    ∧ ∀ t, t ∈ [Demo.go_to 1; Demo.go_to 2] → ended σ' t).
Proof.
  split; [reflexivity|].
  apply (constructor_default_group (RT := Demo.runtime) (TM := Demo.methods)
           Demo.start (TaskList [Demo.go_to 1; Demo.go_to 2])
           0%Z (ByValue "all") ALL_ACHIVEMENTS 1%Z
           [@CallIsTerminal Demo.runtime 0%Z 0%Z 0%Z]
           0%Z 1%Z 0%Z).
  reflexivity.
Defined.

(** One call of [is_terminal] at position 0 on the purpose of the tests,
    for its first task. *)
Lemma is_terminal_updates_flags_witness :
  wf_purpose (self Demo.multi) ∧ NoDup (tasks (self Demo.multi))
  ∧ task_has_ended (self Demo.multi) !! Demo.go_to 1 = Some false
  ∧ task_has_ended (self (is_terminal 0%Z 0%Z 0%Z Demo.multi).2) !! Demo.go_to 1
    = Some (task_is_terminal (Demo.go_to 1) 0%Z 0%Z 0%Z
              (objects Demo.multi (Demo.go_to 1))).1
  ∧ objects (is_terminal 0%Z 0%Z 0%Z Demo.multi).2 (Demo.go_to 1)
    = (task_is_terminal (Demo.go_to 1) 0%Z 0%Z 0%Z
         (objects Demo.multi (Demo.go_to 1))).2.
Proof.
  split; [apply multi_wf|]. split; [apply multi_NoDup|].
  assert (task_has_ended (self Demo.multi) !! Demo.go_to 1 = Some false) as Hflag
    by (vm_compute; reflexivity).
  split; [exact Hflag|].
  apply (proj1 (proj2 (is_terminal_updates_flags Demo.multi 0%Z 0%Z 0%Z (Demo.go_to 1)
                         multi_wf multi_NoDup)) Hflag).
Defined.

(** [reward] at position 1 on the purpose of the tests. *)
Lemma reward_sums_task_rewards_witness :
  NoDup (tasks (self Demo.multi))
  ∧ ∃ σ',
      reward 0%Z 1%Z 0%Z Demo.multi
      = (Ok (foldl float_add (timestep_reward (self Demo.multi))
               ((λ t, (task_reward t 0%Z 1%Z 0%Z (objects Demo.multi t)).1)
                  <$> tasks (self Demo.multi))), σ')
      ∧ self σ' = self Demo.multi
      ∧ ∀ t, objects σ' t
             = if decide (t ∈ tasks (self Demo.multi))
               then (task_reward t 0%Z 1%Z 0%Z (objects Demo.multi t)).2
               else objects Demo.multi t.
Proof.
  split; [apply multi_NoDup|].
  apply (reward_sums_task_rewards Demo.multi 0%Z 1%Z 0%Z multi_NoDup).
Defined.

(** ALL shaping on a task of the class of the tests. *)
Lemma all_shaping_any_task_witness :
  wf_purpose (self DemoExtra.all_shaped) ∧ allocated DemoExtra.all_shaped
  ∧ reward_shaping (self DemoExtra.all_shaped) !! Demo.go_to 1 = Some ALL_ACHIVEMENTS
  ∧ ∃ N, ∀ fuel, N ≤ fuel →
      ∃ σ' subs,
        build fuel Demo.env DemoExtra.all_shaped = (Ok (), σ')
        ∧ tasks (self σ') = tasks (self DemoExtra.all_shaped) ++ subs
        ∧ task_kind <$> subs
          = (t ← tasks (self DemoExtra.all_shaped);
             if decide (reward_shaping (self DemoExtra.all_shaped) !! t
                        = Some ALL_ACHIVEMENTS)
             then world_kinds (world Demo.env) else []).
Proof.
  assert (reward_shaping (self DemoExtra.all_shaped) !! Demo.go_to 1
          = Some ALL_ACHIVEMENTS) as Hall by (vm_compute; reflexivity).
  split; [apply all_shaped_wf|]. split; [apply all_shaped_allocated|].
  split; [exact Hall|].
  apply (all_shaping_any_task Demo.env DemoExtra.all_shaped
           all_shaped_wf all_shaped_allocated).
  intros t Ht. cbn in Ht. apply list_elem_of_singleton in Ht as ->. by left.
Defined.

(** REQUIRED shaping for the goal item of the scenario. *)
Lemma required_shaping_ancestors_witness :
  is_supported (task_kind Demo.goal) = true
  ∧ ItemNode Demo.item2 ∈ nodes (requirements_graph Demo.env)
  ∧ ∃ σ' subs,
      _required_subtasks Demo.goal Demo.env 1%Z Demo.shaped = (Ok subs, σ')
      ∧ NoDup (task_kind <$> subs)
      ∧ ∀ k, k ∈ task_kind <$> subs ↔
          (∃ z, z ∈ candidate_zones (task_kind Demo.goal) ∧ k = GoToZoneTask z)
          ∨ ∃ n x, n ∈ goal_requirement_nodes (task_kind Demo.goal)
                   ∧ x ≠ n ∧ rtc (edge (requirements_graph Demo.env)) x n
                   ∧ k = subtask_of_node x.
Proof.
  split; [reflexivity|]. split; [apply scenario_goal_node|].
  apply (required_shaping_ancestors (RT := Demo.runtime)
           Demo.env Demo.goal 1%Z Demo.shaped);
    [reflexivity|].
  intros n Hn. cbn in Hn. apply list_elem_of_singleton in Hn as ->.
  apply scenario_goal_node.
Defined.

(** REQUIRED shaping for the goal item of the scenario in an environment
    without transformations. *)
Lemma required_shaping_missing_node_witness :
  is_supported (task_kind Demo.goal) = true
  ∧ ItemNode Demo.item2 ∈ goal_requirement_nodes (task_kind Demo.goal)
  ∧ (ItemNode Demo.item2 ∉ nodes (requirements_graph (env_of_transformations [])))
  ∧ _required_subtasks Demo.goal (env_of_transformations []) 1%Z Demo.shaped
    = (Raise NetworkXError, Demo.shaped).
Proof.
  assert (ItemNode Demo.item2 ∈ goal_requirement_nodes (task_kind Demo.goal)) as Hin
    by (cbn; left).
  assert (ItemNode Demo.item2 ∉ nodes (requirements_graph (env_of_transformations [])))
    as Hnin by (cbn; apply not_elem_of_empty).
  split; [reflexivity|]. split; [exact Hin|]. split; [exact Hnin|].
  apply (required_shaping_missing_node (RT := Demo.runtime)
           (env_of_transformations []) Demo.goal 1%Z
           Demo.shaped (ItemNode Demo.item2) eq_refl Hin Hnin).
Defined.

(** The subtasks of REQUIRED shaping for the goal item of the scenario
    have no task for the goal item. *)
Lemma required_shaping_excludes_goal_witness :
  ∃ subs σ',
    _required_subtasks Demo.goal Demo.env 1%Z Demo.shaped = (Ok subs, σ')
    ∧ GetItemTask (stack_of_item Demo.item2) ∉ task_kind <$> subs.
Proof.
  assert (∃ subs, (_required_subtasks Demo.goal Demo.env 1%Z Demo.shaped).1 = Ok subs)
    as [subs H1] by (eexists; vm_compute; reflexivity).
  destruct (_required_subtasks _ _ _ _) as [o σ'] eqn:Hrun.
  cbn in H1. subst o. exists subs, σ'. split; [reflexivity|].
  apply (required_shaping_excludes_goal (RT := Demo.runtime)
           Demo.env Demo.goal 1%Z Demo.shaped subs σ' Hrun).
Defined.

(** INPUTS shaping for the goal item of the scenario, with and without a
    transformation that consumes it. *)
Lemma inputs_shaping_skips_consumers_witness :
  task_kind Demo.goal = GetItemTask (stack_of_item Demo.item2)
  ∧ item (stack_of_item Demo.item2) ∈ consumed_items DemoExtra.uncraft
  ∧ ∃ σ1 subs1 σ2 subs2,
      _inputs_subtasks Demo.goal
        (with_transformations (DemoExtra.uncraft :: transformations Demo.env) Demo.env)
        1%Z Demo.shaped = (Ok subs1, σ1)
      ∧ _inputs_subtasks Demo.goal
          (with_transformations (transformations Demo.env) Demo.env)
          1%Z Demo.shaped = (Ok subs2, σ2)
      ∧ ∀ k, k ∈ task_kind <$> subs1 ↔ k ∈ task_kind <$> subs2.
Proof.
  assert (item (stack_of_item Demo.item2) ∈ consumed_items DemoExtra.uncraft) as Hin
    by (cbn; left).
  split; [reflexivity|]. split; [exact Hin|].
  apply (inputs_shaping_skips_consumers (RT := Demo.runtime)
           Demo.env Demo.goal (stack_of_item Demo.item2)
           1%Z Demo.shaped DemoExtra.uncraft (transformations Demo.env) eq_refl Hin).
Defined.

(** [build] on the purpose with one task shaped by REQUIRED. *)
Lemma build_binds_every_task_witness :
  wf_purpose (self Demo.shaped) ∧ allocated Demo.shaped
  ∧ NoDup (tasks (self Demo.shaped))
  ∧ ∃ N, ∀ fuel, N ≤ fuel →
      ∃ σ', build fuel Demo.env Demo.shaped = (Ok (), σ')
        ∧ tasks (self σ')
          = tasks (self Demo.shaped)
            ++ fresh_tasks (next_uid Demo.shaped)
                 [GetItemTask (stack_of_item Demo.item1);
                  GetItemTask (stack_of_item Demo.item0);
                  GoToZoneTask Demo.zone1]
        ∧ ∀ t, objects σ' t
               = if decide (t ∈ fresh_tasks (next_uid Demo.shaped)
                                  [GetItemTask (stack_of_item Demo.item1);
                                   GetItemTask (stack_of_item Demo.item0);
                                   GoToZoneTask Demo.zone1])
                 then task_build t (world Demo.env)
                        (task_init (task_kind t) (shaping_value (self Demo.shaped)))
                 else if decide (t ∈ tasks (self Demo.shaped))
                      then task_build t (world Demo.env) (objects Demo.shaped t)
                      else objects Demo.shaped t.
Proof.
  assert (NoDup (tasks (self Demo.shaped))) as Hnd
    by (apply (bool_decide_unpack _); vm_compute; exact I).
  split; [apply shaped_wf|]. split; [apply shaped_allocated|]. split; [exact Hnd|].
  apply (build_binds_every_task Demo.env Demo.shaped _
           shaped_wf shaped_allocated Hnd shaped_plans).
Defined.

(** [build] on the purpose without tasks, and on the purpose of the tests,
    where no task is shaped. *)
Lemma build_without_shaping_witness :
  tasks (self Demo.start) = []
  ∧ (∀ fuel, build fuel Demo.env Demo.start = (Ok (), Demo.start))
  ∧ wf_purpose (self Demo.multi) ∧ 4 < 5
  ∧ ∃ σ', build 5 Demo.env Demo.multi = (Ok (), σ')
          ∧ self σ' = self Demo.multi ∧ next_uid σ' = next_uid Demo.multi.
Proof.
  split; [reflexivity|].
  split; [apply (proj1 (build_without_shaping Demo.env Demo.start) eq_refl)|].
  split; [apply multi_wf|]. split; [lia|].
  apply (proj2 (build_without_shaping Demo.env Demo.multi) multi_wf).
  - apply multi_allocated.
  - intros t Ht. revert Ht. cbn.
    rewrite !elem_of_cons. intros [-> |[-> |[-> |[-> |Ht]]]];
      [vm_compute; reflexivity..|inversion Ht].
  - cbn. lia.
Defined.

(** The fourth task of the tests is optional, and so are the subtasks
    [build] appends to the purpose with one task shaped by REQUIRED. *)
Lemma optional_tasks_spec_witness :
  (Demo.go_to 4 ∈ tasks (self Demo.multi) ∧ optional (self Demo.multi) (Demo.go_to 4)
   → Demo.go_to 4 ∈ optional_tasks (self Demo.multi))
  ∧ wf_purpose (self Demo.shaped) ∧ allocated Demo.shaped
  ∧ ∃ N, ∀ fuel, N ≤ fuel →
      ∃ out σ' subs,
        build fuel Demo.env Demo.shaped = (out, σ')
        ∧ tasks (self σ') = tasks (self Demo.shaped) ++ subs
        ∧ ∀ s, s ∈ subs → s ∈ optional_tasks (self σ').
Proof.
  split; [apply (proj1 optional_tasks_spec (self Demo.multi) (Demo.go_to 4))|].
  split; [apply shaped_wf|]. split; [apply shaped_allocated|].
  apply (proj2 optional_tasks_spec Demo.env Demo.shaped shaped_wf shaped_allocated).
Defined.

(** [str] of the purpose of the tests. *)
Lemma Purpose_str_returns_witness :
  wf_purpose (self Demo.multi)
  ∧ ∃ s, Purpose_str DemoExtra.task_str (self Demo.multi) = Some s
         ∧ (tasks (self Demo.multi) = [] → s = "Purpose()"%string).
Proof.
  split; [apply multi_wf|].
  apply (Purpose_str_returns DemoExtra.task_str (self Demo.multi) multi_wf).
Defined.
